(** * Slick Unit Converter Plus: the conversion engine, embedded.

    The development follows [src/slick_unit_converter_plus.py] (and, for the
    second batch loop, [src/slick_unit_converter_gui.py]).

    Modelling conventions.
    - A Python [float] is a binary64 number: Rocq's primitive [float], whose
      [+ - * /] and [sqrt] are the IEEE operations CPython uses.  Python raises
      [ZeroDivisionError] where IEEE division by zero would return an infinity
      or a NaN; that is written out in [py_div].
    - A Python [int] is a [Z].
    - A Python [str] is a [string].  ASCII text is modelled exactly
      ([lower], [strip], the classes of the pattern).  The only non-ASCII text
      of the program, the micro and degree signs of five seed keys, is kept as
      its UTF-8 bytes; bytes above 127 are caseless and belong to none of the
      classes space, digit, word.
    - A [dict] is an association list in insertion order, which is the order
      CPython iterates a dict in.
    - An exception is a value of [exn]; a function that may raise returns a
      [result].
    - [ast.parse] is modelled by a parser for the arithmetic fragment
      (numbers, names, [+ - * / ** % //], unary signs, parentheses, calls,
      tuple and list displays).  Text beyond the fragment, node kinds and
      operand types beyond numbers, and the functions of libm are left to a
      [Runtime], about which nothing is assumed.
    - The program names [ast.Num], so it runs on the CPython versions that
      still have it (3.8 to 3.13); there a number literal is an
      [ast.Constant]. *)

From Stdlib Require Import ZArith List String Ascii Bool Lia.
From Stdlib Require Import Floats.
From Stdlib Require Import Sorted Permutation.
Import ListNotations.

Set Warnings "-inexact-float,-register-all".
Local Open Scope string_scope.
Local Open Scope bool_scope.

(** ** Exceptions and results *)

(** The node classes of Python's [ast] module, by name; [ClsOther] stands for
    any class the program never mentions ([Compare], [Lambda], [Dict], ...). *)
Inductive node_class : Type :=
| ClsExpression | ClsBinOp | ClsUnaryOp | ClsCall | ClsConstant | ClsName
| ClsLoad | ClsAdd | ClsSub | ClsMult | ClsDiv | ClsPow | ClsUSub | ClsUAdd
| ClsMod | ClsFloorDiv | ClsTuple | ClsList
| ClsAttribute | ClsSubscript | ClsStarred | ClsKeyword
| ClsOther (name : string).

(** Every exception the engine can raise.  The constructors that stand for a
    [ValueError] carry the data of its message instead of the message text. *)
Inductive exn : Type :=
| SyntaxError
| NameError (id : string)
| TypeError
| ZeroDivisionError
| OverflowError
| MathDomainError
    (* ValueError("math domain error") *)
| DisallowedElement (c : node_class)
    (* ValueError(f"Disallowed expression element: {type(n).__name__}") *)
| OnlyWhitelisted
    (* ValueError("Only sqrt/sin/cos/tan/abs/round, pi, e are allowed.") *)
| FloatNaNToInteger
    (* ValueError("cannot convert float NaN to integer") *)
| CouldNotParse
    (* ValueError("Could not parse expression. Try like: 3 ft to cm  |  5 kg in lb") *)
| CouldNotConvert (text : string)
    (* ValueError("could not convert string to float: ...") *)
| NoCommonCategory (u_from u_to : string)
    (* ValueError(f"Cannot detect a common category for '{u_from}' and '{u_to}'.") *)
| UnknownUnits.
    (* ValueError("Unknown unit(s). Use --list to see categories/units.") *)

Inductive result (A : Type) : Type :=
| Ok (a : A)
| Raise (e : exn).
Arguments Ok {A} a.
Arguments Raise {A} e.

Definition bind {A B : Type} (r : result A) (f : A -> result B) : result B :=
  match r with
  | Ok a => f a
  | Raise e => Raise e
  end.

Notation "'let*' x ':=' r 'in' k" := (bind r (fun x => k))
  (at level 10, x pattern, r at level 100, k at level 200).

Definition is_ok {A : Type} (r : result A) : bool :=
  match r with Ok _ => true | Raise _ => false end.

(** The three error kinds of the specification.  The program raises plain
    [ValueError]s; the kind is told by the place that raises. *)
Inductive error_kind : Type := ParseError | EvalError | UnitError.

Definition kind_of (e : exn) : error_kind :=
  match e with
  | CouldNotParse => ParseError
  | NoCommonCategory _ _ | UnknownUnits => UnitError
  | _ => EvalError
  end.

(** ** Text *)

Definition code (c : ascii) : nat := nat_of_ascii c.

Definition between (lo hi : nat) (c : ascii) : bool :=
  Nat.leb lo (code c) && Nat.leb (code c) hi.

(** [str.isspace] and the pattern class [\s] on ASCII: tab to carriage
    return, the four separators 0x1c-0x1f, and the space. *)
Definition is_space (c : ascii) : bool :=
  between 9 13 c || between 28 31 c || Nat.eqb (code c) 32.

(** [0-9], which is also [\d] on ASCII. *)
Definition is_digit (c : ascii) : bool := between 48 57 c.

Definition is_upper (c : ascii) : bool := between 65 90 c.
Definition is_alpha (c : ascii) : bool := is_upper c || between 97 122 c.

(** [\w] on ASCII: letters, digits and the underscore. *)
Definition is_word (c : ascii) : bool :=
  is_alpha c || is_digit c || Nat.eqb (code c) 95.

Definition lower_char (c : ascii) : ascii :=
  if is_upper c then ascii_of_nat (code c + 32) else c.

(** [str.lower] *)
Fixpoint lower (s : string) : string :=
  match s with
  | EmptyString => EmptyString
  | String c s' => String (lower_char c) (lower s')
  end.

Fixpoint lstrip (s : string) : string :=
  match s with
  | String c s' => if is_space c then lstrip s' else s
  | EmptyString => EmptyString
  end.

(** Drops the trailing white space: a character is kept when something that
    is kept follows it, or when it is not a space. *)
Fixpoint rstrip (s : string) : string :=
  match s with
  | EmptyString => EmptyString
  | String c s' =>
      match rstrip s' with
      | EmptyString => if is_space c then EmptyString else String c EmptyString
      | t => String c t
      end
  end.

(** [str.strip] *)
Definition strip (s : string) : string := rstrip (lstrip s).

(** [s.replace(a, b)] for a one-character [a]. *)
Fixpoint replace_char (a : ascii) (b : string) (s : string) : string :=
  match s with
  | EmptyString => EmptyString
  | String c s' =>
      if Ascii.eqb c a then b ++ replace_char a b s'
      else String c (replace_char a b s')
  end.

(** ** Dictionaries *)

Section Dict.
Context {V : Type}.

Definition dict : Type := list (string * V).

(** [d.get(k)] *)
Fixpoint dict_get (d : dict) (k : string) : option V :=
  match d with
  | [] => None
  | (k', v) :: d' => if String.eqb k' k then Some v else dict_get d' k
  end.

(** [k in d] *)
Definition dict_mem (d : dict) (k : string) : bool :=
  match dict_get d k with Some _ => true | None => false end.

(** [d[k] = v]: a key that is present keeps its place, a new key goes last. *)
Fixpoint dict_set (d : dict) (k : string) (v : V) : dict :=
  match d with
  | [] => [(k, v)]
  | (k', v') :: d' =>
      if String.eqb k' k then (k', v) :: d' else (k', v') :: dict_set d' k v
  end.

Definition dict_keys (d : dict) : list string := map fst d.
Definition dict_values (d : dict) : list V := map snd d.
End Dict.
Arguments dict V : clear implicits.

(** ** Floating-point arithmetic as Python does it *)

Local Open Scope float_scope.

(** [x / y] *)
Definition py_div (x y : float) : result float :=
  if y =? 0 then Raise ZeroDivisionError else Ok (x / y).

(** [math.pi] and [math.e] *)
Definition math_pi : float := 3.141592653589793.
Definition math_e : float := 2.718281828459045.

(** ** Conversion engine: units *)

Definition transform : Type := float -> result float.

Record Unit : Type := mkUnit {
  name : string;
  to_base : transform;
  from_base : transform;
  aliases : list string
}.

Definition UnitRegistry : Type := dict (dict Unit).

(** The closures of the linear branch of [UnitRegistry.add], with their
    default arguments [f=factor, b=offset].  [factor] defaults to [None], and
    arithmetic on [None] is a [TypeError]. *)
Definition _to_base (f : option float) (b : float) : transform :=
  fun x =>
    match f with
    | None => Raise TypeError
    | Some f =>
        if b =? 0 then Ok ((x + 0.0 - 0.0 * b) * f) else Ok ((x + (- b)) * f)
    end.

Definition _from_base (f : option float) (b : float) : transform :=
  fun x =>
    match f with
    | None => Raise TypeError
    | Some f => let* q := py_div x f in Ok (q + b)
    end.

(** A transform that was left [None] cannot be called. *)
Definition callable (t : option transform) : transform :=
  match t with
  | Some t => t
  | None => fun _ => Raise TypeError
  end.

(** The set [{name, *aliases}]: its members, each once. *)
Definition alias_set (name : string) (aliases : list string) : list string :=
  nodup string_dec (name :: aliases).

(** [UnitRegistry.add].  The loop stores the same unit under every key, so
    the order in which the set is walked does not show in any lookup. *)
Definition add (reg : UnitRegistry) (category name : string)
    (factor : option float) (offset : float)
    (to_base from_base : option transform) (aliases : list string)
    : UnitRegistry :=
  let cat := match dict_get reg category with Some c => c | None => [] end in
  let u :=
    match to_base, from_base with
    | None, None =>
        mkUnit name (_to_base factor offset) (_from_base factor offset)
               (alias_set name aliases)
    | _, _ =>
        mkUnit name (callable to_base) (callable from_base)
               (alias_set name aliases)
    end in
  let cat' :=
    fold_left (fun c alias => dict_set c (lower alias) u)
              (alias_set name aliases) cat in
  dict_set reg category cat'.

(** [UnitRegistry.get] *)
Definition get (reg : UnitRegistry) (category unit_key : string) : option Unit :=
  dict_get (match dict_get reg category with Some c => c | None => [] end)
           (lower unit_key).

(** [UnitRegistry.detect_category] *)
Fixpoint detect_items (items : UnitRegistry) (al bl : string) : option string :=
  match items with
  | [] => None
  | (cat, units) :: rest =>
      if dict_mem units al && dict_mem units bl then Some cat
      else detect_items rest al bl
  end.

Definition detect_category (reg : UnitRegistry) (a b : string) : option string :=
  detect_items reg (lower a) (lower b).

(** [sorted] on texts: increasing in the order of [str], which compares
    character by character.  Equal texts are the same text, so the order
    of equal elements does not show. *)
Fixpoint insort (x : string) (l : list string) : list string :=
  match l with
  | [] => [x]
  | y :: l' => if String.leb x y then x :: l else y :: insort x l'
  end.

Definition sorted (l : list string) : list string := fold_right insort [] l.

(** [UnitRegistry.list_categories] *)
Definition list_categories (reg : UnitRegistry) : list string :=
  sorted (dict_keys reg).

(** [UnitRegistry.list_units] *)
Definition list_units (reg : UnitRegistry) (category : string) : list string :=
  let units := match dict_get reg category with Some c => c | None => [] end in
  let seen :=
    fold_left (fun seen u => dict_set seen (name u) true)
              (dict_values units) [] in
  sorted (dict_keys seen).

(** The keyword call [ureg.add(category, name, factor=..., aliases=...)],
    [offset] at its default. *)
Definition add_factor (reg : UnitRegistry) (category name : string)
    (factor : float) (aliases : list string) : UnitRegistry :=
  add reg category name (Some factor) 0.0 None None aliases.

(** [add_linear] *)
Definition add_linear (reg : UnitRegistry) (category base_name : string)
    (pairs : list (string * float * list string)) : UnitRegistry :=
  fold_left
    (fun r '(name, factor, aliases) => add_factor r category name factor aliases)
    pairs
    (add_factor reg category base_name 1.0 [base_name]).

(** ** The seed table: the module-level registrations, in source order *)

(** The alias of the inch that is a double quote. *)
Definition dquote : string := String (ascii_of_nat 34) EmptyString.

(** [1024.0**n] for the four powers of the table; each is exact. *)
Definition pow1024_2 : float := 1024.0 * 1024.0.
Definition pow1024_3 : float := 1024.0 * 1024.0 * 1024.0.
Definition pow1024_4 : float := 1024.0 * 1024.0 * 1024.0 * 1024.0.

(** Temperature (non-linear; base: Kelvin) *)
Definition C_to_K (x : float) : float := x + 273.15.
Definition K_to_C (x : float) : float := x - 273.15.
Definition F_to_K (x : float) : float := (x - 32.0) * 5.0 / 9.0 + 273.15.
Definition K_to_F (x : float) : float := (x - 273.15) * 9.0 / 5.0 + 32.0.
Definition R_to_K (x : float) : float := x * 5.0 / 9.0.
Definition K_to_R (x : float) : float := x * 9.0 / 5.0.

(** A Python function of one float that cannot raise. *)
Definition total (f : float -> float) : option transform :=
  Some (fun x => Ok (f x)).

(** The keyword call [ureg.add(category, name, to_base=..., from_base=...,
    aliases=...)]. *)
Definition add_custom (reg : UnitRegistry) (category name : string)
    (to_base from_base : float -> float) (aliases : list string)
    : UnitRegistry :=
  add reg category name None 0.0 (total to_base) (total from_base) aliases.

Definition ureg : UnitRegistry :=
  let r := [] in
  (* Length (base: meter) *)
  let r := add_linear r "length" "m" [
    ("km", 1000.0, ["kilometer";"kilometre";"kilometers";"kilometres";"kms"]);
    ("cm", 0.01, ["centimeter";"centimetre";"centimeters";"centimetres";"cms"]);
    ("mm", 0.001, ["millimeter";"millimetre";"millimeters";"millimetres";"mms"]);
    ("μm", 1e-6, ["um";"micrometer";"micrometre";"micron";"microns"]);
    ("nm", 1e-9, ["nanometer";"nanometre";"nanometers";"nanometres"]);
    ("in", 0.0254, ["inch";"inches";dquote]);
    ("ft", 0.3048, ["foot";"feet";"'"]);
    ("yd", 0.9144, ["yard";"yards"]);
    ("mi", 1609.344, ["mile";"miles"])] in
  (* Mass (base: kilogram) *)
  let r := add_linear r "mass" "kg" [
    ("g", 0.001, ["gram";"grams"]);
    ("mg", 1e-6, ["milligram";"milligrams"]);
    ("lb", 0.45359237, ["lbs";"pound";"pounds"]);
    ("oz", 0.028349523125, ["ounce";"ounces"]);
    ("ton", 1000.0, ["t";"tonne";"tonnes";"metric ton";"metric tons"])] in
  (* Time (base: second) *)
  let r := add_linear r "time" "s" [
    ("ms", 1e-3, ["millisecond";"milliseconds"]);
    ("μs", 1e-6, ["us";"microsecond";"microseconds"]);
    ("min", 60.0, ["minute";"minutes"]);
    ("h", 3600.0, ["hr";"hour";"hours"]);
    ("day", 86400.0, ["days";"d"])] in
  (* Speed (base: m/s) *)
  let r := add_factor r "speed" "m/s" 1.0
    ["mps";"meter/second";"metre/second";"meters/second";"metres/second"] in
  let r := add_factor r "speed" "km/h" (1000.0 / 3600.0)
    ["kph";"kmph";"kilometer/hour";"kilometre/hour"] in
  let r := add_factor r "speed" "mph" (1609.344 / 3600.0)
    ["mile/hour";"miles/hour"] in
  let r := add_factor r "speed" "ft/s" 0.3048
    ["fps";"foot/second";"feet/second";"ftps"] in
  let r := add_factor r "speed" "kn" (1852.0 / 3600.0) ["knot";"knots"] in
  (* Pressure (base: pascal) *)
  let r := add_linear r "pressure" "Pa" [
    ("kPa", 1000.0, []);
    ("bar", 1e5, []);
    ("mbar", 100.0, ["millibar";"hPa"]);
    ("atm", 101325.0, []);
    ("psi", 6894.757293168, ["pound-force/in^2";"lb/in^2"])] in
  (* Energy (base: joule) *)
  let r := add_linear r "energy" "J" [
    ("kJ", 1000.0, []);
    ("Wh", 3600.0, ["watt-hour";"watt hour"]);
    ("kWh", 3.6e6, ["kilowatt-hour";"kilowatt hour"]);
    ("cal", 4.184, ["small calorie";"calorie"]);
    ("kcal", 4184.0, ["Cal";"food calorie"]);
    ("eV", 1.602176634e-19, [])] in
  (* Power (base: watt) *)
  let r := add_linear r "power" "W" [
    ("kW", 1000.0, []);
    ("MW", 1e6, []);
    ("hp", 745.6998715822702, ["horsepower"])] in
  (* Frequency (base: hertz) *)
  let r := add_linear r "frequency" "Hz" [
    ("kHz", 1e3, []);
    ("MHz", 1e6, []);
    ("GHz", 1e9, []);
    ("rpm", 1 / 60.0, [])] in
  (* Area (base: m^2) *)
  let r := add_linear r "area" "m^2" [
    ("cm^2", 1e-4, []);
    ("mm^2", 1e-6, []);
    ("km^2", 1e6, []);
    ("in^2", 0.00064516, []);
    ("ft^2", 0.09290304, []);
    ("yd^2", 0.83612736, []);
    ("acre", 4046.8564224, []);
    ("hectare", 10000.0, ["ha"])] in
  (* Volume (base: m^3) *)
  let r := add_linear r "volume" "m^3" [
    ("L", 0.001, ["liter";"litre";"liters";"litres"]);
    ("mL", 1e-6, ["ml";"milliliter";"millilitre"]);
    ("cm^3", 1e-6, ["cc";"cubic centimeter";"cubic centimetre"]);
    ("in^3", 1.6387064e-5, ["cu in"]);
    ("ft^3", 0.028316846592, ["cu ft"]);
    ("gal", 0.003785411784, ["gallon";"gallons";"US gal"]);
    ("qt", 0.000946352946, ["quart";"quarts"]);
    ("pt", 0.000473176473, ["pint";"pints"]);
    ("fl oz", 2.95735295625e-5, ["fluid ounce";"fl. oz."])] in
  (* Data (base: byte) *)
  let r := add_linear r "data" "B" [
    ("KB", 1024.0, []); ("MB", pow1024_2, []); ("GB", pow1024_3, []);
    ("TB", pow1024_4, []); ("bit", 1 / 8.0, ["b"]); ("Kb", 1024.0 / 8.0, []);
    ("Mb", pow1024_2 / 8.0, []); ("Gb", pow1024_3 / 8.0, []);
    ("Tb", pow1024_4 / 8.0, [])] in
  (* Angle (base: radian) *)
  let r := add_factor r "angle" "rad" 1.0 ["radian";"radians"] in
  let r := add_factor r "angle" "deg" (math_pi / 180.0) ["degree";"degrees"] in
  let r := add_factor r "angle" "grad" (math_pi / 200.0) ["gon";"grade"] in
  let r := add_factor r "angle" "turn" (2 * math_pi) ["rev";"revolution"] in
  (* Temperature (non-linear; base: Kelvin) *)
  let r := add_custom r "temperature" "K" (fun x => x) (fun x => x)
    ["kelvin";"kelvins";"k"] in
  let r := add_custom r "temperature" "C" C_to_K K_to_C ["°C";"celsius";"degC"] in
  let r := add_custom r "temperature" "F" F_to_K K_to_F ["°F";"fahrenheit";"degF"] in
  let r := add_custom r "temperature" "R" R_to_K K_to_R ["rankine";"°R"] in
  r.

Local Close Scope float_scope.

(** ** Regular expressions: the fragment of [re] the pattern uses

    A backtracking matcher in continuation-passing style: the alternatives
    are tried in the order Python's engine tries them, and the first
    complete match wins. *)

Inductive regex : Type :=
| Bol                                       (* ^ *)
| Eol                                       (* $ *)
| Cls (p : ascii -> bool)                   (* one character of a class *)
| Lit (l : string)                          (* literal text, under IGNORECASE *)
| Seq (r1 r2 : regex)
| Alt (r1 r2 : regex)                       (* r1|r2 *)
| Opt (r : regex)                           (* (?:r)? *)
| Rep (lazy : bool) (min : nat) (p : ascii -> bool)
                                            (* p* p+ and, lazy, p*? p+? *)
| Grp (n : string) (r : regex).             (* (?P<n>r) *)

Definition captures : Type := list (string * string).

Definition cont : Type := nat -> string -> captures -> option captures.

(** A literal, compared case-insensitively; the rest of the input. *)
Fixpoint lit_match (l s : string) : option string :=
  match l, s with
  | EmptyString, _ => Some s
  | String a l', String c s' =>
      if Ascii.eqb (lower_char a) (lower_char c) then lit_match l' s' else None
  | String _ _, EmptyString => None
  end.

(** Greedy repetition: take a character when the class allows, and give it
    back when the rest of the pattern fails. *)
Fixpoint rep_greedy (p : ascii -> bool) (min i : nat) (s : string)
    (g : captures) (k : cont) : option captures :=
  match s with
  | String c s' =>
      if p c then
        match rep_greedy p (Nat.pred min) (S i) s' g k with
        | Some res => Some res
        | None => if Nat.eqb min 0 then k i s g else None
        end
      else if Nat.eqb min 0 then k i s g else None
  | EmptyString => if Nat.eqb min 0 then k i s g else None
  end.

(** Lazy repetition: try the rest of the pattern first, and take one more
    character only when it fails. *)
Fixpoint rep_lazy (p : ascii -> bool) (min i : nat) (s : string)
    (g : captures) (k : cont) : option captures :=
  match min with
  | S m =>
      match s with
      | String c s' => if p c then rep_lazy p m (S i) s' g k else None
      | EmptyString => None
      end
  | O =>
      match k i s g with
      | Some res => Some res
      | None =>
          match s with
          | String c s' => if p c then rep_lazy p O (S i) s' g k else None
          | EmptyString => None
          end
      end
  end.

Definition newline : ascii := ascii_of_nat 10.

(** [$] without MULTILINE: the end of the text, or just before a newline
    that ends it. *)
Definition at_end (s : string) : bool :=
  match s with
  | EmptyString => true
  | String c EmptyString => Ascii.eqb c newline
  | _ => false
  end.

Fixpoint rmatch (r : regex) (i : nat) (s : string) (g : captures) (k : cont)
    : option captures :=
  match r with
  | Bol => if Nat.eqb i 0 then k i s g else None
  | Eol => if at_end s then k i s g else None
  | Cls p =>
      match s with
      | String c s' => if p c then k (S i) s' g else None
      | EmptyString => None
      end
  | Lit l =>
      match lit_match l s with
      | Some s' => k (i + String.length l) s' g
      | None => None
      end
  | Seq r1 r2 => rmatch r1 i s g (fun i' s' g' => rmatch r2 i' s' g' k)
  | Alt r1 r2 =>
      match rmatch r1 i s g k with
      | Some res => Some res
      | None => rmatch r2 i s g k
      end
  | Opt r1 =>
      match rmatch r1 i s g k with
      | Some res => Some res
      | None => k i s g
      end
  | Rep lazy min p =>
      if lazy then rep_lazy p min i s g k else rep_greedy p min i s g k
  | Grp n r1 =>
      rmatch r1 i s g
        (fun i' s' g' => k i' s' ((n, substring 0 (i' - i) s) :: g'))
  end.

(** [pattern.match(s)]: the groups of the first match anchored at 0. *)
Definition re_match (r : regex) (s : string) : option captures :=
  rmatch r 0 s [] (fun _ _ g => Some g).

(** [m.group(n)] for a group that took part in the match. *)
Definition group (m : captures) (n : string) : string :=
  match dict_get m n with Some t => t | None => EmptyString end.

(** ** Parser: [EXPR_PAT] *)

Infix ";;" := Seq (at level 61, right associativity).

Fixpoint mem_char (c : ascii) (s : string) : bool :=
  match s with
  | EmptyString => false
  | String a s' => Ascii.eqb a c || mem_char c s'
  end.

(** [[-+*/^().\w\s]] *)
Definition value_class (c : ascii) : bool :=
  mem_char c "-+*/^()." || is_word c || is_space c.

(** [[^\d\s]] *)
Definition not_digit_space (c : ascii) : bool :=
  negb (is_digit c || is_space c).

(** [[^0-9]] *)
Definition not_0_9 (c : ascii) : bool := negb (is_digit c).

(** [.] without DOTALL *)
Definition dot (c : ascii) : bool := negb (Ascii.eqb c newline).

(** r'^\s*(?:convert\s+)?(?P<value>[-+*/^().\w\s]+?)\s*(?P<from>[^\d\s][^0-9]*?)\s+(?:to|in)\s+(?P<to>.+?)\s*$'
    compiled with re.IGNORECASE *)
Definition EXPR_PAT : regex :=
  Bol ;; Rep false 0 is_space ;;
  Opt (Lit "convert" ;; Rep false 1 is_space) ;;
  Grp "value" (Rep true 1 value_class) ;;
  Rep false 0 is_space ;;
  Grp "from" (Cls not_digit_space ;; Rep true 0 not_0_9) ;;
  Rep false 1 is_space ;;
  Alt (Lit "to") (Lit "in") ;;
  Rep false 1 is_space ;;
  Grp "to" (Rep true 1 dot) ;;
  Rep false 0 is_space ;;
  Eol.

(** ** Python expression trees: the [ast] module *)

Inductive operator : Type :=
| Add | Sub | Mult | Div | Pow | Mod | FloorDiv
| OtherOperator (name : string).     (* MatMult, BitOr, BitAnd, LShift, ... *)

Inductive unaryop : Type :=
| UAdd | USub
| OtherUnaryop (name : string).      (* Not, Invert *)

Inductive constant : Type :=
| CInt (n : Z)
| CFloat (x : float)
| CBool (b : bool)
| CNone
| CStr (s : string)
| COther (what : string).            (* a complex number, bytes, Ellipsis *)

Inductive expr : Type :=
| Constant (c : constant)
| Name (id : string)
| BinOp (left : expr) (op : operator) (right : expr)
| UnaryOp (op : unaryop) (operand : expr)
| Call (func : expr) (args : list expr) (keywords : list (option string * expr))
| Tuple (elts : list expr)
| List (elts : list expr)
| Attribute (value : expr) (attr : string)
| Subscript (value : expr) (slice : expr)
| Starred (value : expr)
| OtherExpr (cls : string) (children : list expr).
    (* Compare, BoolOp, IfExp, Lambda, Dict, Set, the comprehensions, ... *)

(** What [ast.walk] yields: the [Expression] root, expressions, and the
    operator, context and keyword nodes below them. *)
Inductive node : Type :=
| NExpression (body : expr)
| NExpr (e : expr)
| NOperator (op : operator)
| NUnaryop (op : unaryop)
| NLoad
| NKeyword (arg : option string) (value : expr).

(** [ast.iter_child_nodes]: the fields of a node that are nodes, in the
    order of [_fields]. *)
Definition iter_child_nodes (n : node) : list node :=
  match n with
  | NExpression body => [NExpr body]
  | NExpr (Constant _) => []
  | NExpr (Name _) => [NLoad]
  | NExpr (BinOp l op r) => [NExpr l; NOperator op; NExpr r]
  | NExpr (UnaryOp op e) => [NUnaryop op; NExpr e]
  | NExpr (Call f args kws) =>
      NExpr f :: map NExpr args ++ map (fun kw => NKeyword (fst kw) (snd kw)) kws
  | NExpr (Tuple es) => map NExpr es ++ [NLoad]
  | NExpr (List es) => map NExpr es ++ [NLoad]
  | NExpr (Attribute e _) => [NExpr e; NLoad]
  | NExpr (Subscript e i) => [NExpr e; NExpr i; NLoad]
  | NExpr (Starred e) => [NExpr e; NLoad]
  | NExpr (OtherExpr _ es) => map NExpr es
  | NOperator _ | NUnaryop _ | NLoad => []
  | NKeyword _ v => [NExpr v]
  end.

(** The number of nodes of a tree. *)
Fixpoint expr_size (e : expr) : nat :=
  let sizes := fix sizes (es : list expr) : nat :=
    match es with
    | [] => 0
    | e :: es' => expr_size e + sizes es'
    end in
  let kw_sizes := fix kw_sizes (kws : list (option string * expr)) : nat :=
    match kws with
    | [] => 0
    | kw :: kws' => S (expr_size (snd kw)) + kw_sizes kws'
    end in
  match e with
  | Constant _ => 1
  | Name _ => 2
  | BinOp l _ r => 2 + expr_size l + expr_size r
  | UnaryOp _ e1 => 2 + expr_size e1
  | Call f args kws => 1 + expr_size f + sizes args + kw_sizes kws
  | Tuple es => 2 + sizes es
  | List es => 2 + sizes es
  | Attribute e1 _ => 2 + expr_size e1
  | Subscript e1 i => 2 + expr_size e1 + expr_size i
  | Starred e1 => 2 + expr_size e1
  | OtherExpr _ es => 1 + sizes es
  end.

Definition node_size (n : node) : nat :=
  match n with
  | NExpression body => S (expr_size body)
  | NExpr e => expr_size e
  | NOperator _ | NUnaryop _ | NLoad => 1
  | NKeyword _ v => S (expr_size v)
  end.

(** [ast.walk]: breadth first, from a queue ([todo.popleft()], then
    [todo.extend(iter_child_nodes(node))]).  [fuel] bounds the number of
    nodes yielded; [walk] gives as much as the tree has nodes. *)
Fixpoint walk_queue (fuel : nat) (todo : list node) : list node :=
  match fuel, todo with
  | S fuel', n :: todo' => n :: walk_queue fuel' (todo' ++ iter_child_nodes n)
  | _, _ => []
  end.

Definition walk (n : node) : list node := walk_queue (node_size n) [n].

(** [type(n).__name__] *)
Definition class_of (n : node) : node_class :=
  match n with
  | NExpression _ => ClsExpression
  | NExpr (Constant _) => ClsConstant
  | NExpr (Name _) => ClsName
  | NExpr (BinOp _ _ _) => ClsBinOp
  | NExpr (UnaryOp _ _) => ClsUnaryOp
  | NExpr (Call _ _ _) => ClsCall
  | NExpr (Tuple _) => ClsTuple
  | NExpr (List _) => ClsList
  | NExpr (Attribute _ _) => ClsAttribute
  | NExpr (Subscript _ _) => ClsSubscript
  | NExpr (Starred _) => ClsStarred
  | NExpr (OtherExpr cls _) => ClsOther cls
  | NOperator Add => ClsAdd
  | NOperator Sub => ClsSub
  | NOperator Mult => ClsMult
  | NOperator Div => ClsDiv
  | NOperator Pow => ClsPow
  | NOperator Mod => ClsMod
  | NOperator FloorDiv => ClsFloorDiv
  | NOperator (OtherOperator name) => ClsOther name
  | NUnaryop UAdd => ClsUAdd
  | NUnaryop USub => ClsUSub
  | NUnaryop (OtherUnaryop name) => ClsOther name
  | NLoad => ClsLoad
  | NKeyword _ _ => ClsKeyword
  end.

(** ** Safe evaluator: the two white lists of [safe_eval] *)

(** [isinstance(n, allowed_nodes)].  [ast.Num] is the old name of the
    numeric [ast.Constant]. *)
Definition allowed_nodes (c : node_class) : bool :=
  match c with
  | ClsExpression | ClsBinOp | ClsUnaryOp | ClsCall
  | ClsLoad | ClsAdd | ClsSub | ClsMult | ClsDiv | ClsPow
  | ClsUSub | ClsUAdd | ClsMod | ClsFloorDiv | ClsName | ClsConstant
  | ClsTuple | ClsList => true
  | _ => false
  end.

(** The keys of [allowed_names]. *)
Definition allowed_name_keys : list string :=
  ["pi"; "e"; "sqrt"; "sin"; "cos"; "tan"; "abs"; "round"].

Definition in_allowed_names (id : string) : bool :=
  existsb (String.eqb id) allowed_name_keys.

(** The test on a [Call]: [isinstance(n.func, ast.Name) and n.func.id in
    allowed_names]. *)
Definition call_ok (n : node) : bool :=
  match n with
  | NExpr (Call (Name id) _ _) => in_allowed_names id
  | NExpr (Call _ _ _) => false
  | _ => true
  end.

(** The loop [for n in ast.walk(node)]: the first offending node raises. *)
Fixpoint check_nodes (ns : list node) : result unit :=
  match ns with
  | [] => Ok tt
  | n :: rest =>
      if negb (allowed_nodes (class_of n)) then
        Raise (DisallowedElement (class_of n))
      else if negb (call_ok n) then Raise OnlyWhitelisted
      else check_nodes rest
  end.

(** ** Python values and their arithmetic *)

Inductive builtin : Type := Bsqrt | Bsin | Bcos | Btan | Babs | Bround.

Inductive pyval : Type :=
| VInt (n : Z)
| VFloat (x : float)
| VBool (b : bool)
| VNone
| VStr (s : string)
| VTuple (vs : list pyval)
| VList (vs : list pyval)
| VFun (f : builtin)
| VEmptyDict                         (* the value of [__builtins__] *)
| VOther (what : string).            (* a complex number, bytes, Ellipsis *)

(** What the model leaves to the interpreter and the C library: text
    beyond the arithmetic fragment that [parse_fragment] reads, the node
    kinds and operand types beyond numbers, and the functions of libm.
    Every statement below holds for whatever they do. *)
Record Runtime : Type := mkRuntime {
  rt_parse : string -> result expr;
  rt_eval : expr -> result pyval;
  rt_binop : operator -> pyval -> pyval -> result pyval;
  rt_unaryop : unaryop -> pyval -> result pyval;
  rt_call : builtin -> list pyval -> result pyval;
  rt_float : pyval -> result float;
  libm_sin : float -> float;
  libm_cos : float -> float;
  libm_tan : float -> float
}.

Local Open Scope Z_scope.

(** The binary64 number nearest to [m * 2^e], ties to even. *)
Definition float_of_scaled (m e : Z) : float :=
  SF2Prim (binary_normalize prec emax m e false).

(** The binary64 number nearest to [n / d] for [d > 0], ties to even.  The
    quotient is taken with more than a thousand extra bits, and a last bit
    records a remainder, so one rounding decides. *)
Definition round_ratio (n d : Z) : float :=
  let k := 1080 + Z.log2_up d in
  let a := Z.abs n * 2 ^ k in
  let m := 2 * (a / d) + (if a mod d =? 0 then 0 else 1) in
  float_of_scaled (if n <? 0 then - m else m) (- (k + 1)).

(** [float(n)] for an [int]. *)
Definition int_to_float (n : Z) : result float :=
  let x := float_of_scaled n 0 in
  if is_infinity x then Raise OverflowError else Ok x.

(** [a / b] for two [int]s. *)
Definition int_true_div (a b : Z) : result float :=
  if b =? 0 then Raise ZeroDivisionError
  else
    let x := round_ratio (if b <? 0 then - a else a) (Z.abs b) in
    if is_infinity x then Raise OverflowError else Ok x.

(** [round(x)] for a [float]: the nearest integer, ties to even. *)
Definition float_round (x : float) : result Z :=
  match Prim2SF x with
  | S754_nan => Raise FloatNaNToInteger
  | S754_infinity _ => Raise OverflowError
  | S754_zero _ => Ok 0
  | S754_finite s m e =>
      let v :=
        if 0 <=? e then Zpos m * 2 ^ e
        else
          let d := 2 ^ (- e) in
          let q := Zpos m / d in
          let r := Zpos m mod d in
          if 2 * r <? d then q
          else if d <? 2 * r then q + 1
          else if Z.even q then q else q + 1 in
      Ok (if s then - v else v)
  end.

Inductive number : Type := NumInt (n : Z) | NumFloat (x : float).

(** [bool] is a subclass of [int]. *)
Definition as_number (v : pyval) : option number :=
  match v with
  | VInt n => Some (NumInt n)
  | VBool b => Some (NumInt (Z.b2z b))
  | VFloat x => Some (NumFloat x)
  | _ => None
  end.

Definition number_to_float (n : number) : result float :=
  match n with
  | NumInt n => int_to_float n
  | NumFloat x => Ok x
  end.

Definition int_binop (rt : Runtime) (op : operator) (a b : Z) : result pyval :=
  match op with
  | Add => Ok (VInt (a + b))
  | Sub => Ok (VInt (a - b))
  | Mult => Ok (VInt (a * b))
  | Div => let* x := int_true_div a b in Ok (VFloat x)
  | FloorDiv => if b =? 0 then Raise ZeroDivisionError else Ok (VInt (a / b))
  | Mod => if b =? 0 then Raise ZeroDivisionError else Ok (VInt (a mod b))
  | Pow => if 0 <=? b then Ok (VInt (a ^ b)) else rt_binop rt op (VInt a) (VInt b)
  | OtherOperator _ => rt_binop rt op (VInt a) (VInt b)
  end.

Definition float_binop (rt : Runtime) (op : operator) (x y : float)
    : result pyval :=
  match op with
  | Add => Ok (VFloat (x + y))
  | Sub => Ok (VFloat (x - y))
  | Mult => Ok (VFloat (x * y))
  | Div => let* q := py_div x y in Ok (VFloat q)
  | FloorDiv | Mod =>
      if PrimFloat.eqb y 0 then Raise ZeroDivisionError
      else rt_binop rt op (VFloat x) (VFloat y)
  | Pow | OtherOperator _ => rt_binop rt op (VFloat x) (VFloat y)
  end.

(** A binary operator on two values.  Two integers stay integers (but for
    [/]); a float on either side converts the other. *)
Definition binop (rt : Runtime) (op : operator) (a b : pyval) : result pyval :=
  match as_number a, as_number b with
  | Some (NumInt m), Some (NumInt n) => int_binop rt op m n
  | Some m, Some n =>
      let* x := number_to_float m in
      let* y := number_to_float n in
      float_binop rt op x y
  | _, _ => rt_binop rt op a b
  end.

Definition unop (rt : Runtime) (op : unaryop) (a : pyval) : result pyval :=
  match op, as_number a with
  | USub, Some (NumInt n) => Ok (VInt (- n))
  | USub, Some (NumFloat x) => Ok (VFloat (- x))
  | UAdd, Some (NumInt n) => Ok (VInt n)
  | UAdd, Some (NumFloat x) => Ok (VFloat x)
  | _, _ => rt_unaryop rt op a
  end.

(** The conversion of an argument of a [math] function: a number or a
    [TypeError]. *)
Definition as_float (v : pyval) : result float :=
  match as_number v with
  | Some n => number_to_float n
  | None => Raise TypeError
  end.

(** How [math.sqrt], [math.sin], ... wrap a function of libm: a NaN out of
    a number, or an infinity out of a finite number, is a
    [ValueError]. *)
Definition math_1 (f : float -> float) (v : pyval) : result pyval :=
  let* x := as_float v in
  let r := f x in
  if is_nan r && negb (is_nan x) then Raise MathDomainError
  else if is_infinity r && is_finite x then Raise MathDomainError
  else Ok (VFloat r).

(** [math.radians] *)
Definition math_radians (v : pyval) : result pyval :=
  let* x := as_float v in Ok (VFloat (x * (math_pi / 180.0))).

(** The three entries of [allowed_names] that depend on [mode_deg]:
    [(lambda x: math.sin(math.radians(x))) if mode_deg else math.sin]. *)
Definition trig (mode_deg : bool) (f : float -> float) (v : pyval)
    : result pyval :=
  if mode_deg then let* r := math_radians v in math_1 f r else math_1 f v.

(** The call of an entry of [allowed_names] on evaluated arguments. *)
Definition call_builtin (rt : Runtime) (mode_deg : bool) (f : builtin)
    (args : list pyval) : result pyval :=
  match f, args with
  | Bsqrt, [v] => math_1 PrimFloat.sqrt v
  | Bsin, [v] => trig mode_deg (libm_sin rt) v
  | Bcos, [v] => trig mode_deg (libm_cos rt) v
  | Btan, [v] => trig mode_deg (libm_tan rt) v
  | Babs, [v] =>
      match as_number v with
      | Some (NumInt n) => Ok (VInt (Z.abs n))
      | Some (NumFloat x) => Ok (VFloat (PrimFloat.abs x))
      | None => rt_call rt f args
      end
  | Bround, [v] | Bround, [v; VNone] =>
      match as_number v with
      | Some (NumInt n) => Ok (VInt n)
      | Some (NumFloat x) => let* n := float_round x in Ok (VInt n)
      | None => rt_call rt f args
      end
  | Bround, [_; _] => rt_call rt f args
  | _, _ => Raise TypeError
  end.

(** *** [float] of a text

    The grammar of [float(s)]: white space around an optional sign and
    either [inf], [infinity], [nan], or decimal digits with an optional
    point and an optional exponent; an underscore may stand between two
    digits. *)

Definition digit_value (c : ascii) : Z := Z.of_nat (code c) - 48.

(** A run [d (_? d)*] of digits: its value, its number of digits, and what
    follows.  [acc] and [n] are the value and the count so far. *)
Fixpoint digit_run (s : string) (acc n : Z) : Z * Z * string :=
  match s with
  | String c s' =>
      if is_digit c then digit_run s' (10 * acc + digit_value c) (n + 1)
      else if Ascii.eqb c "_" && (0 <? n) then
        match s' with
        | String d s'' =>
            if is_digit d then digit_run s'' (10 * acc + digit_value d) (n + 1)
            else (acc, n, s)
        | EmptyString => (acc, n, s)
        end
      else (acc, n, s)
  | EmptyString => (acc, n, s)
  end.

(** An optional sign at the head of a text: whether it is a minus, and
    what follows. *)
Definition split_sign (t : string) : bool * string :=
  match t with
  | String c u =>
      if Ascii.eqb c "-" then (true, u)
      else if Ascii.eqb c "+" then (false, u)
      else (false, t)
  | EmptyString => (false, t)
  end.

(** The exponent part [e[+-]digits], when there is one: its value and what
    follows. [None]: an [e] that no exponent follows. *)
Definition scan_exponent (s : string) : option (Z * string) :=
  match s with
  | String c s' =>
      if Ascii.eqb (lower_char c) "e" then
        let '(neg, s1) := split_sign s' in
        let '(v, n, rest) := digit_run s1 0 0 in
        if 0 <? n then Some (if neg then - v else v, rest) else None
      else Some (0, s)
  | EmptyString => Some (0, s)
  end.

(** The decimal number [m * 10^e]. *)
Definition decimal_to_float (m e : Z) : float :=
  if 0 <=? e then round_ratio (m * 10 ^ e) 1 else round_ratio m (10 ^ (- e)).

(** An unsigned decimal: digits, an optional point, an optional exponent.
    The float, whether it had a point or an exponent, the digits before the
    point with their count, and what follows. *)
Definition scan_decimal (s : string)
    : option (float * bool * Z * Z * string) :=
  let '(ip, n1, r1) := digit_run s 0 0 in
  let '(fp, n2, has_point, r2) :=
    match r1 with
    | String c t =>
        if Ascii.eqb c "." then
          let '(fp, n2, r2) := digit_run t 0 0 in (fp, n2, true, r2)
        else (0, 0, false, r1)
    | EmptyString => (0, 0, false, r1)
    end in
  if (n1 + n2 =? 0) then None
  else
    match scan_exponent r2 with
    | None => None
    | Some (ex, r3) =>
        let has_exp := negb (String.eqb r2 r3) in
        Some (decimal_to_float (ip * 10 ^ n2 + fp) (ex - n2),
              has_point || has_exp, ip, n1, r3)
    end.

(** [float(s)] for a [str]. *)
Definition float_of_string (s : string) : result float :=
  let '(neg, u) := split_sign (strip s) in
  let signed (x : float) : float := if neg then (- x)%float else x in
  let lu := lower u in
  if String.eqb lu "inf" || String.eqb lu "infinity" then Ok (signed infinity)
  else if String.eqb lu "nan" then Ok nan
  else
    match scan_decimal u with
    | Some (x, _, _, _, EmptyString) => Ok (signed x)
    | _ => Raise (CouldNotConvert s)
    end.

(** [float(v)] for the value of an expression. *)
Definition py_float (rt : Runtime) (v : pyval) : result float :=
  match v with
  | VInt _ | VBool _ | VFloat _ => as_float v
  | VStr s => float_of_string s
  | VNone | VTuple _ | VList _ | VFun _ | VEmptyDict => Raise TypeError
  | VOther _ => rt_float rt v
  end.

Local Close Scope Z_scope.

(** ** Safe evaluator: [eval] under [allowed_names] *)

Definition value_of_constant (c : constant) : pyval :=
  match c with
  | CInt n => VInt n
  | CFloat x => VFloat x
  | CBool b => VBool b
  | CNone => VNone
  | CStr s => VStr s
  | COther what => VOther what
  end.

(** A name is looked up in the locals, [allowed_names], then in the
    globals, [{'__builtins__': {}}], then in the builtins, which are empty. *)
Definition lookup_name (id : string) : result pyval :=
  if String.eqb id "pi" then Ok (VFloat math_pi)
  else if String.eqb id "e" then Ok (VFloat math_e)
  else if String.eqb id "sqrt" then Ok (VFun Bsqrt)
  else if String.eqb id "sin" then Ok (VFun Bsin)
  else if String.eqb id "cos" then Ok (VFun Bcos)
  else if String.eqb id "tan" then Ok (VFun Btan)
  else if String.eqb id "abs" then Ok (VFun Babs)
  else if String.eqb id "round" then Ok (VFun Bround)
  else if String.eqb id "__builtins__" then Ok VEmptyDict
  else Raise (NameError id).

Section Eval.
Variable rt : Runtime.
Variable mode_deg : bool.

(** The value of a tree, operands from left to right.  The node kinds
    that the white list refuses are the interpreter's business. *)
Fixpoint eval (e : expr) : result pyval :=
  let eval_all := fix eval_all (es : list expr) : result (list pyval) :=
    match es with
    | [] => Ok []
    | e1 :: es' =>
        let* v := eval e1 in
        let* vs := eval_all es' in
        Ok (v :: vs)
    end in
  match e with
  | Constant c => Ok (value_of_constant c)
  | Name id => lookup_name id
  | BinOp l op r =>
      let* a := eval l in
      let* b := eval r in
      binop rt op a b
  | UnaryOp op e1 =>
      let* a := eval e1 in
      unop rt op a
  | Call f args [] =>
      let* fv := eval f in
      let* vs := eval_all args in
      match fv with
      | VFun b => call_builtin rt mode_deg b vs
      | _ => Raise TypeError
      end
  | Tuple es => let* vs := eval_all es in Ok (VTuple vs)
  | List es => let* vs := eval_all es in Ok (VList vs)
  | Call _ _ (_ :: _) | Attribute _ _ | Subscript _ _ | Starred _
  | OtherExpr _ _ => rt_eval rt e
  end.
End Eval.

(** ** The arithmetic fragment of Python's expression syntax

    [parse_fragment] reads the texts made of decimal numbers, names,
    [True], [False], [None], the operators [+ - * / // % **], parentheses,
    calls, tuple and list displays, attribute access and subscripts, and
    answers with the tree [ast.parse(text, mode='eval')] has below its
    [Expression] root.  On any other text it answers [None], and the text
    is the interpreter's ([rt_parse]). *)

Inductive token : Type :=
| TConst (c : constant)
| TName (id : string)
| TPlus | TMinus | TStar | TSlash | TDoubleSlash | TPercent | TDoubleStar
| TLParen | TRParen | TComma | TLBracket | TRBracket | TDot.

Definition keywords : list string :=
  ["and"; "as"; "assert"; "async"; "await"; "break"; "class"; "continue";
   "def"; "del"; "elif"; "else"; "except"; "finally"; "for"; "from";
   "global"; "if"; "import"; "in"; "is"; "lambda"; "nonlocal"; "not"; "or";
   "pass"; "raise"; "return"; "try"; "while"; "with"; "yield"].

(** The longest run of word characters at the head of a text. *)
Fixpoint word_run (s : string) : string * string :=
  match s with
  | String c s' =>
      if is_word c then let '(w, rest) := word_run s' in (String c w, rest)
      else (EmptyString, s)
  | EmptyString => (EmptyString, s)
  end.

Definition starts_with_word (s : string) : bool :=
  match s with String c _ => is_word c | EmptyString => false end.

Definition starts_with (a : ascii) (s : string) : bool :=
  match s with String c _ => Ascii.eqb c a | EmptyString => false end.

Definition string_tail (s : string) : string :=
  match s with String _ s' => s' | EmptyString => EmptyString end.

Definition starts_with_space (s : string) : bool :=
  match s with String c _ => is_space c | EmptyString => false end.

Definition starts_with_digit (s : string) : bool :=
  match s with String c _ => is_digit c | EmptyString => false end.

(** What reading a text can answer: the result, a certain [SyntaxError], or
    [Beyond]: the text is not of the fragment. *)
Inductive reading (A : Type) : Type :=
| Read (a : A)
| Invalid
| Beyond.
Arguments Read {A} a.
Arguments Invalid {A}.
Arguments Beyond {A}.

Definition starts_with_zero (s : string) : bool :=
  match s with String c _ => Ascii.eqb c "0" | EmptyString => false end.

(** A number token at the head of a text.  A decimal integer that is not
    zero has no leading zero.  A letter, a digit or an underscore right
    after the number (as in [1j] and [0x10]) makes a token this fragment
    does not read. *)
Definition scan_number (s : string) : reading (constant * string) :=
  match scan_decimal s with
  | Some (x, is_float, ip, n1, rest) =>
      if starts_with_word rest then Beyond
      else if is_float then Read (CFloat x, rest)
      else if starts_with_zero s && negb (Z.eqb ip 0) then Invalid
      else Read (CInt ip, rest)
  | None => Beyond
  end.

Fixpoint tokenize (fuel : nat) (s : string) : reading (list token) :=
  match fuel with
  | O => Beyond
  | S fuel' =>
      let op (t : token) (rest : string) :=
        match tokenize fuel' rest with
        | Read ts => Read (t :: ts)
        | other => other
        end in
      match s with
      | EmptyString => Read []
      | String c s' =>
          if Ascii.eqb c " " || Ascii.eqb c (ascii_of_nat 9) then
            tokenize fuel' s'
          else if is_digit c || (Ascii.eqb c "." && starts_with_digit s') then
            match scan_number s with
            | Read (k, rest) => op (TConst k) rest
            | Invalid => Invalid
            | Beyond => Beyond
            end
          else if is_word c then
            let '(w, rest) := word_run s in
            if String.eqb w "True" then op (TConst (CBool true)) rest
            else if String.eqb w "False" then op (TConst (CBool false)) rest
            else if String.eqb w "None" then op (TConst CNone) rest
            else if existsb (String.eqb w) keywords then Beyond
            else op (TName w) rest
          else if Ascii.eqb c "*" && starts_with "*" s' then
            op TDoubleStar (string_tail s')
          else if Ascii.eqb c "/" && starts_with "/" s' then
            op TDoubleSlash (string_tail s')
          else if Ascii.eqb c "." && starts_with "." s' then Beyond
          else if Ascii.eqb c "+" then op TPlus s'
          else if Ascii.eqb c "-" then op TMinus s'
          else if Ascii.eqb c "*" then op TStar s'
          else if Ascii.eqb c "/" then op TSlash s'
          else if Ascii.eqb c "%" then op TPercent s'
          else if Ascii.eqb c "(" then op TLParen s'
          else if Ascii.eqb c ")" then op TRParen s'
          else if Ascii.eqb c "," then op TComma s'
          else if Ascii.eqb c "[" then op TLBracket s'
          else if Ascii.eqb c "]" then op TRBracket s'
          else if Ascii.eqb c "." then op TDot s'
          else Beyond
      end
  end.

Definition parsed : Type := option (expr * list token).

(** The grammar, by recursive descent; every call spends one unit of
    [fuel].  [p_items] reads expressions separated by commas and tells
    whether it saw a comma. *)
Fixpoint p_sum (fuel : nat) (ts : list token) : parsed :=
  match fuel with
  | O => None
  | S f =>
      match p_term f ts with
      | Some (l, ts1) => p_sum_rest f l ts1
      | None => None
      end
  end
with p_sum_rest (fuel : nat) (l : expr) (ts : list token) : parsed :=
  match fuel with
  | O => None
  | S f =>
      let more (op : operator) (ts1 : list token) :=
        match p_term f ts1 with
        | Some (r, ts2) => p_sum_rest f (BinOp l op r) ts2
        | None => None
        end in
      match ts with
      | TPlus :: ts1 => more Add ts1
      | TMinus :: ts1 => more Sub ts1
      | _ => Some (l, ts)
      end
  end
with p_term (fuel : nat) (ts : list token) : parsed :=
  match fuel with
  | O => None
  | S f =>
      match p_factor f ts with
      | Some (l, ts1) => p_term_rest f l ts1
      | None => None
      end
  end
with p_term_rest (fuel : nat) (l : expr) (ts : list token) : parsed :=
  match fuel with
  | O => None
  | S f =>
      let more (op : operator) (ts1 : list token) :=
        match p_factor f ts1 with
        | Some (r, ts2) => p_term_rest f (BinOp l op r) ts2
        | None => None
        end in
      match ts with
      | TStar :: ts1 => more Mult ts1
      | TSlash :: ts1 => more Div ts1
      | TDoubleSlash :: ts1 => more FloorDiv ts1
      | TPercent :: ts1 => more Mod ts1
      | _ => Some (l, ts)
      end
  end
with p_factor (fuel : nat) (ts : list token) : parsed :=
  match fuel with
  | O => None
  | S f =>
      let signed (op : unaryop) (ts1 : list token) :=
        match p_factor f ts1 with
        | Some (e, ts2) => Some (UnaryOp op e, ts2)
        | None => None
        end in
      match ts with
      | TPlus :: ts1 => signed UAdd ts1
      | TMinus :: ts1 => signed USub ts1
      | _ => p_power f ts
      end
  end
with p_power (fuel : nat) (ts : list token) : parsed :=
  match fuel with
  | O => None
  | S f =>
      match p_atom f ts with
      | Some (a, ts1) =>
          match p_trailers f a ts1 with
          | Some (b, TDoubleStar :: ts2) =>
              match p_factor f ts2 with
              | Some (e, ts3) => Some (BinOp b Pow e, ts3)
              | None => None
              end
          | r => r
          end
      | None => None
      end
  end
with p_trailers (fuel : nat) (e : expr) (ts : list token) : parsed :=
  match fuel with
  | O => None
  | S f =>
      match ts with
      | TLParen :: TRParen :: ts1 => p_trailers f (Call e [] []) ts1
      | TLParen :: ts1 =>
          match p_items f ts1 with
          | Some (args, _, TRParen :: ts2) => p_trailers f (Call e args []) ts2
          | _ => None
          end
      | TDot :: TName a :: ts1 => p_trailers f (Attribute e a) ts1
      | TLBracket :: ts1 =>
          match p_items f ts1 with
          | Some ([i], false, TRBracket :: ts2) => p_trailers f (Subscript e i) ts2
          | Some (es, true, TRBracket :: ts2) =>
              p_trailers f (Subscript e (Tuple es)) ts2
          | _ => None
          end
      | _ => Some (e, ts)
      end
  end
with p_atom (fuel : nat) (ts : list token) : parsed :=
  match fuel with
  | O => None
  | S f =>
      match ts with
      | TConst c :: ts1 => Some (Constant c, ts1)
      | TName id :: ts1 => Some (Name id, ts1)
      | TLParen :: TRParen :: ts1 => Some (Tuple [], ts1)
      | TLParen :: ts1 =>
          match p_items f ts1 with
          | Some ([e], false, TRParen :: ts2) => Some (e, ts2)
          | Some (es, true, TRParen :: ts2) => Some (Tuple es, ts2)
          | _ => None
          end
      | TLBracket :: TRBracket :: ts1 => Some (List [], ts1)
      | TLBracket :: ts1 =>
          match p_items f ts1 with
          | Some (es, _, TRBracket :: ts2) => Some (List es, ts2)
          | _ => None
          end
      | _ => None
      end
  end
with p_items (fuel : nat) (ts : list token)
    : option (list expr * bool * list token) :=
  match fuel with
  | O => None
  | S f =>
      match p_sum f ts with
      | Some (e, TComma :: ts1) =>
          match ts1 with
          | [] | TRParen :: _ | TRBracket :: _ => Some ([e], true, ts1)
          | _ =>
              match p_items f ts1 with
              | Some (es, _, ts2) => Some (e :: es, true, ts2)
              | None => None
              end
          end
      | Some (e, ts1) => Some ([e], false, ts1)
      | None => None
      end
  end.

(** A text that begins with white space is an [IndentationError] or is
    blank, and an empty text is no expression: both are left out of the
    fragment. *)
Definition parse_fragment (text : string) : reading expr :=
  if starts_with_space text then Beyond
  else
    match tokenize (S (String.length text)) text with
    | Read ts =>
        match p_items (20 * S (List.length ts)) ts with
        | Some ([e], false, []) => Read e
        | Some (es, true, []) => Read (Tuple es)
        | _ => Beyond
        end
    | Invalid => Invalid
    | Beyond => Beyond
    end.

(** [ast.parse(text, mode='eval').body] *)
Definition ast_parse (rt : Runtime) (text : string) : result expr :=
  match parse_fragment text with
  | Read e => Ok e
  | Invalid => Raise SyntaxError
  | Beyond => rt_parse rt text
  end.

(** ** Safe evaluator: [safe_eval] *)

Definition safe_eval (rt : Runtime) (expr : string) (mode_deg : bool)
    : result pyval :=
  let expr := replace_char "^" "**" expr in
  let* body := ast_parse rt expr in
  let* _ := check_nodes (walk (NExpression body)) in
  eval rt mode_deg body.

(** ** Parser: [parse_and_convert] *)

(** [try: a  except Exception: b] *)
Definition try_except {A : Type} (a : result A) (b : result A) : result A :=
  match a with
  | Ok x => Ok x
  | Raise _ => b
  end.

(** The tuple [parse_and_convert] returns:
    [(value, from_unit, category, out_value, to_unit)]. *)
Definition conversion : Type := float * string * string * float * string.

(** The [try] statement of [parse_and_convert]:
    [value = float(safe_eval(val_expr, mode_deg=deg_mode))], and
    [value = float(val_expr)] when that raises. *)
Definition evaluate_value (rt : Runtime) (val_expr : string) (deg_mode : bool)
    : result float :=
  try_except
    (let* v := safe_eval rt val_expr deg_mode in py_float rt v)
    (float_of_string val_expr).

Definition parse_and_convert (rt : Runtime) (s : string) (deg_mode : bool)
    : result conversion :=
  match re_match EXPR_PAT s with
  | None => Raise CouldNotParse
  | Some m =>
      let val_expr := strip (group m "value") in
      let u_from := strip (group m "from") in
      let u_to := strip (group m "to") in
      (* Evaluate value expression safely *)
      let* value := evaluate_value rt val_expr deg_mode in
      (* Detect category *)
      match detect_category ureg u_from u_to with
      | None => Raise (NoCommonCategory u_from u_to)
      | Some cat =>
          if String.eqb cat "" then Raise (NoCommonCategory u_from u_to)
          else
            match get ureg cat u_from, get ureg cat u_to with
            | Some uf, Some ut =>
                let* x_base := to_base uf value in
                let* y := from_base ut x_base in
                Ok (value, name uf, cat, y, name ut)
            | _, _ => Raise UnknownUnits
            end
      end
  end.

(** ** Batch: [run_batch] of the Batch tab, and [_run_batch] of the GUI *)

(** The ASCII line boundaries of [str.splitlines]. *)
Definition is_linebreak (c : ascii) : bool :=
  between 10 13 c || between 28 30 c.

(** [str.splitlines]: a carriage return and the line feed after it are one
    boundary, and a boundary that ends the text starts no line. *)
Fixpoint splitlines (s : string) : list string :=
  match s with
  | EmptyString => []
  | String c s' =>
      if is_linebreak c then
        match s' with
        | String d s'' =>
            if Ascii.eqb c (ascii_of_nat 13) && Ascii.eqb d newline
            then EmptyString :: splitlines s''
            else EmptyString :: splitlines s'
        | EmptyString => [EmptyString]
        end
      else
        match splitlines s' with
        | [] => [String c EmptyString]
        | l :: ls => String c l :: ls
        end
  end.

(** A line of the output: f"{v:g} {uf} = {y:g} {ut}   [{cat}]" for a
    conversion, f"[error] {line}  ->  {e}" for a failure.  The fields are
    kept; the rendering of a float by [:g] is not modelled. *)
Inductive out_line : Type :=
| ResultLine (r : conversion)
| ErrorLine (line : string) (e : exn).

Definition is_error_line (o : out_line) : bool :=
  match o with ErrorLine _ _ => true | ResultLine _ => false end.

(** The body of the loop of [run_batch] for one line: [out_lines] after
    it. *)
Definition batch_step (rt : Runtime) (deg_mode : bool)
    (out_lines : list out_line) (line : string) : list out_line :=
  if String.eqb (strip line) "" then out_lines
  else
    match parse_and_convert rt line deg_mode with
    | Ok r => out_lines ++ [ResultLine r]
    | Raise e => out_lines ++ [ErrorLine line e]
    end.

(** [run_batch], on the text of the input box: the lines it writes. *)
Definition run_batch (rt : Runtime) (text : string) (deg_mode : bool)
    : list out_line :=
  let lines := splitlines (strip text) in
  fold_left (batch_step rt deg_mode) lines [].

(** [str.startswith] *)
Fixpoint startswith (s prefix : string) : bool :=
  match prefix, s with
  | EmptyString, _ => true
  | String a p', String c s' => Ascii.eqb a c && startswith s' p'
  | String _ _, EmptyString => false
  end.

(** The lines [_run_batch] of the GUI module feeds to the converter:
    [[ln.strip() for ln in text.splitlines()
      if ln.strip() and not ln.strip().startswith("#")]]. *)
Definition gui_batch_lines (text : string) : list string :=
  map strip
    (filter (fun ln => negb (String.eqb (strip ln) "")
                       && negb (startswith (strip ln) "#"))
            (splitlines text)).

(** The category list of the GUI module, [FALLBACK_CATEGORIES]. *)
Definition FALLBACK_CATEGORIES : list string :=
  ["angle";"area";"data";"energy";"frequency";"length";"mass";"power";
   "pressure";"speed";"temperature";"time";"volume"].

(** An interpreter that adds nothing to the model: whatever the model
    leaves to it raises.  It runs the closed examples. *)
Definition bare_runtime : Runtime :=
  mkRuntime (fun _ => Raise SyntaxError) (fun _ => Raise TypeError)
            (fun _ _ _ => Raise TypeError) (fun _ _ => Raise TypeError)
            (fun _ _ => Raise TypeError) (fun _ => Raise TypeError)
            (fun x => x) (fun x => x) (fun x => x).

(** * The vocabulary of the properties *)

Local Open Scope float_scope.

(** Python's [x == y] on floats, with a NaN held equal to a NaN: the two
    numbers are the same real, the same infinity, or both no number.  The
    two zeros are equal. *)
Definition same_number (x y : float) : bool :=
  (x =? y) || (is_nan x && is_nan y).

(** [abs(x - y) <= tol * abs(y)], as a test would write it. *)
Definition within_relative (tol x y : float) : bool :=
  PrimFloat.abs (x - y) <=? tol * PrimFloat.abs y.

(** The linear units of the seed table: category, canonical name, factor;
    the base unit of a category has factor 1. *)
Definition seed_units : list (string * string * float) :=
  [("length", "m", 1.0); ("length", "km", 1000.0); ("length", "cm", 0.01);
   ("length", "mm", 0.001); ("length", "μm", 1e-6); ("length", "nm", 1e-9);
   ("length", "in", 0.0254); ("length", "ft", 0.3048); ("length", "yd", 0.9144);
   ("length", "mi", 1609.344);
   ("mass", "kg", 1.0); ("mass", "g", 0.001); ("mass", "mg", 1e-6);
   ("mass", "lb", 0.45359237); ("mass", "oz", 0.028349523125);
   ("mass", "ton", 1000.0);
   ("time", "s", 1.0); ("time", "ms", 1e-3); ("time", "μs", 1e-6);
   ("time", "min", 60.0); ("time", "h", 3600.0); ("time", "day", 86400.0);
   ("speed", "m/s", 1.0); ("speed", "km/h", 1000.0 / 3600.0);
   ("speed", "mph", 1609.344 / 3600.0); ("speed", "ft/s", 0.3048);
   ("speed", "kn", 1852.0 / 3600.0);
   ("pressure", "Pa", 1.0); ("pressure", "kPa", 1000.0); ("pressure", "bar", 1e5);
   ("pressure", "mbar", 100.0); ("pressure", "atm", 101325.0);
   ("pressure", "psi", 6894.757293168);
   ("energy", "J", 1.0); ("energy", "kJ", 1000.0); ("energy", "Wh", 3600.0);
   ("energy", "kWh", 3.6e6); ("energy", "cal", 4.184); ("energy", "kcal", 4184.0);
   ("energy", "eV", 1.602176634e-19);
   ("power", "W", 1.0); ("power", "kW", 1000.0); ("power", "MW", 1e6);
   ("power", "hp", 745.6998715822702);
   ("frequency", "Hz", 1.0); ("frequency", "kHz", 1e3); ("frequency", "MHz", 1e6);
   ("frequency", "GHz", 1e9); ("frequency", "rpm", 1 / 60.0);
   ("area", "m^2", 1.0); ("area", "cm^2", 1e-4); ("area", "mm^2", 1e-6);
   ("area", "km^2", 1e6); ("area", "in^2", 0.00064516); ("area", "ft^2", 0.09290304);
   ("area", "yd^2", 0.83612736); ("area", "acre", 4046.8564224);
   ("area", "hectare", 10000.0);
   ("volume", "m^3", 1.0); ("volume", "L", 0.001); ("volume", "mL", 1e-6);
   ("volume", "cm^3", 1e-6); ("volume", "in^3", 1.6387064e-5);
   ("volume", "ft^3", 0.028316846592); ("volume", "gal", 0.003785411784);
   ("volume", "qt", 0.000946352946); ("volume", "pt", 0.000473176473);
   ("volume", "fl oz", 2.95735295625e-5);
   ("data", "B", 1.0); ("data", "KB", 1024.0); ("data", "MB", pow1024_2);
   ("data", "GB", pow1024_3); ("data", "TB", pow1024_4); ("data", "bit", 1 / 8.0);
   ("data", "Kb", 1024.0 / 8.0); ("data", "Mb", pow1024_2 / 8.0);
   ("data", "Gb", pow1024_3 / 8.0); ("data", "Tb", pow1024_4 / 8.0);
   ("angle", "rad", 1.0); ("angle", "deg", math_pi / 180.0);
   ("angle", "grad", math_pi / 200.0); ("angle", "turn", 2 * math_pi)].

(** Does the lookup of a seed unit by its canonical name give the unit of
    that name, which takes 1 to the factor of the table? *)
Definition found_by_name (entry : string * string * float) : bool :=
  let '(category, nm, factor) := entry in
  match get ureg category nm with
  | Some u =>
      String.eqb (name u) nm
      && match to_base u 1.0 with
         | Ok y => y =? factor
         | Raise _ => false
         end
  | None => false
  end.

(** The name and the image of 1 of what a lookup finds. *)
Definition found (category key : string) : option (string * result float) :=
  option_map (fun u => (name u, to_base u 1.0)) (get ureg category key).

Local Close Scope float_scope.

(** Every character of a text is of a class. *)
Fixpoint all_chars (p : ascii -> bool) (t : string) : bool :=
  match t with
  | EmptyString => true
  | String c t' => p c && all_chars p t'
  end.

(** [matches r i g t rest g']: at position [i], with the groups [g] set so
    far, [r] takes the text [t] and leaves [rest], and the groups are then
    [g']. *)
Inductive matches : regex -> nat -> captures -> string -> string -> captures -> Prop :=
| M_Bol g rest : matches Bol 0 g "" rest g
| M_Eol i g rest : at_end rest = true -> matches Eol i g "" rest g
| M_Cls p i g c rest : p c = true -> matches (Cls p) i g (String c "") rest g
| M_Lit l i g t rest :
    lit_match l (t ++ rest) = Some rest -> String.length t = String.length l ->
    matches (Lit l) i g t rest g
| M_Seq r1 r2 i g t1 t2 rest g1 g2 :
    matches r1 i g t1 (t2 ++ rest) g1 ->
    matches r2 (i + String.length t1) g1 t2 rest g2 ->
    matches (Seq r1 r2) i g (t1 ++ t2) rest g2
| M_AltL r1 r2 i g t rest g' :
    matches r1 i g t rest g' -> matches (Alt r1 r2) i g t rest g'
| M_AltR r1 r2 i g t rest g' :
    matches r2 i g t rest g' -> matches (Alt r1 r2) i g t rest g'
| M_OptSome r i g t rest g' :
    matches r i g t rest g' -> matches (Opt r) i g t rest g'
| M_OptNone r i g rest : matches (Opt r) i g "" rest g
| M_Rep lz min p i g t rest :
    all_chars p t = true -> min <= String.length t ->
    matches (Rep lz min p) i g t rest g
| M_Grp n r i g t rest g' :
    matches r i g t rest g' -> matches (Grp n r) i g t rest ((n, t) :: g').

(** The keys of a category of the seed registry, and those with a digit. *)
Definition keys_of (category : string) : list string :=
  match dict_get ureg category with
  | Some units => dict_keys units
  | None => []
  end.

Definition digit_keys_of (category : string) : list string :=
  filter (fun k => negb (all_chars not_0_9 k)) (keys_of category).

(** Does ["1 <u_from> to <u_to>"] fail to parse? *)
Definition fails_to_parse (u_from u_to : string) : bool :=
  match parse_and_convert bare_runtime ("1 " ++ u_from ++ " to " ++ u_to) false with
  | Raise CouldNotParse => true
  | _ => false
  end.

(** [m] is [n] or a node below it. *)
Inductive descendant : node -> node -> Prop :=
| desc_self n : descendant n n
| desc_child n c m :
    In c (iter_child_nodes n) -> descendant c m -> descendant n m.

Definition total_size (ns : list node) : nat := list_sum (map node_size ns).

(** The two [ValueError]s of the loop of [safe_eval]. *)
Definition refusal (e : exn) : Prop :=
  (exists c, allowed_nodes c = false /\ e = DisallowedElement c)
  \/ e = OnlyWhitelisted.

(** A node the loop refuses. *)
Definition refused (n : node) : bool :=
  negb (allowed_nodes (class_of n)) || negb (call_ok n).

(** Are both keys in the unit map of an item of the registry? *)
Definition both_in (al bl : string) (item : string * dict Unit) : bool :=
  dict_mem (snd item) al && dict_mem (snd item) bl.

(** Two unit texts that every category resolves alike: to the same unit, or
    to none. *)
Definition resolve_alike (reg : UnitRegistry) (a a' : string) : Prop :=
  Forall (fun units => dict_get units (lower a) = dict_get units (lower a'))
         (dict_values reg).

(** The record of one line. *)
Definition batch_record (rt : Runtime) (deg_mode : bool) (line : string)
    : out_line :=
  match parse_and_convert rt line deg_mode with
  | Ok r => ResultLine r
  | Raise e => ErrorLine line e
  end.

Definition not_blank (line : string) : bool :=
  negb (String.eqb (strip line) "").

(** ['\n'.join(lines)] *)
Definition join_lines (lines : list string) : string :=
  String.concat (String newline EmptyString) lines.

(** The characters of a text that [float] accepts. *)
Definition float_char (c : ascii) : bool :=
  is_word c || mem_char c ".+-".

Definition digit_or_underscore (c : ascii) : bool :=
  is_digit c || Ascii.eqb c "_".

(** The text [float] accepts, once stripped and without its sign: a name
    of infinity or of no number, or a decimal to its end. *)
Definition float_body (u : string) : Prop :=
  lower u = "inf" \/ lower u = "infinity" \/ lower u = "nan"
  \/ exists x fl ip n1, scan_decimal u = Some (x, fl, ip, n1, "").

(** The tokens of a text that [float] accepts, and its tree. *)
Definition atom_token (t : token) : Prop :=
  (exists k, t = TConst k) \/ (exists w, t = TName w).

(** ** Registries, and units that never raise *)

(** The registries that calls of [add] build. *)
Inductive registered : UnitRegistry -> Prop :=
| registered_empty : registered []
| registered_add reg category nm factor offset tb fb als :
    registered reg -> registered (add reg category nm factor offset tb fb als).

(** A unit whose two transforms return on every number, and a registry of
    such units. *)
Definition unit_total (u : Unit) : Prop :=
  forall x, (exists y, to_base u x = Ok y) /\ (exists y, from_base u x = Ok y).

Definition units_total (reg : UnitRegistry) : Prop :=
  forall category key u, get reg category key = Some u -> unit_total u.

(** Is every unit of the registry that is named [nm] in the category
    [category]? *)
Definition named_only_in (reg : UnitRegistry) (nm category : string) : bool :=
  forallb (fun item =>
             forallb (fun u => negb (String.eqb (name u) nm)
                               || String.eqb (fst item) category)
                     (dict_values (snd item)))
          reg.

(** ** The syntax of a value expression in the specification *)

(** What the specification permits in a value expression, in its words:
    numeric literals, the binary operators [+ - * / ^ % //], unary [+] and
    [-], calls of [sqrt], [sin], [cos], [tan], [abs], [round], the named
    constants [pi] and [e], and grouping, which leaves no node in the
    tree. *)
Definition spec_functions : list string :=
  ["sqrt"; "sin"; "cos"; "tan"; "abs"; "round"].

Definition spec_constants : list string := ["pi"; "e"].

Definition spec_operator (op : operator) : bool :=
  match op with
  | Add | Sub | Mult | Div | Pow | Mod | FloorDiv => true
  | OtherOperator _ => false
  end.

Fixpoint spec_permitted (e : expr) : bool :=
  let all := fix all (es : list expr) : bool :=
    match es with
    | [] => true
    | e1 :: es' => spec_permitted e1 && all es'
    end in
  match e with
  | Constant (CInt _) | Constant (CFloat _) => true
  | Name id => existsb (String.eqb id) spec_constants
  | BinOp l op r => spec_operator op && spec_permitted l && spec_permitted r
  | UnaryOp UAdd e1 | UnaryOp USub e1 => spec_permitted e1
  | Call (Name f) args [] => existsb (String.eqb f) spec_functions && all args
  | _ => false
  end.

(** ** Texts that differ in case only *)

(** A class of characters that does not tell a letter from the same letter
    in the other case. *)
Definition case_blind_class (p : ascii -> bool) : Prop :=
  forall c, p (lower_char c) = p c.

(** A pattern whose classes are all of this kind. *)
Fixpoint case_blind (r : regex) : Prop :=
  match r with
  | Bol | Eol | Lit _ => True
  | Cls p | Rep _ _ p => case_blind_class p
  | Seq r1 r2 | Alt r1 r2 => case_blind r1 /\ case_blind r2
  | Opt r1 | Grp _ r1 => case_blind r1
  end.

(** Groups of the same names whose texts differ in case only. *)
Definition same_groups (g g' : captures) : Prop :=
  Forall2 (fun x y => fst x = fst y /\ lower (snd x) = lower (snd y)) g g'.

(** Two answers of the matcher: both a match, with such groups, or both
    none. *)
Definition same_answer (a b : option captures) : Prop :=
  match a, b with
  | Some g, Some g' => same_groups g g'
  | None, None => True
  | _, _ => False
  end.

(** ** Plain phrases *)

(** The parts of [EXPR_PAT], from its end. *)
Definition pat_end : regex := Rep false 0 is_space ;; Eol.
Definition pat_to : regex := Grp "to" (Rep true 1 dot) ;; pat_end.
Definition pat_keyword : regex :=
  Rep false 1 is_space ;; Alt (Lit "to") (Lit "in") ;; Rep false 1 is_space ;;
  pat_to.
Definition pat_from : regex :=
  Rep false 0 is_space ;;
  Grp "from" (Cls not_digit_space ;; Rep true 0 not_0_9) ;; pat_keyword.
Definition pat_value : regex :=
  Grp "value" (Rep true 1 value_class) ;; pat_from.
Definition pat_convert : regex := Lit "convert" ;; Rep false 1 is_space.

(** The continuation of [re_match]: the match is complete. *)
Definition final : cont := fun _ _ g => Some g.

Definition not_space (c : ascii) : bool := negb (is_space c).

Definition is_ascii (c : ascii) : bool := Nat.ltb (code c) 128.

(** Does the text begin, and does it end, with a character of the
    class? *)
Definition first_char (p : ascii -> bool) (s : string) : bool :=
  match s with
  | String c _ => p c
  | EmptyString => false
  end.

Fixpoint last_char (p : ascii -> bool) (s : string) : bool :=
  match s with
  | EmptyString => false
  | String c EmptyString => p c
  | String _ s' => last_char p s'
  end.

(** White space only. *)
Definition blank (w : string) : bool := all_chars is_space w.

(** [to] or [in], in any case. *)
Definition is_keyword (kw : string) : bool :=
  String.eqb (lower kw) "to" || String.eqb (lower kw) "in".

(** A white space, the keyword, and a white space or the end of the
    text: here, and somewhere in the text. *)
Definition keyword_here (s : string) : bool :=
  match s with
  | String a (String b (String c rest)) =>
      is_space a && is_keyword (String b (String c EmptyString))
      && match rest with
         | EmptyString => true
         | String d _ => is_space d
         end
  | _ => false
  end.

Fixpoint has_keyword (s : string) : bool :=
  match s with
  | EmptyString => false
  | String _ s' => keyword_here s || has_keyword s'
  end.

(** A value text without white space that ends with a digit; a source
    unit text without digits that holds no keyword; a target unit text on
    one line.  None begins or ends with white space. *)
Definition plain_value (v : string) : bool :=
  all_chars value_class v && all_chars not_space v && last_char is_digit v.

Definition plain_source (u : string) : bool :=
  first_char not_digit_space u && all_chars not_0_9 u
  && last_char not_space u && negb (has_keyword u).

Definition plain_target (t : string) : bool :=
  first_char not_space t && all_chars dot t && last_char not_space t.

(** The optional beginning of an input: nothing, or [convert] in any case
    and white space. *)
Definition convert_prefix (pre : string) : Prop :=
  pre = "" \/ exists c w, pre = c ++ w /\ lower c = "convert"
                          /\ blank w = true /\ w <> "".

(** An input taken apart: white space, the optional [convert], the value
    text, the source unit text, the keyword, the target unit text, and the
    white space between and around them. *)
Record phrase : Type := mkPhrase {
  lead : string;
  opening : string;
  value_text : string;
  gap_value : string;
  source : string;
  gap_source : string;
  keyword : string;
  gap_keyword : string;
  target : string;
  trail : string
}.

Definition text (p : phrase) : string :=
  lead p ++ opening p ++ value_text p ++ gap_value p ++ source p
  ++ gap_source p ++ keyword p ++ gap_keyword p ++ target p ++ trail p.

(** A plain phrase.  The unit texts are ASCII, where the model of the
    text is exact. *)
Definition plain (p : phrase) : Prop :=
  blank (lead p) = true /\ convert_prefix (opening p)
  /\ plain_value (value_text p) = true
  /\ blank (gap_value p) = true
  /\ plain_source (source p) = true /\ all_chars is_ascii (source p) = true
  /\ blank (gap_source p) = true /\ gap_source p <> ""
  /\ is_keyword (keyword p) = true
  /\ blank (gap_keyword p) = true /\ gap_keyword p <> ""
  /\ plain_target (target p) = true /\ all_chars is_ascii (target p) = true
  /\ blank (trail p) = true.

(** Does every canonical name with a digit that [list_units] offers fail to
    parse as a source unit, whatever listed unit is the target? *)
Definition listed_digit_names_fail (category : string) : bool :=
  forallb (fun n => all_chars not_0_9 n
                    || forallb (fails_to_parse n) (list_units ureg category))
          (list_units ureg category).

(** ** Listings *)

(** In increasing order. *)
Definition increasing (l : list string) : Prop :=
  Sorted (fun a b => String.leb a b = true) l.

(** A dictionary as [add] fills it: each key once, and in lower case. *)
Definition lower_keyed {V : Type} (d : dict V) : Prop :=
  NoDup (dict_keys d) /\ Forall (fun k => lower k = k) (dict_keys d).


(** ** Matches, whatever the positions *)

(** A pattern without [^]. *)
Fixpoint no_bol (r : regex) : Prop :=
  match r with
  | Bol => False
  | Eol | Lit _ | Cls _ | Rep _ _ _ => True
  | Seq r1 r2 | Alt r1 r2 => no_bol r1 /\ no_bol r2
  | Opt r1 | Grp _ r1 => no_bol r1
  end.

(** Is the answer a match? *)
Definition succeeds (o : option captures) : bool :=
  match o with Some _ => true | None => false end.

(** ** The names that depend on [mode_deg] *)

(** Is the node the name [sin], [cos] or [tan]? *)
Definition is_trig_name (n : node) : bool :=
  match n with
  | NExpr (Name id) => existsb (String.eqb id) ["sin"; "cos"; "tan"]
  | _ => false
  end.

(** Does [ast.walk] meet one of these names in the tree? *)
Definition names_trig (body : expr) : bool :=
  existsb is_trig_name (walk (NExpression body)).

(** The values of a list of operands, from left to right: the inner loop
    of [eval]. *)
Definition eval_all (rt : Runtime) (mode_deg : bool) (es : list expr)
    : result (list pyval) :=
  (fix eval_all (es : list expr) : result (list pyval) :=
     match es with
     | [] => Ok []
     | e1 :: es' =>
         let* v := eval rt mode_deg e1 in
         let* vs := eval_all es' in
         Ok (v :: vs)
     end) es.

(** No node below the expression is refused, and none is the name of a
    trigonometric function. *)
Definition plain_tree (e : expr) : Prop :=
  forall m, descendant (NExpr e) m -> refused m = false /\ is_trig_name m = false.

(** * Properties *)

(** ** The model on known values

    The numbers are those CPython prints; the float literals of Rocq are
    read as Python reads them. *)

Example float_of_string_values :
  float_of_string "0.3048" = Ok 0.3048%float
  /\ float_of_string " -2.5e3 " = Ok (-2500)%float
  /\ float_of_string "1_000" = Ok 1000%float
  /\ float_of_string "1e400" = Ok infinity
  /\ float_of_string "5e-324" = Ok 5e-324%float
  /\ float_of_string "2e-324" = Ok 0%float
  /\ float_of_string "007" = Ok 7%float
  /\ float_of_string "1__0" = Raise (CouldNotConvert "1__0")
  /\ float_of_string "1e" = Raise (CouldNotConvert "1e")
  /\ float_of_string "" = Raise (CouldNotConvert "").
Proof. repeat split; vm_compute; reflexivity. Qed.

Example int_to_float_values :
  int_to_float 3 = Ok 3%float
  /\ int_to_float (2 ^ 53 + 1) = Ok 9007199254740992%float
  /\ int_to_float (2 ^ 1024) = Raise OverflowError
  /\ int_true_div 7 2 = Ok 3.5%float
  /\ int_true_div 1 3 = Ok 0.3333333333333333%float
  /\ int_true_div 1 0 = Raise ZeroDivisionError
  /\ float_round 2.5%float = Ok 2%Z
  /\ float_round 3.5%float = Ok 4%Z
  /\ float_round (-0.5)%float = Ok 0%Z.
Proof. repeat split; vm_compute; reflexivity. Qed.

Example re_match_values :
  re_match EXPR_PAT "convert 100 kph to mph"
  = Some [("to", "mph"); ("from", "kph"); ("value", "100")]
  /\ re_match EXPR_PAT "  5 kg IN lb  "
     = Some [("to", "lb"); ("from", "kg"); ("value", "5")]
  /\ re_match EXPR_PAT "sqrt(16) m to cm"
     = Some [("to", "cm"); ("from", ") m"); ("value", "sqrt(16")]
  /\ re_match EXPR_PAT "1 cu in to cc"
     = Some [("to", "to cc"); ("from", "cu"); ("value", "1")]
  /\ re_match EXPR_PAT "3 ft" = None.
Proof. repeat split; vm_compute; reflexivity. Qed.

Example parse_and_convert_values (rt : Runtime) (deg : bool) :
  parse_and_convert rt "5 kg in lb" deg
  = Ok (5, "kg", "mass", 11.023113109243878, "lb")%float
  /\ parse_and_convert rt "100 kph to mph" deg
     = Ok (100, "km/h", "speed", 62.1371192237334, "mph")%float
  /\ parse_and_convert rt "2.5e3 mm to m" deg
     = Ok (2500, "mm", "length", 2.5, "m")%float
  /\ parse_and_convert rt "007 ft to cm" deg
     = Ok (7, "ft", "length", 213.35999999999999, "cm")%float.
Proof. repeat split; vm_compute; reflexivity. Qed.

(** ** Dictionaries *)

Section DictFacts.
Context {V : Type}.
Implicit Types (d : dict V) (k : string) (v : V).

Lemma dict_get_set_same d k v : dict_get (dict_set d k v) k = Some v.
Proof.
  induction d as [|[k' v'] d IH]; simpl.
  - now rewrite String.eqb_refl.
  - destruct (String.eqb k' k) eqn:E; simpl; rewrite E; auto.
Qed.

Lemma dict_get_set_other d k k' v :
  k <> k' -> dict_get (dict_set d k v) k' = dict_get d k'.
Proof.
  intros Hne. induction d as [|[k0 v0] d IH]; simpl.
  - apply String.eqb_neq in Hne. now rewrite Hne.
  - destruct (String.eqb k0 k) eqn:E; simpl.
    + apply String.eqb_eq in E. subst k0.
      apply String.eqb_neq in Hne. now rewrite Hne.
    + destruct (String.eqb k0 k'); auto.
Qed.

(** Storing [v] anywhere keeps a key that already holds [v]. *)
Lemma dict_set_keeps d k k' v :
  dict_get d k' = Some v -> dict_get (dict_set d k v) k' = Some v.
Proof.
  intros H. destruct (string_dec k k') as [->|Hne].
  - apply dict_get_set_same.
  - now rewrite dict_get_set_other.
Qed.

(** The loop of [add]: after it every key of the set holds the unit. *)
Lemma fold_set_get (keys : list string) d v k :
  In k keys ->
  dict_get (fold_left (fun c a => dict_set c (lower a) v) keys d) (lower k)
  = Some v.
Proof.
  revert d. induction keys as [|a keys IH]; intros d Hin; [easy|].
  simpl. destruct Hin as [->|Hin]; [|now apply IH].
  clear IH. generalize (dict_get_set_same d (lower k) v).
  generalize (dict_set d (lower k) v). clear d.
  induction keys as [|a keys IH]; intros d H; simpl; [exact H|].
  apply IH. now apply dict_set_keeps.
Qed.

Lemma dict_mem_get d k :
  dict_mem d k = match dict_get d k with Some _ => true | None => false end.
Proof. reflexivity. Qed.

End DictFacts.

Lemma dict_get_in_values {V : Type} (d : dict V) (k : string) (v : V) :
  dict_get d k = Some v -> In v (dict_values d).
Proof.
  induction d as [|[k' v'] d IH]; simpl; [discriminate|].
  destruct (String.eqb k' k).
  - intros H. inversion H. now left.
  - intros H. right. now apply IH.
Qed.

(** ** Unit registry: what [add] registers *)

Lemma get_add (reg : UnitRegistry) (category nm : string)
    (factor : option float) (offset : float) (als : list string) (key : string) :
  In key (nm :: als) ->
  get (add reg category nm factor offset None None als) category key
  = Some (mkUnit nm (_to_base factor offset) (_from_base factor offset)
                 (alias_set nm als)).
Proof.
  intros Hin. unfold get, add. rewrite dict_get_set_same.
  apply fold_set_get. unfold alias_set. now apply nodup_In.
Qed.

(** ** Linear units and floating-point equality *)

Local Open Scope float_scope.

Lemma SFeqb_refl_or_nan (a : spec_float) : SFeqb a a = true \/ a = S754_nan.
Proof.
  destruct a as [s|s| |s m e]; [left|left|right|left]; try reflexivity;
    unfold SFeqb, SFcompare.
  - destruct s; reflexivity.
  - rewrite Z.compare_refl, Pos.compare_cont_refl. destruct s; reflexivity.
Qed.

Lemma SFeqb_zero_inv (b : spec_float) :
  SFeqb b (S754_zero false) = true -> exists s, b = S754_zero s.
Proof.
  destruct b as [s|s| |s m e]; cbn; intros H; try discriminate.
  - eauto.
  - destruct s; discriminate.
  - destruct s; discriminate.
Qed.

Lemma same_number_refl (x : float) : same_number x x = true.
Proof.
  unfold same_number, is_nan. rewrite eqb_spec.
  destruct (SFeqb_refl_or_nan (Prim2SF x)) as [E|E]; rewrite E; reflexivity.
Qed.

(** The branch [b == 0] of [_to_base]: adding and subtracting a zero changes
    at most the sign of a zero. *)
Lemma zero_offset_same (x b f : float) :
  (b =? 0) = true ->
  same_number ((x + 0.0 - 0.0 * b) * f) ((x - b) * f) = true.
Proof.
  intros Hb. unfold same_number, is_nan.
  rewrite !eqb_spec in *.
  rewrite !mul_spec, !sub_spec, !add_spec, !mul_spec.
  change (Prim2SF 0.0) with (S754_zero false) in *.
  change (Prim2SF 0) with (S754_zero false) in *.
  apply SFeqb_zero_inv in Hb. destruct Hb as [sb ->].
  destruct (Prim2SF x) as [sx|sx| |sx mx ex];
    destruct (Prim2SF f) as [sf|sf| |sf mf ef];
    destruct sb; try destruct sx; try destruct sf; try reflexivity.
  all: cbn.
  all: match goal with
       | |- context [SFeqb ?a ?a] =>
           destruct (SFeqb_refl_or_nan a) as [E|E]; rewrite E; reflexivity
       end.
Qed.

Lemma SFadd_opp (x y : spec_float) :
  SF64add x (SFopp y) = SF64sub x y.
Proof.
  unfold SF64add, SF64sub.
  destruct x as [sx|sx| |sx mx ex]; destruct y as [sy|sy| |sy my ey];
    try reflexivity;
    destruct sx; destruct sy; reflexivity.
Qed.

(** The other branch: [x + (-b)] is [x - b], bit for bit. *)
Lemma add_opp_is_sub (x b : float) : x + (- b) = x - b.
Proof.
  apply Prim2SF_inj. rewrite add_spec, opp_spec, sub_spec. apply SFadd_opp.
Qed.

Lemma _to_base_linear (f b x : float) :
  exists y, _to_base (Some f) b x = Ok y
            /\ same_number y ((x - b) * f) = true.
Proof.
  unfold _to_base. destruct (b =? 0) eqn:Hb.
  - eexists; split; [reflexivity|]. now apply zero_offset_same.
  - eexists; split; [reflexivity|]. rewrite add_opp_is_sub.
    apply same_number_refl.
Qed.

(** C7. A unit that [add] registers in linear mode, with factor [f] and
    offset [b] and no custom transform, is found under its name and under
    each alias, and for every [x] its [to_base] returns [(x - b) * f] and
    its [from_base] returns [x / f + b] as Python computes that expression
    (a [ZeroDivisionError] when [f] is zero).  Equality of the [to_base]
    result is equality of numbers: the code adds and subtracts a zero where
    the formula does not, which can change the sign of a zero result and
    nothing else.  The default offset of [add] is [0.0]. *)
Theorem linear_unit_transforms (reg : UnitRegistry) (category nm : string)
    (f b : float) (als : list string) :
  Forall
    (fun key =>
       exists u,
         get (add reg category nm (Some f) b None None als) category key = Some u
         /\ name u = nm
         /\ forall x,
              (exists y, to_base u x = Ok y
                         /\ same_number y ((x - b) * f) = true)
              /\ from_base u x = (let* q := py_div x f in Ok (q + b)))
    (nm :: als).
Proof.
  apply Forall_forall. intros key Hin.
  eexists. split; [now apply get_add|]. split; [reflexivity|].
  intros x. split; [apply _to_base_linear|reflexivity].
Qed.

(** The one case where the two sides of C7 are not the same bits: a negative
    zero comes out of [to_base] as a positive zero. *)
Example to_base_negative_zero :
  _to_base (Some 1.0) 0.0 (-0.0) = Ok 0.0
  /\ Leibniz.eqb ((-0.0 - 0.0) * 1.0) 0.0 = false
  /\ same_number 0.0 ((-0.0 - 0.0) * 1.0) = true.
Proof. repeat split; vm_compute; reflexivity. Qed.

(** ** The seed table, looked up by canonical name *)

(** C1, at the inputs where the code departs from it.  The lookup of
    [cal] in [energy] gives the unit [kcal], whose [to_base] multiplies by
    4184, and 1 cal converts to 4184 J; the lookup of [B] in [data] gives
    the unit [bit], whose [to_base] multiplies by 0.125.  The alias [Cal]
    of [kcal] and the alias [b] of [bit] fold to the keys [cal] and [b] and
    replace what was stored there.  Of the linear seed units, exactly six
    are not found under their canonical name: [cal], [B], [KB], [MB], [GB]
    and [TB]; every other one is found with the factor of the table. *)
Theorem seed_lookup_by_canonical_name :
  found "energy" "cal" = Some ("kcal", Ok 4184.0)
  /\ (forall rt, parse_and_convert rt "1 cal to J" false
                 = Ok (1.0, "kcal", "energy", 4184.0, "J"))
  /\ found "data" "B" = Some ("bit", Ok 0.125)
  /\ map (fun e => snd (fst e)) (filter (fun e => negb (found_by_name e)) seed_units)
     = ["cal"; "B"; "KB"; "MB"; "GB"; "TB"].
Proof.
  repeat split; try (intros rt); vm_compute; reflexivity.
Qed.

(** The calorie itself is still there, under its aliases. *)
Example calorie_alias_lookup :
  found "energy" "calorie" = Some ("cal", Ok 4.184)
  /\ found "energy" "small calorie" = Some ("cal", Ok 4.184).
Proof. split; vm_compute; reflexivity. Qed.

Local Close Scope float_scope.

(** ** Text *)

Ltac each_char c :=
  destruct c as [[] [] [] [] [] [] [] []]; try discriminate; try reflexivity.

Lemma append_assoc (a b c : string) : (a ++ b) ++ c = a ++ (b ++ c).
Proof. induction a; simpl; congruence. Qed.

Lemma length_append (a b : string) :
  String.length (a ++ b) = String.length a + String.length b.
Proof. induction a; simpl; congruence. Qed.

Lemma substring_prefix (t rest : string) :
  substring 0 (String.length t) (t ++ rest) = t.
Proof.
  induction t as [|c t IH]; simpl.
  - destruct rest; reflexivity.
  - now rewrite IH.
Qed.

Lemma all_chars_app p a b :
  all_chars p (a ++ b) = all_chars p a && all_chars p b.
Proof. induction a; simpl; auto. rewrite IHa. now rewrite andb_assoc. Qed.

Lemma all_chars_weaken (p q : ascii -> bool) t :
  (forall c, p c = true -> q c = true) ->
  all_chars p t = true -> all_chars q t = true.
Proof.
  intros Hpq. induction t as [|c t IH]; simpl; auto.
  intros H. apply andb_true_iff in H. destruct H as [Hc Ht].
  now rewrite (Hpq c Hc), IH.
Qed.

Lemma all_chars_lstrip (p : ascii -> bool) (s : string) :
  all_chars p s = true -> all_chars p (lstrip s) = true.
Proof.
  induction s as [|c s IH]; simpl; auto.
  intros H. apply andb_true_iff in H. destruct H as [Hc Hs].
  destruct (is_space c); auto. simpl. now rewrite Hc, Hs.
Qed.

Lemma all_chars_rstrip (p : ascii -> bool) (s : string) :
  all_chars p s = true -> all_chars p (rstrip s) = true.
Proof.
  induction s as [|c s IH]; simpl; auto.
  intros H. apply andb_true_iff in H. destruct H as [Hc Hs].
  specialize (IH Hs). destruct (rstrip s) as [|d t].
  - destruct (is_space c); simpl; auto. now rewrite Hc.
  - simpl in *. now rewrite Hc, IH.
Qed.

Lemma all_chars_strip (p : ascii -> bool) (s : string) :
  all_chars p s = true -> all_chars p (strip s) = true.
Proof. intros H. now apply all_chars_rstrip, all_chars_lstrip. Qed.

Lemma starts_with_space_lstrip s : starts_with_space (lstrip s) = false.
Proof.
  induction s as [|c s IH]; simpl; auto.
  destruct (is_space c) eqn:E; auto.
Qed.

Lemma lstrip_id s : starts_with_space s = false -> lstrip s = s.
Proof. destruct s as [|c s]; simpl; auto. now intros ->. Qed.

Lemma starts_with_space_rstrip s :
  starts_with_space s = false -> starts_with_space (rstrip s) = false.
Proof.
  destruct s as [|c s]; simpl; auto. intros E.
  destruct (rstrip s); simpl; rewrite ?E; auto.
Qed.

Lemma rstrip_idem s : rstrip (rstrip s) = rstrip s.
Proof.
  induction s as [|c s IH]; simpl; auto.
  destruct (rstrip s) as [|d t] eqn:E.
  - destruct (is_space c) eqn:Ec; simpl; auto. now rewrite Ec.
  - change (rstrip (String c (String d t))) with
      (match rstrip (String d t) with
       | EmptyString => if is_space c then EmptyString else String c EmptyString
       | t' => String c t'
       end).
    now rewrite IH.
Qed.

Lemma starts_with_space_strip s : starts_with_space (strip s) = false.
Proof. apply starts_with_space_rstrip, starts_with_space_lstrip. Qed.

Lemma strip_idem s : strip (strip s) = strip s.
Proof.
  unfold strip at 1. rewrite (lstrip_id (strip s) (starts_with_space_strip s)).
  unfold strip. apply rstrip_idem.
Qed.

(** ** The pattern and its groups *)

Lemma lit_match_split (l s rest : string) :
  lit_match l s = Some rest ->
  exists t, s = t ++ rest /\ String.length t = String.length l.
Proof.
  revert s. induction l as [|a l IH]; intros s H; simpl in H.
  - inversion H. now exists "".
  - destruct s as [|c s]; [discriminate|].
    destruct (Ascii.eqb (lower_char a) (lower_char c)); [|discriminate].
    destruct (IH _ H) as (t & -> & Hlen). exists (String c t). simpl. auto.
Qed.

Lemma rep_greedy_sound p min i s g k res :
  rep_greedy p min i s g k = Some res ->
  exists t rest, s = t ++ rest /\ all_chars p t = true /\ min <= String.length t
                 /\ k (i + String.length t) rest g = Some res.
Proof.
  revert min i. induction s as [|c s IH]; intros min i H; simpl in H.
  - destruct (Nat.eqb min 0) eqn:E; [|discriminate]. apply Nat.eqb_eq in E.
    exists "", "". simpl. rewrite Nat.add_0_r. repeat split; auto. lia.
  - assert (Hstop : (if Nat.eqb min 0 then k i (String c s) g else None) = Some res ->
       exists t rest, String c s = t ++ rest /\ all_chars p t = true /\ min <= String.length t
                 /\ k (i + String.length t) rest g = Some res).
    { destruct (Nat.eqb min 0) eqn:E; [|discriminate]. apply Nat.eqb_eq in E.
      intros Hk. exists "", (String c s). simpl. rewrite Nat.add_0_r.
      repeat split; auto. lia. }
    destruct (p c) eqn:Hp; [|auto].
    destruct (rep_greedy p (Nat.pred min) (S i) s g k) eqn:Hr; [|auto].
    inversion H; subst. destruct (IH _ _ Hr) as (t & rest & -> & Hall & Hmin & Hk).
    exists (String c t), rest. simpl. rewrite Hp, Hall.
    replace (i + S (String.length t)) with (S i + String.length t) by lia.
    repeat split; auto. lia.
Qed.

Lemma rep_lazy_sound p min i s g k res :
  rep_lazy p min i s g k = Some res ->
  exists t rest, s = t ++ rest /\ all_chars p t = true /\ min <= String.length t
                 /\ k (i + String.length t) rest g = Some res.
Proof.
  revert min i. induction s as [|c s IH]; intros min i H.
  - destruct min; simpl in H; [|discriminate].
    destruct (k i "" g) eqn:Hk; [|discriminate]. inversion H; subst.
    exists "", "". simpl. rewrite Nat.add_0_r. repeat split; auto.
  - assert (Hmore : (if p c then rep_lazy p (Nat.pred min) (S i) s g k else None) = Some res ->
       exists t rest, String c s = t ++ rest /\ all_chars p t = true /\ min <= String.length t
                 /\ k (i + String.length t) rest g = Some res).
    { destruct (p c) eqn:Hp; [|discriminate]. intros Hr.
      destruct (IH _ _ Hr) as (t & rest & -> & Hall & Hmin & Hk).
      exists (String c t), rest. simpl. rewrite Hp, Hall.
      replace (i + S (String.length t)) with (S i + String.length t) by lia.
      repeat split; auto. lia. }
    destruct min; simpl in H.
    + destruct (k i (String c s) g) eqn:Hk.
      * inversion H; subst. exists "", (String c s). simpl. rewrite Nat.add_0_r.
        repeat split; auto.
      * apply Hmore. exact H.
    + apply Hmore. exact H.
Qed.

(** Whatever the matcher answers is a match: it took some text [t] by the
    rules above and the continuation accepted what was left. *)
Lemma rmatch_sound r : forall i s g k res,
  rmatch r i s g k = Some res ->
  exists t rest g', s = t ++ rest /\ matches r i g t rest g'
                    /\ k (i + String.length t) rest g' = Some res.
Proof.
  induction r; intros i s g k res H; simpl in H.
  - destruct (Nat.eqb i 0) eqn:E; [|discriminate]. apply Nat.eqb_eq in E. subst.
    exists "", s, g. repeat split; auto. constructor.
  - destruct (at_end s) eqn:E; [|discriminate].
    exists "", s, g. simpl. rewrite Nat.add_0_r. repeat split; auto. now constructor.
  - destruct s as [|c s]; [discriminate|]. destruct (p c) eqn:Hp; [|discriminate].
    exists (String c ""), s, g. simpl. replace (i + 1) with (S i) by lia.
    repeat split; auto. now constructor.
  - destruct (lit_match l s) as [s'|] eqn:Hl; [|discriminate].
    destruct (lit_match_split _ _ _ Hl) as (t & -> & Hlen).
    exists t, s', g. rewrite Hlen. repeat split; auto. now constructor.
  - apply IHr1 in H. destruct H as (t1 & rest1 & g1 & -> & M1 & H).
    apply IHr2 in H. destruct H as (t2 & rest & g2 & -> & M2 & H).
    exists (t1 ++ t2), rest, g2. rewrite append_assoc, length_append, Nat.add_assoc.
    repeat split; auto. econstructor; eauto.
  - destruct (rmatch r1 i s g k) eqn:H1.
    + inversion H; subst. apply IHr1 in H1. destruct H1 as (t & rest & g' & -> & M & Hk).
      exists t, rest, g'. repeat split; auto. now apply M_AltL.
    + apply IHr2 in H. destruct H as (t & rest & g' & -> & M & Hk).
      exists t, rest, g'. repeat split; auto. now apply M_AltR.
  - destruct (rmatch r i s g k) eqn:H1.
    + inversion H; subst. apply IHr in H1. destruct H1 as (t & rest & g' & -> & M & Hk).
      exists t, rest, g'. repeat split; auto. now apply M_OptSome.
    + exists "", s, g. simpl. rewrite Nat.add_0_r. repeat split; auto. apply M_OptNone.
  - assert (exists t rest, s = t ++ rest /\ all_chars p t = true /\ min <= String.length t
                 /\ k (i + String.length t) rest g = Some res) as (t & rest & -> & Hall & Hmin & Hk).
    { destruct lazy; [now apply rep_lazy_sound|now apply rep_greedy_sound]. }
    exists t, rest, g. repeat split; auto. now constructor.
  - apply IHr in H. destruct H as (t & rest & g' & -> & M & Hk).
    exists t, rest, ((n, t) :: g'). repeat split; auto.
    + now constructor.
    + replace (i + String.length t - i) with (String.length t) in Hk by lia.
      now rewrite substring_prefix in Hk.
Qed.

Ltac inv_matches :=
  repeat match goal with
  | H : matches (Seq _ _) _ _ _ _ _ |- _ => inversion H; clear H; subst
  | H : matches (Grp _ _) _ _ _ _ _ |- _ => inversion H; clear H; subst
  | H : matches (Opt _) _ _ _ _ _ |- _ => inversion H; clear H; subst
  | H : matches (Alt _ _) _ _ _ _ _ |- _ => inversion H; clear H; subst
  | H : matches (Rep _ _ _) _ _ _ _ _ |- _ => inversion H; clear H; subst
  | H : matches (Cls _) _ _ _ _ _ |- _ => inversion H; clear H; subst
  | H : matches (Lit _) _ _ _ _ _ |- _ => inversion H; clear H; subst
  | H : matches Bol _ _ _ _ _ |- _ => inversion H; clear H; subst
  | H : matches Eol _ _ _ _ _ |- _ => inversion H; clear H; subst
  end.

(** The groups of a match of [EXPR_PAT], and what their texts are made
    of. *)
Lemma expr_pat_groups (s : string) (m : captures) :
  re_match EXPR_PAT s = Some m ->
  exists v c f t,
    m = [("to", t); ("from", String c f); ("value", v)]
    /\ all_chars value_class v = true /\ 1 <= String.length v
    /\ not_digit_space c = true /\ all_chars not_0_9 f = true
    /\ all_chars dot t = true /\ 1 <= String.length t.
Proof.
  unfold re_match. intros H. apply rmatch_sound in H.
  destruct H as (t & rest & g' & -> & M & Hk). inversion Hk; subst; clear Hk.
  unfold EXPR_PAT in M. inv_matches.
  all: do 4 eexists; split; [reflexivity|]; simpl; auto 10.
Qed.

Lemma not_digit_space_not_digit (c : ascii) :
  not_digit_space c = true -> not_0_9 c = true.
Proof.
  unfold not_digit_space, not_0_9. destruct (is_digit c); auto.
Qed.

(** A parse that succeeds went through a match of the pattern. *)
Lemma parse_and_convert_matched rt s deg r :
  parse_and_convert rt s deg = Ok r ->
  exists m, re_match EXPR_PAT s = Some m.
Proof.
  unfold parse_and_convert. destruct (re_match EXPR_PAT s); [eauto|discriminate].
Qed.

(** ** Source units with a digit *)

(** C10. In every input that the pattern matches, and so in every input
    that [parse_and_convert] converts, the text of the group [from] has no
    digit [0-9], before and after [strip].  An expression whose source unit
    has a digit therefore does not get through the pattern with that unit:
    [parse_and_convert("1 m^2 to ft^2")] raises the parse error, though
    [m^2] and [ft^2] are units of [area]; and so does ["1 u to v"] for
    every key [u] of the registry that has a digit and every key [v] of
    the category of [u]. *)
Theorem from_unit_has_no_digit :
  (forall s m,
     re_match EXPR_PAT s = Some m ->
     all_chars not_0_9 (group m "from") = true
     /\ all_chars not_0_9 (strip (group m "from")) = true)
  /\ (forall rt s deg r,
        parse_and_convert rt s deg = Ok r ->
        exists m, re_match EXPR_PAT s = Some m
                  /\ all_chars not_0_9 (strip (group m "from")) = true)
  /\ (forall rt, parse_and_convert rt "1 m^2 to ft^2" false = Raise CouldNotParse)
  /\ kind_of CouldNotParse = ParseError
  /\ option_map name (get ureg "area" "m^2") = Some "m^2"
  /\ option_map name (get ureg "area" "ft^2") = Some "ft^2"
  /\ forallb (fun category =>
                forallb (fun u => forallb (fails_to_parse u) (keys_of category))
                        (digit_keys_of category))
             (dict_keys ureg) = true.
Proof.
  assert (Hfrom : forall s m,
     re_match EXPR_PAT s = Some m ->
     all_chars not_0_9 (group m "from") = true
     /\ all_chars not_0_9 (strip (group m "from")) = true).
  { intros s m H.
    destruct (expr_pat_groups s m H) as (v & c & f & t & -> & _ & _ & Hc & Hf & _).
    assert (all_chars not_0_9 (String c f) = true) as Hall.
    { simpl. now rewrite (not_digit_space_not_digit c Hc), Hf. }
    split; [exact Hall|]. apply all_chars_strip. exact Hall. }
  split; [exact Hfrom|]. split.
  { intros rt s deg r H. destruct (parse_and_convert_matched _ _ _ _ H) as [m Hm].
    exists m. split; [exact Hm|]. now apply Hfrom in Hm. }
  split; [intros rt; vm_compute; reflexivity|].
  repeat split; vm_compute; reflexivity.
Qed.

(** The first part of C10 at the input ["3 ft to cm"]. *)
Lemma from_unit_has_no_digit_witness :
  all_chars not_0_9 (group [("to", "cm"); ("from", "ft"); ("value", "3")] "from")
  = true
  /\ all_chars not_0_9
       (strip (group [("to", "cm"); ("from", "ft"); ("value", "3")] "from"))
     = true.
Proof.
  apply (proj1 from_unit_has_no_digit "3 ft to cm").
  vm_compute. reflexivity.
Defined.

(** ** Safe evaluator: the walk reaches every node *)

Lemma total_size_app (a b : list node) :
  total_size (a ++ b) = total_size a + total_size b.
Proof. unfold total_size. now rewrite map_app, list_sum_app. Qed.

Lemma sizes_exprs (es : list expr) :
  total_size (map NExpr es)
  = (fix sizes (es : list expr) : nat :=
       match es with [] => 0 | e :: es' => expr_size e + sizes es' end) es.
Proof. induction es as [|e es IH]; simpl; auto. unfold total_size in *. simpl. now rewrite IH. Qed.

Lemma sizes_keywords (kws : list (option string * expr)) :
  total_size (map (fun kw => NKeyword (fst kw) (snd kw)) kws)
  = (fix kw_sizes (kws : list (option string * expr)) : nat :=
       match kws with [] => 0 | kw :: kws' => S (expr_size (snd kw)) + kw_sizes kws' end) kws.
Proof. induction kws as [|e es IH]; simpl; auto. unfold total_size in *. simpl. now rewrite IH. Qed.

Lemma node_size_children (n : node) :
  node_size n = S (total_size (iter_child_nodes n)).
Proof.
  destruct n as [body|e|op|op| |arg v]; try reflexivity.
  - simpl. unfold total_size. simpl. lia.
  - destruct e; cbn [iter_child_nodes]; 
    repeat match goal with
    | |- context [total_size (?a :: ?b)] => change (total_size (a :: b)) with (node_size a + total_size b)
    | |- context [total_size []] => change (total_size []) with 0
    end; rewrite ?total_size_app, ?sizes_exprs, ?sizes_keywords.
    all: repeat match goal with
    | |- context [total_size (?a :: ?b)] => change (total_size (a :: b)) with (node_size a + total_size b)
    | |- context [total_size []] => change (total_size (@nil node)) with 0
    end. all: simpl; lia.
  - simpl. unfold total_size. simpl. lia.
Qed.

Lemma node_size_pos (n : node) : 1 <= node_size n.
Proof. rewrite node_size_children. lia. Qed.

Lemma total_size_In (n : node) (ns : list node) :
  In n ns -> node_size n <= total_size ns.
Proof.
  induction ns as [|a ns IH]; [easy|]. intros [->|H]; unfold total_size in *; simpl.
  - lia.
  - specialize (IH H). lia.
Qed.

(** The queue walk yields every node below a node of the queue, when the
    fuel covers the nodes there are. *)
Lemma walk_queue_complete (fuel : nat) : forall todo n m,
  total_size todo <= fuel -> In n todo -> descendant n m ->
  In m (walk_queue fuel todo).
Proof.
  induction fuel as [|fuel IH]; intros todo n m Hsize Hin Hdesc.
  - pose proof (total_size_In _ _ Hin). pose proof (node_size_pos n). lia.
  - destruct todo as [|n0 todo]; [easy|]. simpl.
    assert (Hfuel : total_size (todo ++ iter_child_nodes n0) <= fuel).
    { rewrite total_size_app. unfold total_size in Hsize. simpl in Hsize.
      rewrite node_size_children in Hsize. fold (total_size todo) in Hsize. lia. }
    destruct Hin as [->|Hin].
    + destruct Hdesc as [n|n c m Hc Hd]; [now left|].
      right. apply (IH _ c m Hfuel); auto. apply in_or_app. now right.
    + right. apply (IH _ n m Hfuel); auto. apply in_or_app. now left.
Qed.

Lemma walk_complete (n m : node) : descendant n m -> In m (walk n).
Proof.
  intros H. unfold walk. apply (walk_queue_complete _ [n] n m); auto.
  - unfold total_size. simpl. lia.
  - now left.
Qed.

Lemma check_nodes_refuses (ns : list node) (n : node) :
  In n ns -> refused n = true ->
  exists e, check_nodes ns = Raise e /\ refusal e.
Proof.
  induction ns as [|a ns IH]; [easy|]. intros Hin Hbad. simpl.
  destruct (allowed_nodes (class_of a)) eqn:Ha; simpl.
  - destruct (call_ok a) eqn:Hc; simpl.
    + destruct Hin as [->|Hin]; [|now apply IH].
      unfold refused in Hbad. rewrite Ha, Hc in Hbad. discriminate.
    + eexists. split; [reflexivity|]. now right.
  - eexists. split; [reflexivity|]. left. eauto.
Qed.

Lemma check_nodes_ok (ns : list node) :
  check_nodes ns = Ok tt <-> forallb (fun n => negb (refused n)) ns = true.
Proof.
  induction ns as [|a ns IH]; simpl; [easy|]. unfold refused at 1.
  destruct (allowed_nodes (class_of a)); simpl; [|easy].
  destruct (call_ok a); simpl; [exact IH|easy].
Qed.

(** C2, as the code has it.  When the tree of a value expression has,
    anywhere in it, a node whose class is not on the white list
    [allowed_nodes], or a call whose callee is not a name of
    [allowed_names], [safe_eval] raises one of its two [ValueError]s, an
    error of evaluation, and the error is fixed by the tree alone: the
    interpreter is not asked to evaluate anything ([rt_eval], [rt_binop] and
    [rt_call] have no part in the answer).  The white list is [Expression],
    [BinOp], [UnaryOp], [Call], [Constant], [Name], [Load], the operators
    [+ - * / ** % //], unary [+] and [-], and also [Tuple] and [List]:
    attribute access, subscripts, keyword and starred arguments,
    comparisons, lambdas and the like are refused, tuple and list displays
    are not. *)
Theorem safe_eval_refuses (text : string) (body : expr) (n : node) :
  descendant (NExpression body) n -> refused n = true ->
  exists e, refusal e /\ kind_of e = EvalError
    /\ forall rt deg,
         ast_parse rt (replace_char "^" "**" text) = Ok body ->
         safe_eval rt text deg = Raise e.
Proof.
  intros Hdesc Hbad.
  destruct (check_nodes_refuses (walk (NExpression body)) n) as (e & He & Hr);
    auto using walk_complete.
  exists e. split; [exact Hr|]. split.
  - destruct Hr as [(c & _ & ->)| ->]; reflexivity.
  - intros rt deg Hp. unfold safe_eval, bind. now rewrite Hp, He.
Qed.

(** The hypotheses of [safe_eval_refuses] at the text [pi.real]: the
    attribute access is refused. *)
Lemma safe_eval_refuses_witness :
  exists e, refusal e /\ kind_of e = EvalError
    /\ forall rt deg,
         ast_parse rt (replace_char "^" "**" "pi.real")
         = Ok (Attribute (Name "pi") "real") ->
         safe_eval rt "pi.real" deg = Raise e.
Proof.
  apply (safe_eval_refuses "pi.real" (Attribute (Name "pi") "real")
                           (NExpr (Attribute (Name "pi") "real"))).
  - apply (desc_child _ (NExpr (Attribute (Name "pi") "real"))).
    + simpl. now left.
    + apply desc_self.
  - reflexivity.
Defined.

(** Refused and accepted texts, whatever the interpreter. *)
Example safe_eval_examples (rt : Runtime) (deg : bool) :
  safe_eval rt "pi.real" deg = Raise (DisallowedElement ClsAttribute)
  /\ safe_eval rt "x[1]" deg = Raise (DisallowedElement ClsSubscript)
  /\ safe_eval rt "foo(1)" deg = Raise OnlyWhitelisted
  /\ safe_eval rt "(2).bit_length()" deg = Raise OnlyWhitelisted
  /\ safe_eval rt "_" deg = Raise (NameError "_")
  /\ safe_eval rt "2^3" deg = Ok (VInt 8)
  /\ safe_eval rt "sqrt(16)*2" deg = Ok (VFloat 8)
  /\ safe_eval rt "True*1" deg = Ok (VInt 1).
Proof. repeat split; vm_compute; reflexivity. Qed.

(** C2 as stated fails: a tuple display and a list display are not
    refused; they are evaluated, and [safe_eval] returns the tuple and the
    list. *)
Lemma safe_eval_accepts_displays :
  (forall rt deg, safe_eval rt "(1, 2)" deg = Ok (VTuple [VInt 1; VInt 2]))
  /\ (forall rt deg, safe_eval rt "[1, 2]" deg = Ok (VList [VInt 1; VInt 2])).
Proof. split; intros rt deg; vm_compute; reflexivity. Qed.

(** ** The texts that [float] reads *)

(** [digit_run] takes digits and underscores only. *)
Lemma digit_run_consumes (len : nat) : forall s acc n v n' rest,
  String.length s <= len ->
  digit_run s acc n = (v, n', rest) ->
  exists pre, s = pre ++ rest /\ all_chars digit_or_underscore pre = true.
Proof.
  induction len as [|len IH]; intros s acc n v n' rest Hlen H.
  - destruct s; [|simpl in Hlen; lia]. simpl in H. inversion H. now exists "".
  - destruct s as [|c s]; simpl in H.
    + inversion H. now exists "".
    + simpl in Hlen. destruct (is_digit c) eqn:Hd.
      * apply IH in H; [|lia]. destruct H as (pre & -> & Hp).
        exists (String c pre). simpl. unfold digit_or_underscore at 1.
        now rewrite Hd, Hp.
      * destruct (Ascii.eqb c "_" && (0 <? n)%Z) eqn:Hu;
          [|inversion H; now exists ""].
        destruct s as [|d s]; [inversion H; now exists ""|].
        destruct (is_digit d) eqn:Hd'; [|inversion H; now exists ""].
        simpl in Hlen. apply IH in H; [|lia]. destruct H as (pre & -> & Hp).
        exists (String c (String d pre)). simpl.
        unfold digit_or_underscore at 1 2.
        apply andb_true_iff in Hu. destruct Hu as [Hu _].
        now rewrite Hu, Hd', Hp, !orb_true_r.
Qed.

Lemma digit_run_chars s acc n v n' rest :
  digit_run s acc n = (v, n', rest) ->
  exists pre, s = pre ++ rest /\ all_chars float_char pre = true.
Proof.
  intros H. destruct (digit_run_consumes _ s acc n v n' rest (le_n _) H)
    as (pre & -> & Hp).
  exists pre. split; auto. revert Hp. apply all_chars_weaken.
  intros c. unfold digit_or_underscore, float_char. each_char c.
Qed.

(** A text that does not begin with a digit gives [digit_run] nothing. *)
Lemma digit_run_none s acc :
  starts_with_digit s = false -> digit_run s acc 0 = (acc, 0%Z, s).
Proof.
  destruct s as [|c s]; simpl; auto. intros ->. now rewrite andb_false_r.
Qed.

Lemma split_sign_chars s neg u :
  split_sign s = (neg, u) ->
  exists pre, s = pre ++ u /\ all_chars float_char pre = true.
Proof.
  destruct s as [|c s]; simpl.
  - intros H. inversion H. now exists "".
  - destruct (Ascii.eqb c "-") eqn:E1.
    + apply Ascii.eqb_eq in E1. subst. intros H. inversion H. now exists "-".
    + destruct (Ascii.eqb c "+") eqn:E2.
      * apply Ascii.eqb_eq in E2. subst. intros H. inversion H. now exists "+".
      * intros H. inversion H. now exists "".
Qed.

Lemma scan_exponent_chars s v rest :
  scan_exponent s = Some (v, rest) ->
  exists pre, s = pre ++ rest /\ all_chars float_char pre = true.
Proof.
  destruct s as [|c s]; simpl.
  - intros H. inversion H. now exists "".
  - destruct (Ascii.eqb (lower_char c) "e") eqn:E.
    + destruct (split_sign s) as [neg s1] eqn:Hs.
      destruct (digit_run s1 0 0) as [[v' n] r] eqn:Hd.
      destruct (0 <? n)%Z; [|discriminate]. intros H. inversion H; subst.
      destruct (split_sign_chars _ _ _ Hs) as (p1 & -> & Hp1).
      destruct (digit_run_chars _ _ _ _ _ _ Hd) as (p2 & -> & Hp2).
      exists (String c (p1 ++ p2)). simpl. rewrite all_chars_app, Hp1, Hp2.
      rewrite append_assoc. split; auto.
      assert (float_char c = true) as ->; auto.
      revert E. clear. each_char c.
    + intros H. inversion H. now exists "".
Qed.

Lemma scan_decimal_chars s x fl ip n1 rest :
  scan_decimal s = Some (x, fl, ip, n1, rest) ->
  exists pre, s = pre ++ rest /\ all_chars float_char pre = true.
Proof.
  unfold scan_decimal.
  destruct (digit_run s 0 0) as [[ip' n1'] r1] eqn:H1.
  destruct (digit_run_chars _ _ _ _ _ _ H1) as (p1 & -> & Hp1).
  assert (Hpoint : forall fp n2 hp r2,
    match r1 with
    | String c t =>
        if Ascii.eqb c "." then
          let '(fp, n2, r2) := digit_run t 0 0 in (fp, n2, true, r2)
        else (0%Z, 0%Z, false, r1)
    | EmptyString => (0%Z, 0%Z, false, r1)
    end = (fp, n2, hp, r2) ->
    exists p2, r1 = p2 ++ r2 /\ all_chars float_char p2 = true).
  { intros fp n2 hp r2. destruct r1 as [|c t].
    - intros H. inversion H. now exists "".
    - destruct (Ascii.eqb c ".") eqn:E.
      + apply Ascii.eqb_eq in E. subst.
        destruct (digit_run t 0 0) as [[a b] r] eqn:H2. intros H. inversion H; subst.
        destruct (digit_run_chars _ _ _ _ _ _ H2) as (p & -> & Hp).
        exists (String "." p). simpl. now rewrite Hp.
      + intros H. inversion H. now exists "". }
  destruct (match r1 with String c t => _ | EmptyString => _ end)
    as [[[fp n2] hp] r2] eqn:H2.
  destruct (Hpoint _ _ _ _ eq_refl) as (p2 & -> & Hp2).
  destruct (n1' + n2 =? 0)%Z; [discriminate|].
  destruct (scan_exponent r2) as [[ex r3]|] eqn:H3; [|discriminate].
  intros H. inversion H; subst.
  destruct (scan_exponent_chars _ _ _ H3) as (p3 & -> & Hp3).
  exists (p1 ++ p2 ++ p3). rewrite !all_chars_app, Hp1, Hp2, Hp3.
  rewrite !append_assoc. auto.
Qed.

Lemma replace_caret_float_text t :
  all_chars float_char t = true -> replace_char "^" "**" t = t.
Proof.
  induction t as [|c t IH]; simpl; auto. intros H.
  apply andb_true_iff in H. destruct H as [Hc Ht]. rewrite (IH Ht).
  destruct (Ascii.eqb c "^") eqn:E; auto.
  apply Ascii.eqb_eq in E. subst. discriminate.
Qed.

(** The only error of [float_of_string]. *)
Lemma float_of_string_error s e :
  float_of_string s = Raise e -> e = CouldNotConvert s.
Proof.
  unfold float_of_string. destruct (split_sign (strip s)) as [neg u].
  destruct (_ || _); [discriminate|]. destruct (String.eqb _ "nan"); [discriminate|].
  destruct (scan_decimal u) as [[[[[x fl] ip] n1] [|c r]]|]; try discriminate;
    intros H; now inversion H.
Qed.

Lemma float_of_string_body s x :
  float_of_string s = Ok x ->
  exists neg u, split_sign (strip s) = (neg, u) /\ float_body u.
Proof.
  unfold float_of_string. destruct (split_sign (strip s)) as [neg u].
  intros H. exists neg, u. split; auto. unfold float_body.
  destruct (String.eqb (lower u) "inf") eqn:E1;
    [apply String.eqb_eq in E1; auto|].
  destruct (String.eqb (lower u) "infinity") eqn:E2;
    [apply String.eqb_eq in E2; auto|].
  destruct (String.eqb (lower u) "nan") eqn:E3;
    [apply String.eqb_eq in E3; auto|].
  simpl in H. do 3 right.
  destruct (scan_decimal u) as [[[[[y fl] ip] n1] [|c r]]|]; try discriminate.
  now exists y, fl, ip, n1.
Qed.

Lemma is_alpha_lower c : is_alpha (lower_char c) = true -> is_alpha c = true.
Proof. each_char c. Qed.

Lemma all_alpha_lower u :
  all_chars is_alpha (lower u) = true -> all_chars is_alpha u = true.
Proof.
  induction u as [|c u IH]; simpl; auto. intros H.
  apply andb_true_iff in H. destruct H as [Hc Hu].
  now rewrite (is_alpha_lower c Hc), IH.
Qed.

Lemma float_body_chars u : float_body u -> all_chars float_char u = true.
Proof.
  assert (Hname : all_chars is_alpha (lower u) = true -> all_chars float_char u = true).
  { intros H. apply all_alpha_lower in H. revert H. apply all_chars_weaken.
    intros c. unfold float_char. each_char c. }
  intros [H|[H|[H|(x & fl & ip & n1 & H)]]]; try (apply Hname; now rewrite H).
  destruct (scan_decimal_chars _ _ _ _ _ _ H) as (pre & -> & Hp).
  now rewrite all_chars_app, Hp.
Qed.

(** One step of the tokenizer. *)
Lemma tokenize_step fuel c s' :
  tokenize (S fuel) (String c s') =
  let s := String c s' in
  let op (t : token) (rest : string) :=
    match tokenize fuel rest with
    | Read ts => Read (t :: ts)
    | other => other
    end in
  if Ascii.eqb c " " || Ascii.eqb c (ascii_of_nat 9) then tokenize fuel s'
  else if is_digit c || (Ascii.eqb c "." && starts_with_digit s') then
    match scan_number s with
    | Read (k, rest) => op (TConst k) rest
    | Invalid => Invalid
    | Beyond => Beyond
    end
  else if is_word c then
    let '(w, rest) := word_run s in
    if String.eqb w "True" then op (TConst (CBool true)) rest
    else if String.eqb w "False" then op (TConst (CBool false)) rest
    else if String.eqb w "None" then op (TConst CNone) rest
    else if existsb (String.eqb w) keywords then Beyond
    else op (TName w) rest
  else if Ascii.eqb c "*" && starts_with "*" s' then
    op TDoubleStar (string_tail s')
  else if Ascii.eqb c "/" && starts_with "/" s' then
    op TDoubleSlash (string_tail s')
  else if Ascii.eqb c "." && starts_with "." s' then Beyond
  else if Ascii.eqb c "+" then op TPlus s'
  else if Ascii.eqb c "-" then op TMinus s'
  else if Ascii.eqb c "*" then op TStar s'
  else if Ascii.eqb c "/" then op TSlash s'
  else if Ascii.eqb c "%" then op TPercent s'
  else if Ascii.eqb c "(" then op TLParen s'
  else if Ascii.eqb c ")" then op TRParen s'
  else if Ascii.eqb c "," then op TComma s'
  else if Ascii.eqb c "[" then op TLBracket s'
  else if Ascii.eqb c "]" then op TRBracket s'
  else if Ascii.eqb c "." then op TDot s'
  else Beyond.
Proof. reflexivity. Qed.

Lemma word_run_all u :
  all_chars is_word u = true -> word_run u = (u, "").
Proof.
  induction u as [|c u IH]; simpl; auto. intros H.
  apply andb_true_iff in H. destruct H as [Hc Hu]. now rewrite Hc, IH.
Qed.

(** The names of infinity and of no number are not reserved. *)
Lemma float_name_not_reserved u :
  lower u = "inf" \/ lower u = "infinity" \/ lower u = "nan" ->
  String.eqb u "True" = false /\ String.eqb u "False" = false
  /\ String.eqb u "None" = false /\ existsb (String.eqb u) keywords = false.
Proof.
  intros H.
  assert (Hno : forall w, In w ("True" :: "False" :: "None" :: keywords) ->
                          String.eqb u w = false).
  { intros w Hw. destruct (String.eqb u w) eqn:E; auto.
    apply String.eqb_eq in E. subst u. exfalso.
    simpl in Hw.
    repeat (destruct Hw as [<-|Hw];
            [destruct H as [H|[H|H]]; vm_compute in H; discriminate|]).
    exact Hw. }
  repeat split; try (apply Hno; simpl; auto 10).
  destruct (existsb (String.eqb u) keywords) eqn:E; auto.
  apply existsb_exists in E. destruct E as (w & Hw & E).
  rewrite Hno in E; [discriminate|]. now do 3 right.
Qed.

Lemma tokenize_float_name u :
  lower u = "inf" \/ lower u = "infinity" \/ lower u = "nan" ->
  tokenize (S (String.length u)) u = Read [TName u].
Proof.
  intros H. destruct (float_name_not_reserved u H) as (H1 & H2 & H3 & H4).
  assert (Ha : all_chars is_alpha u = true).
  { apply all_alpha_lower. destruct H as [H|[H|H]]; now rewrite H. }
  destruct u as [|c u]; [destruct H as [H|[H|H]]; discriminate|].
  rewrite tokenize_step. cbv zeta.
  assert (Hw : all_chars is_word (String c u) = true).
  { revert Ha. apply all_chars_weaken. intros a. unfold is_word. now intros ->. }
  rewrite (word_run_all _ Hw), H1, H2, H3, H4.
  simpl in Ha. apply andb_true_iff in Ha. destruct Ha as [Hc _].
  assert (Ascii.eqb c " " || Ascii.eqb c (ascii_of_nat 9) = false) as ->
    by (revert Hc; clear; each_char c).
  assert (is_digit c = false) as -> by (revert Hc; clear; each_char c).
  assert (Ascii.eqb c "." = false) as -> by (revert Hc; clear; each_char c).
  assert (is_word c = true) as -> by (revert Hc; clear; each_char c).
  reflexivity.
Qed.

(** A decimal begins with a digit, or with a point and a digit. *)
Lemma scan_decimal_head u r :
  scan_decimal u = Some r ->
  exists c u', u = String c u'
    /\ (is_digit c = true \/ (c = "."%char /\ starts_with_digit u' = true)).
Proof.
  destruct u as [|c u']; [discriminate|]. intros H. exists c, u'. split; auto.
  destruct (is_digit c) eqn:Hd; auto. right.
  unfold scan_decimal in H.
  rewrite (digit_run_none (String c u') 0 Hd) in H.
  destruct (Ascii.eqb c ".") eqn:Hp.
  - apply Ascii.eqb_eq in Hp. split; auto.
    destruct (starts_with_digit u') eqn:Hs; auto.
    rewrite (digit_run_none u' 0 Hs) in H. discriminate.
  - discriminate.
Qed.

Lemma tokenize_decimal u x fl ip n1 :
  scan_decimal u = Some (x, fl, ip, n1, "") ->
  tokenize (S (String.length u)) u = Invalid
  \/ exists k, tokenize (S (String.length u)) u = Read [TConst k].
Proof.
  intros H. destruct (scan_decimal_head _ _ H) as (c & u' & -> & Hc).
  rewrite tokenize_step. cbv zeta.
  assert (Ascii.eqb c " " || Ascii.eqb c (ascii_of_nat 9) = false) as ->.
  { destruct Hc as [Hc|[-> _]]; [|reflexivity]. revert Hc. clear. each_char c. }
  assert (is_digit c || (Ascii.eqb c "." && starts_with_digit u') = true) as ->.
  { destruct Hc as [->|[-> ->]]; reflexivity. }
  unfold scan_number. rewrite H. simpl starts_with_word. cbv iota.
  destruct fl.
  - right. eexists. reflexivity.
  - destruct (starts_with_zero (String c u') && negb (ip =? 0)%Z).
    + now left.
    + right. eexists. reflexivity.
Qed.

(** A signed text: the sign is one token. *)
Lemma tokenize_sign fuel c u :
  c = "-"%char \/ c = "+"%char ->
  tokenize (S fuel) (String c u) =
  match tokenize fuel u with
  | Read ts => Read ((if Ascii.eqb c "-" then TMinus else TPlus) :: ts)
  | other => other
  end.
Proof. intros [->| ->]; reflexivity. Qed.

Lemma tokenize_float_body u :
  float_body u ->
  tokenize (S (String.length u)) u = Invalid
  \/ exists t, atom_token t /\ tokenize (S (String.length u)) u = Read [t].
Proof.
  intros [H|[H|[H|(x & fl & ip & n1 & H)]]].
  1-3: right; exists (TName u); split; [right; eauto|];
       apply tokenize_float_name; auto.
  destruct (tokenize_decimal _ _ _ _ _ H) as [E|[k E]]; auto.
  right. exists (TConst k). split; [left; eauto|exact E].
Qed.

Lemma parse_atom (t : token) :
  atom_token t ->
  exists e, p_items 40 [t] = Some ([e], false, [])
    /\ p_items 60 [TMinus; t] = Some ([UnaryOp USub e], false, [])
    /\ p_items 60 [TPlus; t] = Some ([UnaryOp UAdd e], false, [])
    /\ check_nodes (walk (NExpression e)) = Ok tt
    /\ check_nodes (walk (NExpression (UnaryOp USub e))) = Ok tt
    /\ check_nodes (walk (NExpression (UnaryOp UAdd e))) = Ok tt.
Proof.
  intros [[k ->]|[w ->]]; eexists; repeat split; reflexivity.
Qed.

(** A text that [float] accepts is a text of the fragment: a literal or a
    name, with a sign or without, all of it on the white list; or it is an
    integer with a leading zero, which Python does not read. *)
Lemma float_text_parses (t : string) (x : float) :
  strip t = t -> float_of_string t = Ok x ->
  replace_char "^" "**" t = t
  /\ (parse_fragment t = Invalid
      \/ exists body, parse_fragment t = Read body
                      /\ check_nodes (walk (NExpression body)) = Ok tt).
Proof.
  intros Hs H. destruct (float_of_string_body _ _ H) as (neg & u & Hsign & Hu).
  rewrite Hs in Hsign.
  pose proof (float_body_chars u Hu) as Hchars.
  destruct (split_sign_chars _ _ _ Hsign) as (pre & Ht & Hpre).
  split.
  { apply replace_caret_float_text. rewrite Ht, all_chars_app, Hpre, Hchars. auto. }
  unfold parse_fragment.
  assert (starts_with_space t = false) as ->
    by (rewrite <- Hs; apply starts_with_space_strip).
  assert (Hcases : t = u \/ exists c, (c = "-"%char \/ c = "+"%char) /\ t = String c u).
  { clear - Hsign. destruct t as [|c t]; simpl in Hsign.
    - inversion Hsign. auto.
    - destruct (Ascii.eqb c "-") eqn:E1.
      + apply Ascii.eqb_eq in E1. inversion Hsign; subst. right. eauto.
      + destruct (Ascii.eqb c "+") eqn:E2.
        * apply Ascii.eqb_eq in E2. inversion Hsign; subst. right. eauto.
        * inversion Hsign. auto. }
  destruct (tokenize_float_body u Hu) as [E|(tok & Htok & E)].
  - left. destruct Hcases as [->|(c & Hc & ->)].
    + now rewrite E.
    + simpl String.length. rewrite (tokenize_sign _ c u Hc), E. reflexivity.
  - destruct (parse_atom tok Htok) as (e & P1 & P2 & P3 & C1 & C2 & C3).
    right. destruct Hcases as [->|(c & Hc & ->)].
    + rewrite E. change (20 * S (List.length [tok])) with 40. rewrite P1. eauto.
    + simpl String.length. rewrite (tokenize_sign _ c u Hc), E.
      destruct Hc as [->| ->]; simpl Ascii.eqb; cbv iota.
      * change (20 * S (List.length [TMinus; tok])) with 60. rewrite P2. eauto.
      * change (20 * S (List.length [TPlus; tok])) with 60. rewrite P3. eauto.
Qed.

(** A value text whose tree has a refused node is not a text that [float]
    accepts. *)
Lemma refused_text_is_no_float rt (val : string) (body : expr) (n : node) :
  strip val = val ->
  ast_parse rt (replace_char "^" "**" val) = Ok body ->
  descendant (NExpression body) n -> refused n = true ->
  float_of_string val = Raise (CouldNotConvert val).
Proof.
  intros Hs Hp Hd Hr. destruct (float_of_string val) as [x|e] eqn:Hf.
  - exfalso. destruct (float_text_parses val x Hs Hf) as [Hrep Hparse].
    rewrite Hrep in Hp. unfold ast_parse in Hp.
    destruct Hparse as [E|(body' & E & Hc)]; rewrite E in Hp; [discriminate|].
    inversion Hp; subst body'.
    destruct (check_nodes_refuses (walk (NExpression body)) n) as (e & He & _);
      auto using walk_complete.
    rewrite Hc in He. discriminate.
  - now rewrite (float_of_string_error _ _ Hf).
Qed.

(** ** Injected code *)

Lemma descendant_inv (n m : node) :
  descendant n m ->
  n = m \/ exists c, In c (iter_child_nodes n) /\ descendant c m.
Proof. intros H. inversion H; subst; eauto. Qed.

Lemma leaf_descendant (n m : node) :
  iter_child_nodes n = [] -> descendant n m -> m = n.
Proof.
  intros Hn H. apply descendant_inv in H. destruct H as [->|(c & Hc & _)]; auto.
  rewrite Hn in Hc. destruct Hc.
Qed.

Lemma permitted_all_In (es : list expr) (a : expr) :
  (fix all (es : list expr) : bool :=
     match es with
     | [] => true
     | e1 :: es' => spec_permitted e1 && all es'
     end) es = true ->
  In a es -> spec_permitted a = true.
Proof.
  induction es as [|e es IH]; intros H Hin; [destruct Hin|].
  apply andb_true_iff in H. destruct H as [He Hes].
  destruct Hin as [<-|Hin]; auto.
Qed.

Lemma sizes_In (es : list expr) (a : expr) :
  In a es ->
  expr_size a
  <= (fix sizes (es : list expr) : nat :=
        match es with [] => 0 | e :: es' => expr_size e + sizes es' end) es.
Proof.
  induction es as [|e es IH]; intros Hin; [destruct Hin|].
  destruct Hin as [<-|Hin]; [lia|]. specialize (IH Hin). lia.
Qed.

(** What the specification permits, the white list does not refuse: the
    trees with a refused node are among those the specification
    forbids. *)
Lemma permitted_not_refused_upto (k : nat) : forall e,
  expr_size e <= k -> spec_permitted e = true ->
  forall n, descendant (NExpr e) n -> refused n = false.
Proof.
  induction k as [|k IH]; intros e Hk Hp n Hd.
  { destruct e; simpl in Hk; lia. }
  apply descendant_inv in Hd. destruct Hd as [<-|(c & Hc & Hd)].
  - destruct e as [k0|id|l op r|op e1|f args kws|es|es|e1 a|e1 i|e1|cls es];
      try discriminate Hp; try reflexivity.
    destruct f as [k0|id|l op r|op e1|f args' kws'|es|es|e1 a|e1 i|e1|cls es];
      try discriminate Hp.
    destruct kws as [|kw kws]; [|discriminate Hp].
    simpl in Hp. apply andb_true_iff in Hp. destruct Hp as [Hf _].
    unfold refused. simpl. unfold in_allowed_names.
    simpl in Hf. simpl.
    repeat (apply orb_true_iff in Hf; destruct Hf as [Hf|Hf];
            [rewrite Hf; simpl; rewrite ?orb_true_r; reflexivity|]).
    discriminate Hf.
  - destruct e as [k0|id|l op r|op e1|f args kws|es|es|e1 a|e1 i|e1|cls es];
      try discriminate Hp; simpl in Hc.
    + destruct Hc.
    + destruct Hc as [<-|[]]. now rewrite (leaf_descendant NLoad n eq_refl Hd).
    + simpl in Hp. apply andb_true_iff in Hp. destruct Hp as [Hp Hr].
      apply andb_true_iff in Hp. destruct Hp as [Ho Hl].
      simpl in Hk.
      destruct Hc as [<-|[<-|[<-|[]]]].
      * apply (IH l); auto. lia.
      * rewrite (leaf_descendant (NOperator op) n eq_refl Hd).
        destruct op; try discriminate Ho; reflexivity.
      * apply (IH r); auto. lia.
    + simpl in Hk.
      destruct Hc as [<-|[<-|[]]].
      * rewrite (leaf_descendant (NUnaryop op) n eq_refl Hd).
        destruct op; try discriminate Hp; reflexivity.
      * apply (IH e1); auto; [lia|]. destruct op; try discriminate Hp; exact Hp.
    + destruct f as [k0|id|l op r|op e1|f args' kws'|es|es|e1 a|e1 i|e1|cls es];
        try discriminate Hp.
      destruct kws as [|kw kws]; [|discriminate Hp].
      simpl in Hp. apply andb_true_iff in Hp. destruct Hp as [_ Ha].
      simpl in Hk. rewrite app_nil_r in Hc.
      destruct Hc as [<-|Hc].
      * apply descendant_inv in Hd. destruct Hd as [<-|(c' & Hc' & Hd')];
          [reflexivity|].
        simpl in Hc'. destruct Hc' as [<-|[]].
        now rewrite (leaf_descendant NLoad n eq_refl Hd').
      * apply in_map_iff in Hc. destruct Hc as (a & <- & Hin).
        apply (IH a); auto.
        -- pose proof (sizes_In args a Hin). lia.
        -- exact (permitted_all_In args a Ha Hin).
Qed.

Lemma permitted_not_refused (body : expr) (n : node) :
  descendant (NExpression body) n -> refused n = true ->
  spec_permitted body = false.
Proof.
  intros Hd Hr. destruct (spec_permitted body) eqn:Hp; [|reflexivity].
  apply descendant_inv in Hd. destruct Hd as [<-|(c & Hc & Hd)].
  - discriminate Hr.
  - simpl in Hc. destruct Hc as [<-|[]].
    rewrite (permitted_not_refused_upto (expr_size body) body (le_n _) Hp n Hd)
      in Hr.
    discriminate Hr.
Qed.


(** C3, as the code has it.  [parse_and_convert] fails on the input
    ["__import__('os') to m"], with an error of evaluation, whatever the
    interpreter: the pattern gives the evaluator the text [_] alone, the
    name [_] is not defined, and [float] does not read it; nothing of the
    input is called.  And on any input whose value text has a tree with a
    node that the white list of [safe_eval] refuses, [parse_and_convert]
    fails with that same error of evaluation: the evaluator refuses the
    tree before evaluating it, and a text with such a tree is none that
    [float] reads.  Every such tree is one that the specification
    forbids; the white list lets through more than the specification
    permits, every constant and every name among it. *)
Theorem injected_code_not_executed :
  (forall rt deg, parse_and_convert rt "__import__('os') to m" deg
                  = Raise (CouldNotConvert "_"))
  /\ kind_of (CouldNotConvert "_") = EvalError
  /\ re_match EXPR_PAT "__import__('os') to m"
     = Some [("to", "m"); ("from", "_import__('os')"); ("value", "_")]
  /\ (forall rt deg, safe_eval rt "_" deg = Raise (NameError "_"))
  /\ (forall rt deg s m body n,
        re_match EXPR_PAT s = Some m ->
        ast_parse rt (replace_char "^" "**" (strip (group m "value"))) = Ok body ->
        descendant (NExpression body) n -> refused n = true ->
        parse_and_convert rt s deg
        = Raise (CouldNotConvert (strip (group m "value")))
        /\ kind_of (CouldNotConvert (strip (group m "value"))) = EvalError)
  /\ (forall body n,
        descendant (NExpression body) n -> refused n = true ->
        spec_permitted body = false).
Proof.
  split; [intros rt deg; vm_compute; reflexivity|].
  split; [reflexivity|]. split; [vm_compute; reflexivity|].
  split; [intros rt deg; vm_compute; reflexivity|].
  split; [|exact permitted_not_refused].
  intros rt deg s m body n Hm Hp Hd Hr. split; [|reflexivity].
  destruct (safe_eval_refuses (strip (group m "value")) body n Hd Hr)
    as (e & _ & _ & He).
  unfold parse_and_convert. rewrite Hm. cbv zeta.
  unfold evaluate_value. rewrite (He rt deg Hp).
  unfold bind at 2. unfold try_except.
  rewrite (refused_text_is_no_float rt _ body n (strip_idem _) Hp Hd Hr).
  reflexivity.
Qed.
(** The general part of C3 at the input ["pi.real*2 m to cm"]. *)
Lemma injected_code_not_executed_witness :
  parse_and_convert bare_runtime "pi.real*2 m to cm" false
  = Raise (CouldNotConvert "pi.real*2")
  /\ kind_of (CouldNotConvert "pi.real*2") = EvalError.
Proof.
  apply (proj1 (proj2 (proj2 (proj2 (proj2 injected_code_not_executed))))
           bare_runtime false "pi.real*2 m to cm"
           [("to", "cm"); ("from", "m"); ("value", "pi.real*2")]
           (BinOp (Attribute (Name "pi") "real") Mult (Constant (CInt 2)))
           (NExpr (Attribute (Name "pi") "real"))).
  - vm_compute. reflexivity.
  - vm_compute. reflexivity.
  - apply (desc_child _ (NExpr (BinOp (Attribute (Name "pi") "real") Mult
                                      (Constant (CInt 2))))); [now left|].
    apply (desc_child _ (NExpr (Attribute (Name "pi") "real"))); [now left|].
    apply desc_self.
  - reflexivity.
Defined.

(** C3 as stated fails: the value text [True+0] holds a constant that is
    none of the syntax the specification permits, the white list does not
    refuse it, the evaluator returns 1, and the input is converted. *)
Lemma constant_in_value_is_converted :
  parse_fragment "True+0"
  = Read (BinOp (Constant (CBool true)) Add (Constant (CInt 0)))
  /\ spec_permitted (BinOp (Constant (CBool true)) Add (Constant (CInt 0)))
     = false
  /\ refused (NExpr (Constant (CBool true))) = false
  /\ (forall rt deg, safe_eval rt "True+0" deg = Ok (VInt 1))
  /\ (forall rt deg, parse_and_convert rt "True+0 m to cm" deg
                     = Ok (1.0, "m", "length", 100.0, "cm")%float).
Proof.
  repeat split; try (intros rt deg); vm_compute; reflexivity.
Qed.

(** ** Category detection *)

(** [detect_items] returns the category of the first item that holds both
    keys, and nothing when no item does. *)
Lemma detect_items_spec (items : UnitRegistry) (al bl : string) :
  match detect_items items al bl with
  | Some cat =>
      exists before units after,
        items = (before ++ (cat, units) :: after)%list
        /\ both_in al bl (cat, units) = true
        /\ forallb (fun item => negb (both_in al bl item)) before = true
  | None => forallb (fun item => negb (both_in al bl item)) items = true
  end.
Proof.
  induction items as [|[cat units] items IH]; simpl; [reflexivity|].
  destruct (dict_mem units al && dict_mem units bl) eqn:E.
  - exists [], units, items. repeat split; auto.
  - destruct (detect_items items al bl) as [cat'|].
    + destruct IH as (before & units' & after & -> & Hin & Hbefore).
      exists ((cat, units) :: before), units', after. repeat split; auto.
      simpl. unfold both_in at 1. simpl. now rewrite E.
    + unfold both_in at 1. simpl. now rewrite E.
Qed.

(** When no category is detected, the input is not converted, and when its
    value evaluates the error is the one of the units. *)
Lemma no_category_no_conversion rt s deg m :
  re_match EXPR_PAT s = Some m ->
  detect_category ureg (strip (group m "from")) (strip (group m "to")) = None ->
  (forall r, parse_and_convert rt s deg <> Ok r)
  /\ (forall x,
        evaluate_value rt (strip (group m "value")) deg = Ok x ->
        parse_and_convert rt s deg
        = Raise (NoCommonCategory (strip (group m "from"))
                                  (strip (group m "to")))).
Proof.
  intros Hm Hd. unfold parse_and_convert. rewrite Hm. cbv zeta. rewrite Hd.
  split.
  - intros r. destruct (evaluate_value rt _ deg); discriminate.
  - intros x Hx. now rewrite Hx.
Qed.

(** C5. [detect_category(a, b)] returns the first category, in the order
    in which the categories were registered, whose unit map holds both
    case-folded keys, and returns nothing when no category holds both.
    When nothing is returned [parse_and_convert] converts nothing: once the
    value has evaluated it raises the error of the units, of kind
    [UnitError].  So does [convert("1 m to kg")]. *)
Theorem detect_category_first_shared :
  (forall (reg : UnitRegistry) (a b : string),
     match detect_category reg a b with
     | Some cat =>
         exists before units after,
           reg = (before ++ (cat, units) :: after)%list
           /\ both_in (lower a) (lower b) (cat, units) = true
           /\ forallb (fun item => negb (both_in (lower a) (lower b) item))
                      before = true
     | None =>
         forallb (fun item => negb (both_in (lower a) (lower b) item)) reg = true
     end)
  /\ (forall rt s deg m,
        re_match EXPR_PAT s = Some m ->
        detect_category ureg (strip (group m "from")) (strip (group m "to"))
        = None ->
        (forall r, parse_and_convert rt s deg <> Ok r)
        /\ (forall x,
              evaluate_value rt (strip (group m "value")) deg = Ok x ->
              exists e, parse_and_convert rt s deg = Raise e
                        /\ kind_of e = UnitError))
  /\ (forall rt deg, parse_and_convert rt "1 m to kg" deg
                     = Raise (NoCommonCategory "m" "kg"))
  /\ kind_of (NoCommonCategory "m" "kg") = UnitError.
Proof.
  split; [intros reg a b; apply detect_items_spec|].
  split.
  { intros rt s deg m Hm Hd.
    destruct (no_category_no_conversion rt s deg m Hm Hd) as [Hno Hraise].
    split; [exact Hno|]. intros x Hx. eexists. split; [exact (Hraise x Hx)|reflexivity]. }
  split; [intros rt deg; vm_compute; reflexivity|reflexivity].
Qed.

(** The second part of C5 at the input ["1 m to kg"]. *)
Lemma detect_category_first_shared_witness :
  (forall r, parse_and_convert bare_runtime "1 m to kg" false <> Ok r)
  /\ (forall x,
        evaluate_value bare_runtime "1" false = Ok x ->
        exists e, parse_and_convert bare_runtime "1 m to kg" false = Raise e
                  /\ kind_of e = UnitError).
Proof.
  apply (proj1 (proj2 detect_category_first_shared) bare_runtime "1 m to kg"
               false [("to", "kg"); ("from", "m"); ("value", "1")]).
  - vm_compute. reflexivity.
  - vm_compute. reflexivity.
Defined.

(** ** Conversion through the base unit *)

Local Open Scope float_scope.

(** What a successful call computed. *)
Lemma parse_and_convert_ok rt s deg v uf cat y ut :
  parse_and_convert rt s deg = Ok (v, uf, cat, y, ut) ->
  exists m fu tu x_base,
    re_match EXPR_PAT s = Some m
    /\ evaluate_value rt (strip (group m "value")) deg = Ok v
    /\ detect_category ureg (strip (group m "from")) (strip (group m "to"))
       = Some cat
    /\ get ureg cat (strip (group m "from")) = Some fu
    /\ get ureg cat (strip (group m "to")) = Some tu
    /\ to_base fu v = Ok x_base
    /\ from_base tu x_base = Ok y
    /\ uf = name fu /\ ut = name tu.
Proof.
  unfold parse_and_convert. destruct (re_match EXPR_PAT s) as [m|]; [|discriminate].
  cbv zeta. destruct (evaluate_value rt _ deg) as [x|] eqn:Hx; [|discriminate].
  unfold bind at 1. generalize ureg. intros reg.
  destruct (detect_category reg (strip (group m "from")) (strip (group m "to")))
    as [c|] eqn:Hc; [|discriminate].
  destruct (String.eqb c ""); [discriminate|].
  destruct (get reg c (strip (group m "from"))) as [fu|] eqn:Hf; [|discriminate].
  destruct (get reg c (strip (group m "to"))) as [tu|] eqn:Ht; [|discriminate].
  destruct (to_base fu x) as [b|] eqn:Hb; [|discriminate].
  unfold bind at 1.
  destruct (from_base tu b) as [y'|] eqn:Hy; [|discriminate].
  unfold bind. intros H. inversion H; subst.
  exists m, fu, tu, b.
  exact (conj eq_refl (conj Hx (conj Hc (conj Hf (conj Ht
          (conj Hb (conj Hy (conj eq_refl eq_refl)))))))).
Qed.

(** C6, as the code has it.  On every successful call the output value is
    [to_unit.from_base(from_unit.to_base(value))], where the two units are
    what the registry holds, in the detected category, for the two unit
    texts, and the names reported are the canonical names of these units,
    not the texts typed.  [convert("3 ft to cm")] yields value 3, from-unit
    [ft], category [length], to-unit [cm] and the result
    91.44000000000001: the binary64 number next above 91.44, within 1e-9
    of it in relative terms; and so does [convert("3 feet to
    centimeters")]. *)
Theorem convert_through_base :
  (forall rt s deg v uf cat y ut,
     parse_and_convert rt s deg = Ok (v, uf, cat, y, ut) ->
     exists m fu tu x_base,
       re_match EXPR_PAT s = Some m
       /\ get ureg cat (strip (group m "from")) = Some fu
       /\ get ureg cat (strip (group m "to")) = Some tu
       /\ to_base fu v = Ok x_base
       /\ from_base tu x_base = Ok y
       /\ uf = name fu /\ ut = name tu)
  /\ (forall rt deg, parse_and_convert rt "3 ft to cm" deg
                     = Ok (3.0, "ft", "length", 91.44000000000001, "cm"))
  /\ (forall rt deg, parse_and_convert rt "3 feet to centimeters" deg
                     = Ok (3.0, "ft", "length", 91.44000000000001, "cm"))
  /\ next_up 91.44 = 91.44000000000001
  /\ within_relative 1e-9 91.44000000000001 91.44 = true.
Proof.
  split.
  { intros rt s deg v uf cat y ut H.
    destruct (parse_and_convert_ok _ _ _ _ _ _ _ _ H)
      as (m & fu & tu & b & Hm & _ & _ & Hf & Ht & Hb & Hy & Hu & Hv).
    exists m, fu, tu, b.
    exact (conj Hm (conj Hf (conj Ht (conj Hb (conj Hy (conj Hu Hv)))))). }
  repeat split; try (intros rt deg); vm_compute; reflexivity.
Qed.

(** The first part of C6 at the input ["3 ft to cm"]. *)
Lemma convert_through_base_witness :
  exists m fu tu x_base,
    re_match EXPR_PAT "3 ft to cm" = Some m
    /\ get ureg "length" (strip (group m "from")) = Some fu
    /\ get ureg "length" (strip (group m "to")) = Some tu
    /\ to_base fu 3.0 = Ok x_base
    /\ from_base tu x_base = Ok 91.44000000000001
    /\ "ft" = name fu /\ "cm" = name tu.
Proof.
  apply (proj1 convert_through_base bare_runtime "3 ft to cm" false).
  vm_compute. reflexivity.
Defined.

(** C6 as stated fails: the result of [convert("3 ft to cm")] is not the
    float 91.44. *)
Lemma convert_3_ft_is_not_91_44 :
  parse_and_convert bare_runtime "3 ft to cm" false
  <> Ok (3.0, "ft", "length", 91.44, "cm").
Proof.
  intros H.
  apply (f_equal (fun r => match r with
                           | Ok (_, _, _, y, _) => y =? 91.44
                           | Raise _ => false
                           end)) in H.
  vm_compute in H. discriminate.
Qed.

(** ** Temperature *)

Lemma get_in_registry (reg : UnitRegistry) (cat key : string) (u : Unit) :
  get reg cat key = Some u ->
  exists units, In (cat, units) reg /\ In u (dict_values units).
Proof.
  unfold get. destruct (dict_get reg cat) as [units|] eqn:E; [|discriminate].
  intros H. exists units. split.
  - clear H. induction reg as [|[c us] reg IH]; simpl in *; [discriminate|].
    destruct (String.eqb c cat) eqn:Ec.
    + apply String.eqb_eq in Ec. inversion E. subst. now left.
    + right. now apply IH.
  - now apply dict_get_in_values in H.
Qed.

Lemma named_only_in_spec reg nm category cat key u :
  named_only_in reg nm category = true ->
  get reg cat key = Some u -> name u = nm -> cat = category.
Proof.
  intros Hn Hg Hname. destruct (get_in_registry _ _ _ _ Hg) as (units & Hin & Hu).
  unfold named_only_in in Hn. rewrite forallb_forall in Hn.
  specialize (Hn _ Hin). simpl in Hn. rewrite forallb_forall in Hn.
  specialize (Hn _ Hu). rewrite Hname, String.eqb_refl in Hn. simpl in Hn.
  now apply String.eqb_eq in Hn.
Qed.

(** The units of [temperature] named [F] and [C]. *)
Lemma temperature_transforms (key : string) (u : Unit) :
  get ureg "temperature" key = Some u ->
  (name u = "F" -> forall x, to_base u x = Ok ((x - 32.0) * 5.0 / 9.0 + 273.15))
  /\ (name u = "C" -> forall x, from_base u x = Ok (x - 273.15)).
Proof.
  unfold get.
  let L := eval vm_compute in (dict_get ureg "temperature") in
  assert (E : dict_get ureg "temperature" = L) by (vm_compute; reflexivity).
  rewrite E. clear E. intros H. apply dict_get_in_values in H. simpl in H.
  repeat (destruct H as [<-|H]; [split; intros Hn x; solve [discriminate Hn | reflexivity]|]).
  destruct H.
Qed.

(** C8.  [convert("32 F to C")] returns the result 0 (exactly) in the
    category [temperature], and it is obtained through the two transforms:
    every conversion that reports the source unit [F] and the target unit
    [C] is in the category [temperature] and returns
    [((v - 32) * 5/9 + 273.15) - 273.15] of its value [v], that is the
    transform of Fahrenheit to the base, [(x - 32) * 5/9 + 273.15],
    followed by the transform of the base to Celsius, [x - 273.15], which
    are the transforms that the registry holds for [F] and [C].  At 32 the
    result is 0, at 212 it is 100, at 100 it is 37.77777777777777. *)
Theorem fahrenheit_to_celsius :
  (forall rt s deg v uf cat y ut,
     parse_and_convert rt s deg = Ok (v, uf, cat, y, ut) ->
     uf = "F" -> ut = "C" ->
     cat = "temperature" /\ y = (v - 32.0) * 5.0 / 9.0 + 273.15 - 273.15)
  /\ (exists u_f u_c,
        get ureg "temperature" "F" = Some u_f
        /\ get ureg "temperature" "C" = Some u_c
        /\ name u_f = "F" /\ name u_c = "C"
        /\ (forall x, to_base u_f x = Ok ((x - 32.0) * 5.0 / 9.0 + 273.15))
        /\ (forall x, from_base u_c x = Ok (x - 273.15)))
  /\ (forall rt deg, parse_and_convert rt "32 F to C" deg
                     = Ok (32.0, "F", "temperature", 0.0, "C"))
  /\ (32.0 - 32.0) * 5.0 / 9.0 + 273.15 - 273.15 = 0.0
  /\ (forall rt deg, parse_and_convert rt "212 F to C" deg
                     = Ok (212.0, "F", "temperature", 100.0, "C"))
  /\ (forall rt deg, parse_and_convert rt "100 F to C" deg
                     = Ok (100.0, "F", "temperature", 37.77777777777777, "C")).
Proof.
  split.
  { intros rt s deg v uf cat y ut H -> ->.
    apply parse_and_convert_ok in H.
    destruct H as (m & fu & tu & x_base & _ & _ & _ & Hf & Ht & Hb & Hy & Hnf & Hnt).
    assert (Hc : cat = "temperature").
    { apply (named_only_in_spec ureg "F" "temperature" cat
               (strip (group m "from")) fu);
        [vm_compute; reflexivity|exact Hf|now symmetry]. }
    subst cat. split; [reflexivity|].
    destruct (temperature_transforms _ _ Hf) as [Hto _].
    destruct (temperature_transforms _ _ Ht) as [_ Hfrom].
    rewrite (Hto (eq_sym Hnf)) in Hb. inversion Hb; subst x_base.
    rewrite (Hfrom (eq_sym Hnt)) in Hy. now inversion Hy. }
  split.
  { eexists. eexists. split; [vm_compute; reflexivity|].
    split; [vm_compute; reflexivity|].
    split; [reflexivity|]. split; [reflexivity|].
    split; intros x; reflexivity. }
  split; [intros rt deg; vm_compute; reflexivity|].
  split; [vm_compute; reflexivity|].
  split; intros rt deg; vm_compute; reflexivity.
Qed.

(** The first part of C8 at the input ["32 F to C"]. *)
Lemma fahrenheit_to_celsius_witness :
  "temperature" = "temperature"
  /\ 0.0 = (32.0 - 32.0) * 5.0 / 9.0 + 273.15 - 273.15.
Proof.
  apply (proj1 fahrenheit_to_celsius bare_runtime "32 F to C" false
               32.0 "F" "temperature" 0.0 "C").
  - vm_compute. reflexivity.
  - reflexivity.
  - reflexivity.
Defined.

Local Close Scope float_scope.

(** ** Case and alias spelling of units *)

Lemma resolve_alike_case reg a a' : lower a = lower a' -> resolve_alike reg a a'.
Proof.
  intros H. unfold resolve_alike. rewrite H. apply Forall_forall. reflexivity.
Qed.

Lemma get_alike reg cat a a' :
  resolve_alike reg a a' -> get reg cat a = get reg cat a'.
Proof.
  intros H. unfold get. destruct (dict_get reg cat) as [units|] eqn:E.
  - apply dict_get_in_values in E.
    unfold resolve_alike in H. rewrite Forall_forall in H. now apply H.
  - reflexivity.
Qed.

Lemma detect_alike reg a a' b b' :
  resolve_alike reg a a' -> resolve_alike reg b b' ->
  detect_category reg a b = detect_category reg a' b'.
Proof.
  unfold detect_category, resolve_alike, dict_values.
  induction reg as [|[cat units] reg IH]; simpl; intros Ha Hb; [reflexivity|].
  inversion Ha; subst. inversion Hb; subst.
  unfold dict_mem. simpl in *.
  match goal with
  | H1 : dict_get units (lower a) = _, H2 : dict_get units (lower b) = _ |- _ =>
      rewrite H1, H2
  end.
  destruct (dict_get units (lower a')), (dict_get units (lower b')); simpl; auto.
Qed.

(** Two inputs that the pattern matches with the same value text and with
    unit texts that resolve alike convert alike. *)
Lemma convert_alike rt deg s s' m m' :
  re_match EXPR_PAT s = Some m -> re_match EXPR_PAT s' = Some m' ->
  strip (group m "value") = strip (group m' "value") ->
  resolve_alike ureg (strip (group m "from")) (strip (group m' "from")) ->
  resolve_alike ureg (strip (group m "to")) (strip (group m' "to")) ->
  forall r, parse_and_convert rt s deg = Ok r
            <-> parse_and_convert rt s' deg = Ok r.
Proof.
  intros Hm Hm' Hv Hf Ht r. unfold parse_and_convert. rewrite Hm, Hm'. cbv zeta.
  rewrite Hv. destruct (evaluate_value rt _ deg) as [x|]; [|easy].
  unfold bind at 1 3. revert Hf Ht. generalize ureg. intros reg Hf Ht.
  rewrite (detect_alike reg _ _ _ _ Hf Ht).
  destruct (detect_category reg (strip (group m' "from")) (strip (group m' "to")))
    as [cat|]; [|easy].
  destruct (String.eqb cat ""); [easy|].
  rewrite (get_alike reg cat _ _ Hf), (get_alike reg cat _ _ Ht). reflexivity.
Qed.

Lemma lower_cons_inv c t s' :
  lower (String c t) = lower s' ->
  exists c' t', s' = String c' t' /\ lower_char c = lower_char c'
                /\ lower t = lower t'.
Proof.
  destruct s' as [|c' t']; simpl; [discriminate|].
  intros H. inversion H. eauto.
Qed.

Lemma lower_nil_inv s' : lower "" = lower s' -> s' = "".
Proof. destruct s'; simpl; [reflexivity|discriminate]. Qed.

Lemma case_blind_eq p c c' :
  case_blind_class p -> lower_char c = lower_char c' -> p c = p c'.
Proof. intros Hp H. now rewrite <- (Hp c), <- (Hp c'), H. Qed.

Lemma is_space_case_blind : case_blind_class is_space.
Proof. intros c. each_char c. Qed.

Lemma value_class_case_blind : case_blind_class value_class.
Proof. intros c. each_char c. Qed.

Lemma not_digit_space_case_blind : case_blind_class not_digit_space.
Proof. intros c. each_char c. Qed.

Lemma not_0_9_case_blind : case_blind_class not_0_9.
Proof. intros c. each_char c. Qed.

Lemma dot_case_blind : case_blind_class dot.
Proof. intros c. each_char c. Qed.

Lemma is_newline_case_blind : case_blind_class (fun c => Ascii.eqb c newline).
Proof. intros c. each_char c. Qed.

Lemma EXPR_PAT_case_blind : case_blind EXPR_PAT.
Proof.
  unfold EXPR_PAT. simpl.
  repeat split;
    auto using is_space_case_blind, value_class_case_blind,
      not_digit_space_case_blind, not_0_9_case_blind, dot_case_blind.
Qed.

Lemma at_end_case s s' : lower s = lower s' -> at_end s = at_end s'.
Proof.
  destruct s as [|c t]; intros H.
  - now rewrite (lower_nil_inv _ H).
  - apply lower_cons_inv in H. destruct H as (c' & t' & -> & Hc & Ht).
    destruct t as [|d t].
    + rewrite (lower_nil_inv _ Ht). simpl.
      exact (case_blind_eq _ c c' is_newline_case_blind Hc).
    + apply lower_cons_inv in Ht. destruct Ht as (d' & t'' & -> & _ & _).
      reflexivity.
Qed.

Lemma lower_length s s' : lower s = lower s' -> String.length s = String.length s'.
Proof.
  revert s'. induction s as [|c t IH]; intros s' H.
  - now rewrite (lower_nil_inv _ H).
  - apply lower_cons_inv in H. destruct H as (c' & t' & -> & _ & Ht).
    simpl. now rewrite (IH _ Ht).
Qed.

Lemma lower_substring n m s : lower (substring n m s) = substring n m (lower s).
Proof.
  revert n m. induction s as [|c t IH]; intros n m; simpl.
  - destruct n, m; reflexivity.
  - destruct n; simpl.
    + destruct m; simpl; [reflexivity|]. now rewrite IH.
    + apply IH.
Qed.

Section CaseBlind.
Variables (k k' : cont).
Hypothesis Hk : forall i s s' g g',
  lower s = lower s' -> same_groups g g' -> same_answer (k i s g) (k' i s' g').

Lemma lit_match_case l : forall s s',
  lower s = lower s' ->
  match lit_match l s, lit_match l s' with
  | Some t, Some t' => lower t = lower t'
  | None, None => True
  | _, _ => False
  end.
Proof.
  induction l as [|a l IH]; intros s s' H; simpl; [exact H|].
  destruct s as [|c t].
  - now rewrite (lower_nil_inv _ H).
  - apply lower_cons_inv in H. destruct H as (c' & t' & -> & Hc & Ht).
    rewrite <- Hc. destruct (Ascii.eqb (lower_char a) (lower_char c)); [|exact I].
    now apply IH.
Qed.

Lemma rep_greedy_case p : case_blind_class p ->
  forall s s' min i g g',
  lower s = lower s' -> same_groups g g' ->
  same_answer (rep_greedy p min i s g k) (rep_greedy p min i s' g' k').
Proof.
  intros Hp. induction s as [|c t IH]; intros s' min i g g' H Hg.
  - rewrite (lower_nil_inv _ H). simpl. destruct (Nat.eqb min 0); [|exact I].
    now apply Hk.
  - pose proof H as Hs.
    apply lower_cons_inv in H. destruct H as (c' & t' & -> & Hc & Ht). simpl.
    rewrite <- (case_blind_eq p c c' Hp Hc).
    assert (Hstop : same_answer
              (if Nat.eqb min 0 then k i (String c t) g else None)
              (if Nat.eqb min 0 then k' i (String c' t') g' else None)).
    { destruct (Nat.eqb min 0); [|exact I]. now apply Hk. }
    destruct (p c); [|exact Hstop].
    specialize (IH t' (Nat.pred min) (S i) g g' Ht Hg).
    destruct (rep_greedy p (Nat.pred min) (S i) t g k),
             (rep_greedy p (Nat.pred min) (S i) t' g' k'); simpl in IH;
      try contradiction; auto.
Qed.

Lemma rep_lazy_case p : case_blind_class p ->
  forall s s' min i g g',
  lower s = lower s' -> same_groups g g' ->
  same_answer (rep_lazy p min i s g k) (rep_lazy p min i s' g' k').
Proof.
  intros Hp. induction s as [|c t IH]; intros s' min i g g' H Hg.
  - rewrite (lower_nil_inv _ H). destruct min; simpl; [|exact I].
    specialize (Hk i "" "" g g' eq_refl Hg).
    destruct (k i "" g), (k' i "" g'); simpl in *; auto.
  - pose proof H as Hs.
    apply lower_cons_inv in H. destruct H as (c' & t' & -> & Hc & Ht).
    assert (Hmore : forall m,
              same_answer (if p c then rep_lazy p m (S i) t g k else None)
                          (if p c' then rep_lazy p m (S i) t' g' k' else None)).
    { intros m. rewrite <- (case_blind_eq p c c' Hp Hc).
      destruct (p c); [|exact I]. now apply IH. }
    destruct min; simpl; [|apply Hmore].
    specialize (Hk i _ _ g g' Hs Hg).
    destruct (k i (String c t) g), (k' i (String c' t') g'); simpl in *;
      try contradiction; auto.
Qed.

End CaseBlind.

(** The matcher does not tell apart two texts that differ in case only:
    it matches both at the same places or neither. *)
Lemma rmatch_case r : case_blind r ->
  forall (k k' : cont),
  (forall i s s' g g',
     lower s = lower s' -> same_groups g g' ->
     same_answer (k i s g) (k' i s' g')) ->
  forall i s s' g g',
  lower s = lower s' -> same_groups g g' ->
  same_answer (rmatch r i s g k) (rmatch r i s' g' k').
Proof.
  induction r; intros Hr k k' Hk i s s' g g' Hs Hg; simpl in *.
  - destruct (Nat.eqb i 0); [now apply Hk|exact I].
  - rewrite <- (at_end_case s s' Hs). destruct (at_end s); [now apply Hk|exact I].
  - destruct s as [|c t].
    + rewrite (lower_nil_inv _ Hs). exact I.
    + apply lower_cons_inv in Hs. destruct Hs as (c' & t' & -> & Hc & Ht).
      rewrite <- (case_blind_eq p c c' Hr Hc). destruct (p c); [|exact I].
      now apply Hk.
  - generalize (lit_match_case l s s' Hs).
    destruct (lit_match l s), (lit_match l s'); intros Ht; try contradiction;
      [now apply Hk|exact I].
  - destruct Hr as [H1 H2]. apply IHr1; [exact H1| |exact Hs|exact Hg].
    intros i0 s0 s0' g0 g0' Hs0 Hg0. now apply IHr2.
  - destruct Hr as [H1 H2].
    specialize (IHr1 H1 k k' Hk i s s' g g' Hs Hg).
    specialize (IHr2 H2 k k' Hk i s s' g g' Hs Hg).
    destruct (rmatch r1 i s g k), (rmatch r1 i s' g' k'); simpl in IHr1;
      try contradiction; auto.
  - specialize (IHr Hr k k' Hk i s s' g g' Hs Hg).
    destruct (rmatch r i s g k), (rmatch r i s' g' k'); simpl in IHr;
      try contradiction; auto.
  - destruct lazy; [now apply rep_lazy_case|now apply rep_greedy_case].
  - apply IHr; [exact Hr| |exact Hs|exact Hg].
    intros i0 s0 s0' g0 g0' Hs0 Hg0. apply Hk; [exact Hs0|].
    constructor; [|exact Hg0]. simpl. split; [reflexivity|].
    now rewrite !lower_substring, Hs.
Qed.

Lemma same_groups_group m m' n :
  same_groups m m' -> lower (group m n) = lower (group m' n).
Proof.
  unfold group. induction 1 as [|[a x] [b y] m m' [Hab Hxy] Hm IH]; simpl;
    [reflexivity|].
  simpl in Hab, Hxy. subst b. destruct (String.eqb a n); [exact Hxy|exact IH].
Qed.

Lemma re_match_case s s' :
  lower s = lower s' ->
  same_answer (re_match EXPR_PAT s) (re_match EXPR_PAT s').
Proof.
  intros H. unfold re_match.
  apply rmatch_case; [exact EXPR_PAT_case_blind| | |].
  - intros i s0 s0' g g' _ Hg. exact Hg.
  - exact H.
  - constructor.
Qed.

Lemma EXPR_PAT_parts :
  EXPR_PAT = Bol ;; Rep false 0 is_space ;; Opt pat_convert ;; pat_value.
Proof. reflexivity. Qed.

Lemma append_nil_r (s : string) : s ++ "" = s.
Proof. induction s; simpl; congruence. Qed.

Lemma last_char_app p (a b : string) :
  b <> "" -> last_char p (a ++ b) = last_char p b.
Proof.
  intros Hb. induction a as [|c a IH]; [reflexivity|].
  simpl. rewrite IH. destruct (a ++ b) eqn:E; [|reflexivity].
  destruct a; simpl in E; [congruence|discriminate].
Qed.

Lemma last_char_nonempty p s : last_char p s = true -> s <> "".
Proof. destruct s; [discriminate|discriminate]. Qed.

Lemma last_char_cons p c s :
  s <> "" -> last_char p (String c s) = last_char p s.
Proof. destruct s; [congruence|reflexivity]. Qed.

Lemma blank_last_char s : blank s = true -> last_char not_space s = false.
Proof.
  unfold blank. induction s as [|c s IH]; [reflexivity|].
  simpl. intros H. apply andb_true_iff in H. destruct H as [Hc Hs].
  destruct s; [unfold not_space; now rewrite Hc|]. now apply IH.
Qed.

Lemma has_keyword_suffix (a b : string) :
  has_keyword (a ++ b) = false -> has_keyword b = false.
Proof.
  induction a as [|c a IH]; [auto|].
  simpl append. intros H. apply IH.
  change (has_keyword (String c (a ++ b)))
    with (keyword_here (String c (a ++ b)) || has_keyword (a ++ b)) in H.
  now apply orb_false_iff in H.
Qed.

(** ** What the greedy and the lazy repetition take *)

Lemma rep_greedy_max p : forall t min i rest g k res,
  all_chars p t = true -> first_char p rest = false ->
  min <= String.length t ->
  k (i + String.length t) rest g = Some res ->
  rep_greedy p min i (t ++ rest) g k = Some res.
Proof.
  induction t as [|c t IH]; intros min i rest g k res Ht Hr Hmin Hk.
  - simpl in *. rewrite Nat.add_0_r in Hk.
    assert (min = 0) by lia. subst min.
    destruct rest as [|d rest]; simpl; [exact Hk|].
    simpl in Hr. now rewrite Hr.
  - simpl in *. apply andb_true_iff in Ht. destruct Ht as [Hc Ht].
    rewrite Hc.
    rewrite (IH (Nat.pred min) (S i) rest g k res); auto; [lia|].
    now replace (S i + String.length t) with (i + S (String.length t)) by lia.
Qed.

Lemma rep_lazy_first p : forall t min i rest g k res,
  all_chars p t = true -> min <= String.length t ->
  (forall t1 t2, t = t1 ++ t2 -> t2 <> "" -> min <= String.length t1 ->
                 k (i + String.length t1) (t2 ++ rest) g = None) ->
  k (i + String.length t) rest g = Some res ->
  rep_lazy p min i (t ++ rest) g k = Some res.
Proof.
  induction t as [|c t IH]; intros min i rest g k res Ht Hmin Hno Hk.
  - simpl in *. rewrite Nat.add_0_r in Hk.
    assert (min = 0) by lia. subst min.
    destruct rest; simpl; now rewrite Hk.
  - simpl in Ht. apply andb_true_iff in Ht. destruct Ht as [Hc Ht].
    assert (Hnext : forall m, m <= String.length t ->
              (forall t1 t2, t = t1 ++ t2 -> t2 <> "" -> m <= String.length t1 ->
                 k (S i + String.length t1) (t2 ++ rest) g = None) ->
              rep_lazy p m (S i) (t ++ rest) g k = Some res).
    { intros m Hm Hno'. apply IH; auto.
      now replace (S i + String.length t) with (i + String.length (String c t))
        by (simpl; lia). }
    assert (Hshift : forall m, Nat.pred min <= m -> forall t1 t2,
              t = t1 ++ t2 -> t2 <> "" -> m <= String.length t1 ->
              k (S i + String.length t1) (t2 ++ rest) g = None).
    { intros m Hm t1 t2 E Hne Hlen.
      replace (S i + String.length t1) with (i + String.length (String c t1))
        by (simpl; lia).
      apply Hno; [now rewrite E|exact Hne|simpl; lia]. }
    destruct min; simpl.
    + assert (H0 : k (i + String.length "") (String c t ++ rest) g = None).
      { apply Hno; [reflexivity|discriminate|simpl; lia]. }
      simpl in H0. rewrite Nat.add_0_r in H0. rewrite H0, Hc. apply Hnext; [lia|]. apply (Hshift 0). simpl. lia.
    + rewrite Hc. apply Hnext; [simpl in Hmin; lia|]. apply (Hshift min). simpl. lia.
Qed.

(** ** What a match of each part says of the text *)

Lemma lit_match_lower l : forall t rest,
  lit_match l (t ++ rest) = Some rest -> String.length t = String.length l ->
  lower t = lower l.
Proof.
  induction l as [|a l IH]; intros [|c t] rest H Hlen; simpl in *;
    try discriminate; [reflexivity|].
  destruct (Ascii.eqb (lower_char a) (lower_char c)) eqn:E; [|discriminate].
  apply Ascii.eqb_eq in E. rewrite E. f_equal. apply (IH t rest); auto.
Qed.

Lemma lit_match_prefix l : forall t rest,
  lower t = lower l -> lit_match l (t ++ rest) = Some rest.
Proof.
  induction l as [|a l IH]; intros [|c t] rest H; simpl in *;
    try discriminate; [reflexivity|].
  inversion H. rewrite H1, Ascii.eqb_refl. now apply IH.
Qed.

Lemma at_end_blank s : at_end s = true -> blank s = true.
Proof.
  destruct s as [|c [|d s]]; simpl; try discriminate; [reflexivity|].
  intros H. apply Ascii.eqb_eq in H. now subst c.
Qed.

Lemma blank_app a b : blank (a ++ b) = blank a && blank b.
Proof. apply all_chars_app. Qed.

Lemma pat_end_sound i s g k res :
  rmatch pat_end i s g k = Some res -> blank s = true.
Proof.
  intros H. apply rmatch_sound in H.
  destruct H as (t & rest & g' & -> & M & _).
  unfold pat_end in M. inv_matches.
  match goal with
  | H1 : all_chars is_space ?t = true, H2 : at_end ?r = true |- _ =>
      rewrite !blank_app; apply at_end_blank in H2; unfold blank in *;
      now rewrite H1, H2
  end.
Qed.

Lemma pat_keyword_sound i s g k res :
  rmatch pat_keyword i s g k = Some res ->
  exists x1 x2 x3 tail,
    s = x1 ++ x2 ++ x3 ++ tail
    /\ blank x1 = true /\ x1 <> ""
    /\ String.length x2 = 2 /\ is_keyword x2 = true
    /\ blank x3 = true /\ x3 <> "".
Proof.
  intros H. apply rmatch_sound in H.
  destruct H as (t & rest & g' & -> & M & _).
  unfold pat_keyword in M. inv_matches.
  all: match goal with
       | H1 : all_chars is_space ?a = true, L1 : 1 <= String.length ?a,
         HL : lit_match ?l (?b ++ _) = Some _, LL : String.length ?b = _,
         H3 : all_chars is_space ?c = true, L3 : 1 <= String.length ?c,
         M : matches pat_to _ _ ?d _ _ |- _ =>
           exists a, b, c, (d ++ rest);
           rewrite !append_assoc; split; [reflexivity|];
           pose proof (lit_match_lower _ _ _ HL LL) as Hlow;
           repeat split; auto;
           try (intros ->; simpl in *; lia);
           unfold is_keyword; rewrite Hlow; reflexivity
       end.
Qed.

Lemma rmatch_seq r1 r2 i s g k :
  rmatch (Seq r1 r2) i s g k
  = rmatch r1 i s g (fun i' s' g' => rmatch r2 i' s' g' k).
Proof. reflexivity. Qed.

Lemma pat_from_sound i s g k res :
  rmatch pat_from i s g k = Some res ->
  exists y0 f y1 tail,
    s = y0 ++ f ++ y1 ++ tail
    /\ blank y0 = true
    /\ first_char not_digit_space f = true /\ all_chars not_0_9 f = true
    /\ blank y1 = true /\ y1 <> "".
Proof.
  intros H.
  change (rmatch ((Rep false 0 is_space ;;
                   Grp "from" (Cls not_digit_space ;; Rep true 0 not_0_9)) ;;
                  pat_keyword) i s g k = Some res) in H.
  rewrite rmatch_seq in H. apply rmatch_sound in H.
  destruct H as (t & rest & g' & -> & M & H).
  cbv beta in H. apply pat_keyword_sound in H.
  destruct H as (x1 & x2 & x3 & tail & -> & Hx1 & Hn1 & _).
  inv_matches.
  match goal with
  | H0 : all_chars is_space ?y0 = true, Hc : not_digit_space ?c = true,
    Hf : all_chars not_0_9 ?f = true |- _ =>
      exists y0, (String c f), x1, (x2 ++ x3 ++ tail);
      repeat split; auto;
      [ now rewrite !append_assoc
      | simpl; now rewrite (not_digit_space_not_digit c Hc), Hf ]
  end.
Qed.

Lemma pat_convert_sound i s g k res :
  rmatch pat_convert i s g k = Some res ->
  exists x y tail,
    s = x ++ y ++ tail /\ lower x = "convert" /\ blank y = true /\ y <> "".
Proof.
  intros H. apply rmatch_sound in H.
  destruct H as (t & rest & g' & -> & M & _).
  unfold pat_convert in M. inv_matches.
  match goal with
  | HL : lit_match ?l (?x ++ _) = Some _, LL : String.length ?x = _,
    Hy : all_chars is_space ?y = true, Ly : 1 <= String.length ?y |- _ =>
      exists x, y, rest; rewrite !append_assoc;
      pose proof (lit_match_lower _ _ _ HL LL) as Hlow;
      repeat split; auto; intros ->; simpl in *; lia
  end.
Qed.

(** ** Where a match cannot lie *)

(** A text without white space that ends with a digit is not a text
    without digits followed by white space, whatever follows. *)
Lemma no_split : forall x f y tail tail',
  all_chars not_space x = true -> last_char is_digit x = true ->
  all_chars not_0_9 f = true -> blank y = true -> y <> "" ->
  x ++ tail = f ++ y ++ tail' -> False.
Proof.
  induction x as [|a x IH]; intros f y tail tail' Hx Hl Hf Hy Hne E;
    [discriminate|].
  simpl in Hx. apply andb_true_iff in Hx. destruct Hx as [Ha Hx].
  destruct f as [|b f].
  - destruct y as [|d y]; [congruence|]. simpl in E. injection E as Ed E.
    subst d. unfold blank in Hy. simpl in Hy. apply andb_true_iff in Hy.
    unfold not_space in Ha. destruct Hy as [Hd _]. now rewrite Hd in Ha.
  - simpl in E. injection E as Eb E. subst b.
    simpl in Hf. apply andb_true_iff in Hf. destruct Hf as [Hb Hf].
    destruct x as [|a' x].
    + simpl in Hl. unfold not_0_9 in Hb. now rewrite Hl in Hb.
    + apply (IH f y tail tail'); auto.
Qed.

Lemma keyword_letters b c :
  is_keyword (String b (String c "")) = true ->
  is_space b = false /\ is_space c = false.
Proof.
  unfold is_keyword. simpl. intros H.
  assert (Hb : is_alpha (lower_char b) = true /\ is_alpha (lower_char c) = true).
  { apply orb_true_iff in H. destruct H as [H|H];
      apply andb_true_iff in H; destruct H as [H1 H2];
      apply Ascii.eqb_eq in H1;
      apply andb_true_iff in H2; destruct H2 as [H2 _];
      apply Ascii.eqb_eq in H2; rewrite H1, H2; split; reflexivity. }
  destruct Hb as [Hb Hc]. apply is_alpha_lower in Hb. apply is_alpha_lower in Hc.
  split; [revert Hb; each_char b|revert Hc; each_char c].
Qed.

(** A text that ends with no white space, and in which white space, a
    keyword and white space begin, holds that keyword. *)
Lemma keyword_found : forall f x1 x2 x3 tail tail',
  last_char not_space f = true -> first_char is_space tail = true ->
  blank x1 = true -> x1 <> "" ->
  String.length x2 = 2 -> is_keyword x2 = true ->
  blank x3 = true -> x3 <> "" ->
  f ++ tail = x1 ++ x2 ++ x3 ++ tail' ->
  has_keyword f = true.
Proof.
  induction f as [|a f IH]; intros x1 x2 x3 tail tail' Hl Ht H1 Hn1 L2 K2 H3 Hn3 E;
    [discriminate|].
  destruct x1 as [|a' x1]; [congruence|].
  simpl in E. injection E as Ea E. subst a'.
  unfold blank in H1. simpl in H1. apply andb_true_iff in H1.
  destruct H1 as [Ha H1].
  assert (Hf : f <> "").
  { intros ->. simpl in Hl. unfold not_space in Hl. now rewrite Ha in Hl. }
  rewrite (last_char_cons _ a f Hf) in Hl.
  change (has_keyword (String a f)) with (keyword_here (String a f) || has_keyword f).
  destruct x1 as [|a1 x1].
  - (* the keyword begins here *)
    apply orb_true_iff. left.
    destruct x2 as [|b [|c [|e x2]]]; try discriminate L2.
    destruct x3 as [|d x3]; [congruence|].
    unfold blank in H3. simpl in H3. apply andb_true_iff in H3.
    destruct H3 as [Hd _].
    destruct (keyword_letters b c K2) as [Hb Hc].
    destruct f as [|b' f]; [congruence|].
    simpl in E. injection E as Eb E. subst b'.
    destruct f as [|c' f].
    + (* the text ends within the keyword *)
      exfalso. simpl in E. destruct tail as [|t0 tail]; [discriminate|].
      injection E as Et E. subst t0. simpl in Ht. congruence.
    + simpl in E. injection E as Ec E. subst c'.
      simpl. rewrite Ha, K2. simpl.
      destruct f as [|d' f]; [reflexivity|].
      simpl in E. injection E as Ed E. now subst d'.
  - apply orb_true_iff. right.
    apply (IH (String a1 x1) x2 x3 tail tail'); auto; discriminate.
Qed.

(** ** The parts that fail *)

Lemma not_some_none {A : Type} (o : option A) :
  (forall x, o = Some x -> False) -> o = None.
Proof. destruct o; [intros H; exfalso; now apply (H a)|reflexivity]. Qed.

Lemma pat_end_fails i t w g k :
  last_char not_space t = true -> rmatch pat_end i (t ++ w) g k = None.
Proof.
  intros Hl. apply not_some_none. intros res H.
  apply pat_end_sound in H. rewrite blank_app in H.
  apply andb_true_iff in H. destruct H as [H _].
  apply blank_last_char in H. congruence.
Qed.

Lemma pat_keyword_fails i f tail g k :
  last_char not_space f = true -> has_keyword f = false ->
  first_char is_space tail = true ->
  rmatch pat_keyword i (f ++ tail) g k = None.
Proof.
  intros Hl Hk Ht. apply not_some_none. intros res H.
  apply pat_keyword_sound in H.
  destruct H as (x1 & x2 & x3 & tail' & E & H1 & Hn1 & L2 & K2 & H3 & Hn3).
  rewrite (keyword_found f x1 x2 x3 tail tail') in Hk; auto. discriminate.
Qed.

Lemma pat_from_fails i x tail g k :
  all_chars not_space x = true -> last_char is_digit x = true ->
  rmatch pat_from i (x ++ tail) g k = None.
Proof.
  intros Hx Hl. apply not_some_none. intros res H.
  apply pat_from_sound in H.
  destruct H as (y0 & f & y1 & tail' & E & H0 & Hc & Hf & H1 & Hn1).
  destruct y0 as [|d y0].
  - simpl in E. exact (no_split x f y1 tail tail' Hx Hl Hf H1 Hn1 E).
  - destruct x as [|a x]; [discriminate|].
    simpl in E. injection E as Ed E. subst d.
    unfold blank in H0. simpl in H0, Hx.
    apply andb_true_iff in H0. apply andb_true_iff in Hx.
    destruct H0 as [Hd _]. destruct Hx as [Ha _].
    unfold not_space in Ha. now rewrite Hd in Ha.
Qed.

Lemma lower_all_chars p (x l : string) :
  case_blind_class p -> lower x = l -> all_chars p l = true ->
  all_chars p x = true.
Proof.
  intros Hp <-. induction x as [|c x IH]; simpl; auto.
  rewrite (Hp c). intros H. apply andb_true_iff in H. destruct H as [Hc Hx].
  now rewrite Hc, IH.
Qed.

Lemma pat_convert_fails i x tail g k :
  all_chars not_space x = true -> last_char is_digit x = true ->
  rmatch pat_convert i (x ++ tail) g k = None.
Proof.
  intros Hx Hl. apply not_some_none. intros res H.
  apply pat_convert_sound in H.
  destruct H as (c & y & tail' & E & Hc & Hy & Hny).
  apply (no_split x c y tail tail'); auto.
  apply (lower_all_chars not_0_9 c "convert"); auto using not_0_9_case_blind.
Qed.

(** ** The parts that match *)

Lemma first_char_not_space_app (t tail : string) :
  first_char not_space t = true -> first_char is_space (t ++ tail) = false.
Proof.
  destruct t as [|c t]; [discriminate|]. simpl. unfold not_space.
  now destruct (is_space c).
Qed.

Lemma all_not_space_first (v : string) :
  all_chars not_space v = true -> v <> "" -> first_char not_space v = true.
Proof.
  destruct v as [|c v]; [congruence|]. simpl. intros H _.
  now apply andb_true_iff in H.
Qed.

Lemma blank_length (w : string) : w <> "" -> 1 <= String.length w.
Proof. destruct w; [congruence|simpl; lia]. Qed.

Lemma pat_end_matches i w g :
  blank w = true -> rmatch pat_end i w g final = Some g.
Proof.
  intros Hw. unfold pat_end. rewrite rmatch_seq.
  rewrite <- (append_nil_r w) at 1. simpl rmatch.
  apply rep_greedy_max; auto. lia.
Qed.

Lemma pat_to_matches i t w g :
  plain_target t = true -> blank w = true ->
  rmatch pat_to i (t ++ w) g final = Some (("to", t) :: g).
Proof.
  unfold plain_target. intros Ht Hw.
  apply andb_true_iff in Ht. destruct Ht as [Ht Hl].
  apply andb_true_iff in Ht. destruct Ht as [Hf Hd].
  unfold pat_to. rewrite rmatch_seq.
  change (rmatch (Grp "to" (Rep true 1 dot)) i (t ++ w) g
            (fun i' s' g' => rmatch pat_end i' s' g' final))
    with (rep_lazy dot 1 i (t ++ w) g
            (fun i' s' g' =>
               rmatch pat_end i' s' (("to", substring 0 (i' - i) (t ++ w)) :: g')
                      final)).
  apply rep_lazy_first; auto.
  - apply blank_length. now apply (last_char_nonempty not_space).
  - intros t1 t2 E Hne _. apply pat_end_fails.
    rewrite E in Hl. now rewrite last_char_app in Hl.
  - rewrite pat_end_matches by exact Hw.
    replace (i + String.length t - i) with (String.length t) by lia.
    now rewrite substring_prefix.
Qed.

Lemma keyword_cases (kw : string) :
  is_keyword kw = true -> lower kw = "to" \/ lower kw = "in".
Proof.
  unfold is_keyword. intros H. apply orb_true_iff in H.
  destruct H as [H|H]; apply String.eqb_eq in H; auto.
Qed.

Lemma keyword_first (kw tail : string) :
  is_keyword kw = true -> first_char is_space (kw ++ tail) = false.
Proof.
  intros H. destruct (keyword_cases kw H) as [E|E];
    destruct kw as [|b kw]; try discriminate; simpl in *;
    injection E as Eb _;
    assert (Ha : is_alpha (lower_char b) = true) by (rewrite Eb; reflexivity);
    apply is_alpha_lower in Ha; revert Ha; each_char b.
Qed.

Lemma rmatch_alt r1 r2 i s g k :
  rmatch (Alt r1 r2) i s g k
  = match rmatch r1 i s g k with
    | Some res => Some res
    | None => rmatch r2 i s g k
    end.
Proof. reflexivity. Qed.

Lemma rmatch_lit l i s g k :
  rmatch (Lit l) i s g k
  = match lit_match l s with
    | Some s' => k (i + String.length l) s' g
    | None => None
    end.
Proof. reflexivity. Qed.

Lemma alt_keyword_matches i kw tail g (k : cont) res :
  is_keyword kw = true ->
  k (i + 2) tail g = Some res ->
  rmatch (Alt (Lit "to") (Lit "in")) i (kw ++ tail) g k = Some res.
Proof.
  intros H Hk. rewrite rmatch_alt, !rmatch_lit.
  destruct (keyword_cases kw H) as [E|E].
  - rewrite (lit_match_prefix "to" kw tail E). simpl String.length.
    now rewrite Hk.
  - assert (Hno : lit_match "to" (kw ++ tail) = None).
    { destruct kw as [|b kw]; [discriminate|]. simpl in E. injection E as Eb _.
      simpl. now rewrite Eb. }
    rewrite Hno. rewrite (lit_match_prefix "in" kw tail E). exact Hk.
Qed.

Lemma pat_keyword_matches i w2 kw w3 t w4 g :
  blank w2 = true -> w2 <> "" -> is_keyword kw = true ->
  blank w3 = true -> w3 <> "" ->
  plain_target t = true -> blank w4 = true ->
  rmatch pat_keyword i (w2 ++ kw ++ w3 ++ t ++ w4) g final
  = Some (("to", t) :: g).
Proof.
  intros H2 Hn2 Hk H3 Hn3 Ht H4.
  unfold pat_keyword. rewrite rmatch_seq.
  change (rmatch (Rep false 1 is_space) i (w2 ++ kw ++ w3 ++ t ++ w4) g)
    with (rep_greedy is_space 1 i (w2 ++ kw ++ w3 ++ t ++ w4) g).
  apply rep_greedy_max; auto using keyword_first, blank_length.
  rewrite rmatch_seq. apply alt_keyword_matches; [exact Hk|].
  rewrite rmatch_seq.
  change (rmatch (Rep false 1 is_space) (i + String.length w2 + 2)
            (w3 ++ t ++ w4) g)
    with (rep_greedy is_space 1 (i + String.length w2 + 2) (w3 ++ t ++ w4) g).
  apply rep_greedy_max; auto using blank_length.
  - apply first_char_not_space_app. unfold plain_target in Ht.
    apply andb_true_iff in Ht. destruct Ht as [Ht _].
    now apply andb_true_iff in Ht.
  - now apply pat_to_matches.
Qed.

Lemma first_char_blank (w tail : string) :
  w <> "" -> blank w = true -> first_char is_space (w ++ tail) = true.
Proof.
  destruct w as [|c w]; [congruence|]. intros _ H. unfold blank in H.
  simpl in *. now apply andb_true_iff in H.
Qed.

Lemma pat_from_matches i w1 u w2 kw w3 t w4 g :
  blank w1 = true -> plain_source u = true ->
  blank w2 = true -> w2 <> "" -> is_keyword kw = true ->
  blank w3 = true -> w3 <> "" ->
  plain_target t = true -> blank w4 = true ->
  rmatch pat_from i (w1 ++ u ++ w2 ++ kw ++ w3 ++ t ++ w4) g final
  = Some (("to", t) :: ("from", u) :: g).
Proof.
  intros H1 Hu H2 Hn2 Hk H3 Hn3 Ht H4.
  unfold plain_source in Hu.
  apply andb_true_iff in Hu. destruct Hu as [Hu Hnk].
  apply andb_true_iff in Hu. destruct Hu as [Hu Hl].
  apply andb_true_iff in Hu. destruct Hu as [Hc Hd].
  apply negb_true_iff in Hnk.
  destruct u as [|c u]; [discriminate|]. simpl in Hc, Hd.
  apply andb_true_iff in Hd. destruct Hd as [_ Hd].
  unfold pat_from. rewrite rmatch_seq.
  change (rmatch (Rep false 0 is_space) i
            (w1 ++ String c u ++ w2 ++ kw ++ w3 ++ t ++ w4) g)
    with (rep_greedy is_space 0 i
            (w1 ++ String c u ++ w2 ++ kw ++ w3 ++ t ++ w4) g).
  apply rep_greedy_max; auto; [|lia|].
  { simpl. unfold not_digit_space in Hc. apply negb_true_iff in Hc.
    now apply orb_false_iff in Hc. }
  rewrite rmatch_seq.
  set (j := i + String.length w1).
  set (tail := w2 ++ kw ++ w3 ++ t ++ w4).
  change (rmatch (Grp "from" (Cls not_digit_space ;; Rep true 0 not_0_9)) j
            (String c u ++ tail) g
            (fun i' s' g' => rmatch pat_keyword i' s' g' final))
    with (if not_digit_space c
          then rep_lazy not_0_9 0 (S j) (u ++ tail) g
                 (fun i' s' g' =>
                    rmatch pat_keyword i' s'
                           (("from", substring 0 (i' - j) (String c u ++ tail))
                              :: g') final)
          else None).
  rewrite Hc. apply rep_lazy_first; auto; [lia| |].
  - intros f1 f2 E Hne _. apply pat_keyword_fails.
    + assert (Hl' : last_char not_space (String c (f1 ++ f2)) = true)
        by now rewrite <- E.
      change (String c (f1 ++ f2)) with (String c f1 ++ f2) in Hl'.
      now rewrite last_char_app in Hl'.
    + apply (has_keyword_suffix (String c f1)). simpl. now rewrite <- E.
    + now apply first_char_blank.
  - unfold tail at 1. rewrite pat_keyword_matches; auto.
    replace (S j + String.length u - j) with (S (String.length u)) by lia.
    change (String c u ++ tail) with (String c (u ++ tail)).
    simpl substring. now rewrite substring_prefix.
Qed.

Lemma plain_value_parts (v : string) :
  plain_value v = true ->
  all_chars value_class v = true /\ all_chars not_space v = true
  /\ last_char is_digit v = true.
Proof.
  unfold plain_value. intros H.
  apply andb_true_iff in H. destruct H as [H Hl].
  apply andb_true_iff in H. tauto.
Qed.

Lemma plain_value_suffix (v1 v2 : string) :
  plain_value (v1 ++ v2) = true -> v2 <> "" ->
  all_chars not_space v2 = true /\ last_char is_digit v2 = true.
Proof.
  intros H Hne. apply plain_value_parts in H. destruct H as (_ & Hs & Hl).
  rewrite all_chars_app in Hs. apply andb_true_iff in Hs.
  rewrite last_char_app in Hl by exact Hne. tauto.
Qed.

Lemma pat_value_matches i v w1 u w2 kw w3 t w4 g :
  plain_value v = true ->
  blank w1 = true -> plain_source u = true ->
  blank w2 = true -> w2 <> "" -> is_keyword kw = true ->
  blank w3 = true -> w3 <> "" ->
  plain_target t = true -> blank w4 = true ->
  rmatch pat_value i (v ++ w1 ++ u ++ w2 ++ kw ++ w3 ++ t ++ w4) g final
  = Some (("to", t) :: ("from", u) :: ("value", v) :: g).
Proof.
  intros Hv H1 Hu H2 Hn2 Hk H3 Hn3 Ht H4.
  destruct (plain_value_parts v Hv) as (Hc & Hs & Hl).
  unfold pat_value. rewrite rmatch_seq.
  set (tail := w1 ++ u ++ w2 ++ kw ++ w3 ++ t ++ w4).
  change (rmatch (Grp "value" (Rep true 1 value_class)) i (v ++ tail) g
            (fun i' s' g' => rmatch pat_from i' s' g' final))
    with (rep_lazy value_class 1 i (v ++ tail) g
            (fun i' s' g' =>
               rmatch pat_from i' s'
                      (("value", substring 0 (i' - i) (v ++ tail)) :: g')
                      final)).
  apply rep_lazy_first; auto.
  - apply blank_length. now apply (last_char_nonempty is_digit).
  - intros v1 v2 E Hne _. rewrite E in Hv.
    destruct (plain_value_suffix v1 v2 Hv Hne) as [Hs2 Hl2].
    now apply pat_from_fails.
  - unfold tail at 1. rewrite pat_from_matches; auto.
    replace (i + String.length v - i) with (String.length v) by lia.
    now rewrite substring_prefix.
Qed.

(** ** The groups of a plain input *)

Lemma plain_value_first (v tail : string) :
  plain_value v = true -> first_char is_space (v ++ tail) = false.
Proof.
  intros Hv. destruct (plain_value_parts v Hv) as (_ & Hs & Hl).
  apply first_char_not_space_app. apply all_not_space_first; auto.
  now apply (last_char_nonempty is_digit).
Qed.

Lemma rmatch_opt r i s g k :
  rmatch (Opt r) i s g k
  = match rmatch r i s g k with
    | Some res => Some res
    | None => k i s g
    end.
Proof. reflexivity. Qed.

Lemma plain_input_groups (w0 pre v w1 u w2 kw w3 t w4 : string) :
  blank w0 = true -> convert_prefix pre -> plain_value v = true ->
  blank w1 = true -> plain_source u = true ->
  blank w2 = true -> w2 <> "" -> is_keyword kw = true ->
  blank w3 = true -> w3 <> "" ->
  plain_target t = true -> blank w4 = true ->
  re_match EXPR_PAT (w0 ++ pre ++ v ++ w1 ++ u ++ w2 ++ kw ++ w3 ++ t ++ w4)
  = Some [("to", t); ("from", u); ("value", v)].
Proof.
  intros H0 Hpre Hv H1 Hu H2 Hn2 Hk H3 Hn3 Ht H4.
  unfold re_match. rewrite EXPR_PAT_parts.
  set (tail := w1 ++ u ++ w2 ++ kw ++ w3 ++ t ++ w4).
  change (fun (_ : nat) (_ : string) (g : captures) => Some g) with final.
  rewrite rmatch_seq. change (rmatch Bol 0 (w0 ++ pre ++ v ++ tail) []
    (fun i' s' g' =>
       rmatch (Rep false 0 is_space ;; Opt pat_convert ;; pat_value) i' s' g' final))
    with (rmatch (Rep false 0 is_space ;; Opt pat_convert ;; pat_value) 0
            (w0 ++ pre ++ v ++ tail) [] final).
  rewrite rmatch_seq.
  change (rmatch (Rep false 0 is_space) 0 (w0 ++ pre ++ v ++ tail) [])
    with (rep_greedy is_space 0 0 (w0 ++ pre ++ v ++ tail) []).
  assert (Hvalue : forall i, rmatch pat_value i (v ++ tail) [] final
                             = Some [("to", t); ("from", u); ("value", v)]).
  { intros i. unfold tail. now apply pat_value_matches. }
  destruct Hpre as [->|(c & w & -> & Hc & Hw & Hnw)].
  - apply rep_greedy_max;
      [exact H0|exact (plain_value_first v tail Hv)|lia|].
    change ("" ++ v ++ tail) with (v ++ tail).
    rewrite rmatch_seq, rmatch_opt.
    rewrite pat_convert_fails;
      [apply Hvalue| |];
      destruct (plain_value_parts v Hv) as (_ & ? & ?); assumption.
  - rewrite append_assoc.
    apply rep_greedy_max; [exact H0| |lia|].
    { destruct c as [|c0 c]; [discriminate|]. simpl.
      simpl in Hc. injection Hc as Hc0 _.
      assert (Ha : is_alpha (lower_char c0) = true) by (rewrite Hc0; reflexivity).
      apply is_alpha_lower in Ha. revert Ha. each_char c0. }
    rewrite rmatch_seq, rmatch_opt.
    assert (Hopt : rmatch pat_convert (0 + String.length w0)
                     (c ++ w ++ v ++ tail) []
                     (fun i' s' g' => rmatch pat_value i' s' g' final)
                   = Some [("to", t); ("from", u); ("value", v)]).
    { unfold pat_convert. rewrite rmatch_seq, rmatch_lit.
      rewrite (lit_match_prefix "convert" c (w ++ v ++ tail) Hc).
      change (rmatch (Rep false 1 is_space)
                (0 + String.length w0 + String.length "convert")
                (w ++ v ++ tail) [])
        with (rep_greedy is_space 1
                (0 + String.length w0 + String.length "convert")
                (w ++ v ++ tail) []).
      apply rep_greedy_max;
        [exact Hw|now apply plain_value_first|now apply blank_length|].
      apply Hvalue. }
    now rewrite Hopt.
Qed.

Lemma plain_groups (p : phrase) :
  plain p ->
  re_match EXPR_PAT (text p)
  = Some [("to", target p); ("from", source p); ("value", value_text p)].
Proof.
  intros (H0 & Hpre & Hv & H1 & Hu & _ & H2 & Hn2 & Hk & H3 & Hn3 & Ht & _ & H4).
  unfold text. now apply plain_input_groups.
Qed.

Lemma rstrip_plain (s : string) : last_char not_space s = true -> rstrip s = s.
Proof.
  induction s as [|c s IH]; [discriminate|].
  destruct s as [|d s].
  - simpl. unfold not_space. now destruct (is_space c).
  - intros H. rewrite (last_char_cons not_space c (String d s)) in H
      by discriminate.
    specialize (IH H).
    change (rstrip (String c (String d s)))
      with (match rstrip (String d s) with
            | EmptyString => if is_space c then EmptyString else String c EmptyString
            | t => String c t
            end).
    now rewrite IH.
Qed.

Lemma strip_plain (s : string) :
  first_char not_space s = true -> last_char not_space s = true -> strip s = s.
Proof.
  intros Hf Hl. unfold strip. rewrite lstrip_id; [now apply rstrip_plain|].
  destruct s as [|c s]; [reflexivity|]. simpl in *. unfold not_space in Hf.
  unfold starts_with_space. simpl. now destruct (is_space c).
Qed.

Lemma strip_plain_source (u : string) : plain_source u = true -> strip u = u.
Proof.
  unfold plain_source. intros H.
  apply andb_true_iff in H. destruct H as [H _].
  apply andb_true_iff in H. destruct H as [H Hl].
  apply andb_true_iff in H. destruct H as [Hf _].
  apply strip_plain; [|exact Hl].
  destruct u as [|c u]; [discriminate|]. simpl in *.
  unfold not_digit_space in Hf. unfold not_space.
  destruct (is_space c); [|reflexivity]. now rewrite orb_true_r in Hf.
Qed.

Lemma strip_plain_target (t : string) : plain_target t = true -> strip t = t.
Proof.
  unfold plain_target. intros H.
  apply andb_true_iff in H. destruct H as [H Hl].
  apply andb_true_iff in H. destruct H as [Hf _].
  now apply strip_plain.
Qed.

Lemma lower_lstrip s : lower (lstrip s) = lstrip (lower s).
Proof.
  induction s as [|c s IH]; [reflexivity|]. simpl.
  rewrite (is_space_case_blind c). now destruct (is_space c).
Qed.

Lemma lower_rstrip s : lower (rstrip s) = rstrip (lower s).
Proof.
  induction s as [|c s IH]; [reflexivity|]. simpl.
  rewrite <- IH, (is_space_case_blind c).
  destruct (rstrip s); simpl; [now destruct (is_space c)|reflexivity].
Qed.

Lemma lower_strip s : lower (strip s) = strip (lower s).
Proof. unfold strip. now rewrite lower_rstrip, lower_lstrip. Qed.

Lemma strip_case a a' : lower a = lower a' -> lower (strip a) = lower (strip a').
Proof. intros H. now rewrite !lower_strip, H. Qed.

(** Two inputs that differ in case only, and in which the value is
    written the same, convert alike. *)
Lemma convert_case rt deg s s' m m' :
  lower s = lower s' ->
  re_match EXPR_PAT s = Some m -> re_match EXPR_PAT s' = Some m' ->
  group m "value" = group m' "value" ->
  forall r, parse_and_convert rt s deg = Ok r
            <-> parse_and_convert rt s' deg = Ok r.
Proof.
  intros Hs Hm Hm' Hv.
  generalize (re_match_case s s' Hs). rewrite Hm, Hm'. simpl. intros Hg.
  apply (convert_alike rt deg s s' m m' Hm Hm').
  - now rewrite Hv.
  - apply resolve_alike_case, strip_case. now apply same_groups_group.
  - apply resolve_alike_case, strip_case. now apply same_groups_group.
Qed.

(** Two plain phrases with the same value text and unit texts that
    resolve alike convert alike. *)
Lemma convert_plain rt deg (p p' : phrase) :
  plain p -> plain p' -> value_text p = value_text p' ->
  resolve_alike ureg (source p) (source p') ->
  resolve_alike ureg (target p) (target p') ->
  forall r, parse_and_convert rt (text p) deg = Ok r
            <-> parse_and_convert rt (text p') deg = Ok r.
Proof.
  intros Hp Hp' Hv Hs Ht.
  pose proof (plain_groups p Hp) as Hm. pose proof (plain_groups p' Hp') as Hm'.
  destruct Hp as (_ & _ & _ & _ & Hu & _ & _ & _ & _ & _ & _ & Htg & _).
  destruct Hp' as (_ & _ & _ & _ & Hu' & _ & _ & _ & _ & _ & _ & Htg' & _).
  apply (convert_alike rt deg _ _ _ _ Hm Hm'); unfold group; simpl.
  - now rewrite Hv.
  - now rewrite (strip_plain_source _ Hu), (strip_plain_source _ Hu').
  - now rewrite (strip_plain_target _ Htg), (strip_plain_target _ Htg').
Qed.

Local Open Scope float_scope.

(** Two inputs that differ in case only: the matcher answers alike, and
    the two convert alike when the value is written the same. *)
Lemma case_variants rt deg s s' :
  lower s = lower s' ->
  match re_match EXPR_PAT s, re_match EXPR_PAT s' with
  | Some m, Some m' =>
      same_groups m m'
      /\ (group m "value" = group m' "value" ->
          forall r, parse_and_convert rt s deg = Ok r
                    <-> parse_and_convert rt s' deg = Ok r)
  | None, None =>
      parse_and_convert rt s deg = Raise CouldNotParse
      /\ parse_and_convert rt s' deg = Raise CouldNotParse
  | _, _ => False
  end.
Proof.
  intros Hs. generalize (re_match_case s s' Hs).
  destruct (re_match EXPR_PAT s) as [m|] eqn:Hm;
    destruct (re_match EXPR_PAT s') as [m'|] eqn:Hm'; simpl; try tauto.
  - intros Hg. split; [exact Hg|]. intros Hv.
    exact (convert_case rt deg s s' m m' Hs Hm Hm' Hv).
  - intros _. unfold parse_and_convert. now rewrite Hm, Hm'.
Qed.

(** C9, with the point where the code departs from it.

    Case.  The matcher does not tell apart two inputs that differ in the
    case of their letters only: it matches both, at the same places, or
    neither; and when the value is written the same in both, the two
    convert alike.

    Case and alias, on plain phrases.  A plain phrase is matched with its
    value text, source unit text and target unit text as its groups,
    whatever the white space, the keyword ([to] or [in], in any case) and
    the optional [convert]; so two plain phrases with the same value text,
    and with unit texts that every category resolves alike, give the
    identical result.  Unit texts that differ in case only resolve alike,
    and [kilometer] resolves like [km]: [convert("3 FT to CM")] is
    [convert("3 ft to cm")], and [convert("1 kilometer to m")] is
    [convert("1 km to m")].

    Where the code departs.  A registered spelling with a digit cannot be
    the source unit: [cu ft] and [ft^3] are spellings of the same unit,
    and [convert("1 cu ft to L")] converts while [convert("1 ft^3 to L")]
    is a parse error.  The alias [cu in] is cut at its [in]: as a target
    it converts, as a source the units read are [cu] and [to L].
    [list_units] offers the canonical names, [ft^3] among them, and every
    listed name with a digit fails to parse as a source unit. *)
Theorem case_and_alias_spelling :
  (forall rt deg s s',
     lower s = lower s' ->
     match re_match EXPR_PAT s, re_match EXPR_PAT s' with
     | Some m, Some m' =>
         same_groups m m'
         /\ (group m "value" = group m' "value" ->
             forall r, parse_and_convert rt s deg = Ok r
                       <-> parse_and_convert rt s' deg = Ok r)
     | None, None =>
         parse_and_convert rt s deg = Raise CouldNotParse
         /\ parse_and_convert rt s' deg = Raise CouldNotParse
     | _, _ => False
     end)
  /\ (forall p, plain p ->
        re_match EXPR_PAT (text p)
        = Some [("to", target p); ("from", source p); ("value", value_text p)])
  /\ (forall rt deg p p',
        plain p -> plain p' -> value_text p = value_text p' ->
        resolve_alike ureg (source p) (source p') ->
        resolve_alike ureg (target p) (target p') ->
        forall r, parse_and_convert rt (text p) deg = Ok r
                  <-> parse_and_convert rt (text p') deg = Ok r)
  /\ (forall a a', lower a = lower a' -> resolve_alike ureg a a')
  /\ resolve_alike ureg "kilometer" "km"
  /\ (forall rt deg, parse_and_convert rt "3 FT to CM" deg
                     = parse_and_convert rt "3 ft to cm" deg)
  /\ (forall rt deg, parse_and_convert rt "3 ft to cm" deg
                     = Ok (3.0, "ft", "length", 91.44000000000001, "cm"))
  /\ (forall rt deg, parse_and_convert rt "1 kilometer to m" deg
                     = parse_and_convert rt "1 km to m" deg)
  /\ (forall rt deg, parse_and_convert rt "1 km to m" deg
                     = Ok (1.0, "km", "length", 1000.0, "m"))
  /\ resolve_alike ureg "cu ft" "ft^3"
  /\ (forall rt deg, parse_and_convert rt "1 cu ft to L" deg
                     = Ok (1.0, "ft^3", "volume", 28.316846592000001, "L"))
  /\ (forall rt deg, parse_and_convert rt "1 ft^3 to L" deg = Raise CouldNotParse)
  /\ resolve_alike ureg "cu in" "in^3"
  /\ (forall rt deg, parse_and_convert rt "1 L to cu in" deg
                     = Ok (1.0, "L", "volume", 61.023744094732287, "in^3"))
  /\ (forall rt deg, parse_and_convert rt "1 cu in to L" deg
                     = Raise (NoCommonCategory "cu" "to L"))
  /\ In "ft^3" (list_units ureg "volume")
  /\ forallb listed_digit_names_fail (list_categories ureg) = true.
Proof.
  split; [exact case_variants|].
  split; [exact plain_groups|].
  split; [exact convert_plain|].
  split; [intros a a'; apply resolve_alike_case|].
  split; [unfold resolve_alike; vm_compute; repeat constructor|].
  split; [intros rt deg; vm_compute; reflexivity|].
  split; [intros rt deg; vm_compute; reflexivity|].
  split; [intros rt deg; vm_compute; reflexivity|].
  split; [intros rt deg; vm_compute; reflexivity|].
  split; [unfold resolve_alike; vm_compute; repeat constructor|].
  split; [intros rt deg; vm_compute; reflexivity|].
  split; [intros rt deg; vm_compute; reflexivity|].
  split; [unfold resolve_alike; vm_compute; repeat constructor|].
  split; [intros rt deg; vm_compute; reflexivity|].
  split; [intros rt deg; vm_compute; reflexivity|].
  split; [vm_compute; tauto|].
  vm_compute. reflexivity.
Qed.

(** The plain phrases of C9 at ["3 ft to cm"] and
    ["  Convert 3 FEET  in Centimeters "]. *)
Lemma case_and_alias_spelling_witness :
  parse_and_convert bare_runtime "3 ft to cm" false
  = Ok (3.0, "ft", "length", 91.44000000000001, "cm")
  <-> parse_and_convert bare_runtime "  Convert 3 FEET  in Centimeters " false
      = Ok (3.0, "ft", "length", 91.44000000000001, "cm").
Proof.
  apply (proj1 (proj2 (proj2 case_and_alias_spelling))
           bare_runtime false
           (mkPhrase "" "" "3" " " "ft" " " "to" " " "cm" "")
           (mkPhrase "  " "Convert " "3" " " "FEET" "  " "in" " "
                     "Centimeters" " ")).
  - unfold plain. simpl. repeat split; try reflexivity; try discriminate.
    now left.
  - unfold plain. simpl. repeat split; try reflexivity; try discriminate.
    right. exists "Convert", " ". repeat split; try reflexivity. discriminate.
  - reflexivity.
  - unfold resolve_alike. vm_compute. repeat constructor.
  - unfold resolve_alike. vm_compute. repeat constructor.
Defined.

Local Close Scope float_scope.

(** ** Batch *)

Lemma batch_fold rt deg (lines : list string) (out : list out_line) :
  fold_left (batch_step rt deg) lines out
  = (out ++ map (batch_record rt deg) (filter not_blank lines))%list.
Proof.
  revert out. induction lines as [|l lines IH]; intros out; simpl.
  - now rewrite app_nil_r.
  - rewrite IH. unfold batch_step, not_blank, batch_record.
    destruct (String.eqb (strip l) ""); simpl; [reflexivity|].
    destruct (parse_and_convert rt l deg); now rewrite <- app_assoc.
Qed.

(** A line that begins with [#] is not matched by the pattern. *)
Lemma hash_line_not_parsed rt deg (rest : string) :
  parse_and_convert rt (String "#" rest) deg = Raise CouldNotParse.
Proof. reflexivity. Qed.

(** C4, with the point where the code departs from it.  [run_batch]
    writes one record for each line that is not blank, in the order of the
    lines; a line that fails gives an error record in its place and the
    loop goes on: of three lines with a blank line among them and the
    second one malformed, it writes three records, the second an error.  A
    line that begins with [#] is not skipped: it gives an error record,
    the parse error.  The batch loop of the GUI module does skip such
    lines. *)
Theorem run_batch_records :
  (forall rt text deg,
     run_batch rt text deg
     = map (batch_record rt deg) (filter not_blank (splitlines (strip text))))
  /\ (forall rt deg rest,
        batch_record rt deg (String "#" rest)
        = ErrorLine (String "#" rest) CouldNotParse)
  /\ (forall rt deg,
        run_batch rt (join_lines ["# lengths"; "3 ft to cm"]) deg
        = [ErrorLine "# lengths" CouldNotParse;
           ResultLine (3.0, "ft", "length", 91.44000000000001, "cm")]%float)
  /\ gui_batch_lines (join_lines ["# lengths"; "3 ft to cm"]) = ["3 ft to cm"]
  /\ (forall rt deg,
        map is_error_line
            (run_batch rt (join_lines ["3 ft to cm"; ""; "1 m to kg"; "5 kg in lb"])
                       deg)
        = [false; true; false]).
Proof.
  split; [intros rt text deg; unfold run_batch; now rewrite batch_fold|].
  split; [intros rt deg rest; reflexivity|].
  repeat split; try (intros rt deg); vm_compute; reflexivity.
Qed.

(** * Further properties of the code *)

(** ** Sorted listings *)

Lemma lt_compare_trans : forall a b c : string,
  String.compare a b = Lt -> String.compare b c = Lt -> String.compare a c = Lt.
Proof.
  induction a as [|x a IH]; intros [|y b] [|z c]; simpl; try discriminate; auto.
  intros H1 H2.
  destruct (Ascii.compare x y) eqn:Exy; try discriminate.
  - apply Ascii.compare_eq_iff in Exy. subst y.
    destruct (Ascii.compare x z); auto. now apply (IH b c).
  - destruct (Ascii.compare y z) eqn:Eyz; try discriminate.
    + apply Ascii.compare_eq_iff in Eyz. subst z. now rewrite Exy.
    + unfold Ascii.compare in *. rewrite N.compare_lt_iff in *.
      assert (H : (N_of_ascii x < N_of_ascii z)%N) by lia.
      apply N.compare_lt_iff in H. now rewrite H.
Qed.

Lemma leb_trans (a b c : string) :
  String.leb a b = true -> String.leb b c = true -> String.leb a c = true.
Proof.
  unfold String.leb. intros H1 H2.
  destruct (String.compare a b) eqn:Eab; try discriminate;
  destruct (String.compare b c) eqn:Ebc; try discriminate.
  - apply String.compare_eq_iff in Eab. subst. now rewrite Ebc.
  - apply String.compare_eq_iff in Eab. subst. now rewrite Ebc.
  - apply String.compare_eq_iff in Ebc. subst. now rewrite Eab.
  - now rewrite (lt_compare_trans a b c Eab Ebc).
Qed.

Lemma insort_perm x l : Permutation (insort x l) (x :: l).
Proof.
  induction l as [|y l IH]; simpl; [reflexivity|].
  destruct (String.leb x y); [reflexivity|].
  rewrite IH. apply perm_swap.
Qed.

Lemma sorted_perm l : Permutation (sorted l) l.
Proof.
  induction l as [|x l IH]; simpl; [reflexivity|].
  rewrite insort_perm. now constructor.
Qed.

Lemma insort_hd x y l :
  String.leb y x = true -> HdRel (fun a b => String.leb a b = true) y l ->
  HdRel (fun a b => String.leb a b = true) y (insort x l).
Proof.
  intros Hyx H. destruct l as [|z l]; simpl.
  - now constructor.
  - destruct (String.leb x z); constructor; auto. now inversion H.
Qed.

Lemma insort_increasing x l : increasing l -> increasing (insort x l).
Proof.
  unfold increasing. induction l as [|y l IH]; simpl; intros H.
  - repeat constructor.
  - destruct (String.leb x y) eqn:E.
    + constructor; auto.
    + inversion H; subst. constructor; [now apply IH|].
      apply insort_hd; auto.
      destruct (String.leb_total x y) as [H'|H']; [congruence|exact H'].
Qed.

Lemma sorted_increasing l : increasing (sorted l).
Proof.
  induction l as [|x l IH]; simpl; [constructor|]. now apply insort_increasing.
Qed.

Lemma sorted_In l x : In x (sorted l) <-> In x l.
Proof.
  split; apply Permutation_in; [|symmetry]; apply sorted_perm.
Qed.

Lemma sorted_NoDup l : NoDup l -> NoDup (sorted l).
Proof.
  intros H. eapply Permutation_NoDup; [|exact H]. symmetry. apply sorted_perm.
Qed.

(** Keys of a dictionary after a store *)
Lemma dict_keys_set {V : Type} (d : dict V) k v :
  dict_keys (dict_set d k v)
  = if dict_mem d k then dict_keys d else (dict_keys d ++ [k])%list.
Proof.
  unfold dict_mem. induction d as [|[k' v'] d IH]; simpl; [reflexivity|].
  destruct (String.eqb k' k) eqn:E; simpl; [reflexivity|].
  rewrite IH. now destruct (dict_get d k).
Qed.

Lemma dict_mem_In {V : Type} (d : dict V) k :
  dict_mem d k = true <-> In k (dict_keys d).
Proof.
  unfold dict_mem. induction d as [|[k' v'] d IH]; simpl.
  - split; [discriminate|tauto].
  - destruct (String.eqb k' k) eqn:E.
    + apply String.eqb_eq in E. subst. split; auto.
    + apply String.eqb_neq in E. rewrite IH. split; [auto|]. intros [H|H]; [congruence|auto].
Qed.

Lemma dict_set_NoDup {V : Type} (d : dict V) k v :
  NoDup (dict_keys d) -> NoDup (dict_keys (dict_set d k v)).
Proof.
  intros H. rewrite dict_keys_set. destruct (dict_mem d k) eqn:E; [exact H|].
  apply NoDup_app; [exact H|repeat constructor; auto|].
  intros x Hx [<-|[]]. apply dict_mem_In in Hx. congruence.
Qed.

(** ** [add] and [get] *)

Lemma fold_set_other {V : Type} (keys : list string) (d : dict V) v k :
  ~ In k (map lower keys) ->
  dict_get (fold_left (fun c a => dict_set c (lower a) v) keys d) k
  = dict_get d k.
Proof.
  revert d. induction keys as [|a keys IH]; intros d Hn; simpl; [reflexivity|].
  rewrite IH.
  - apply dict_get_set_other. intros E. apply Hn. now left.
  - intros H. apply Hn. now right.
Qed.

Lemma alias_set_In nm als a : In a (alias_set nm als) <-> In a (nm :: als).
Proof. unfold alias_set. apply nodup_In. Qed.

Lemma in_map_lower_alias_set nm als k :
  In k (map lower (alias_set nm als)) <-> In k (map lower (nm :: als)).
Proof.
  rewrite !in_map_iff. split; intros (a & E & H); exists a; split; auto;
    now apply alias_set_In.
Qed.

Lemma get_add_key (reg : UnitRegistry) (category nm : string)
    (factor : option float) (offset : float) (tb fb : option transform)
    (als : list string) (key : string) :
  In (lower key) (map lower (nm :: als)) ->
  exists u,
    get (add reg category nm factor offset tb fb als) category key = Some u
    /\ name u = nm
    /\ (tb = None -> fb = None ->
        to_base u = _to_base factor offset
        /\ from_base u = _from_base factor offset)
    /\ (tb <> None \/ fb <> None ->
        to_base u = callable tb /\ from_base u = callable fb).
Proof.
  intros Hin. apply in_map_iff in Hin. destruct Hin as (a & Ea & Ha).
  apply alias_set_In in Ha.
  unfold get, add. rewrite dict_get_set_same, <- Ea.
  rewrite (fold_set_get _ _ _ a Ha).
  eexists. split; [reflexivity|].
  destruct tb, fb; simpl; repeat split; try discriminate; tauto.
Qed.

(** X1.  After [add(category, name, ...)], [get] finds the new unit in
    that category under the name and under every alias, in any case,
    whatever was stored under these keys before; the unit has the name
    given, and the transforms of the factor and offset, or the transforms
    supplied. *)
Theorem add_then_get (reg : UnitRegistry) (category nm : string)
    (factor : option float) (offset : float) (tb fb : option transform)
    (als : list string) (key : string) :
  In (lower key) (map lower (nm :: als)) ->
  exists u,
    get (add reg category nm factor offset tb fb als) category key = Some u
    /\ name u = nm
    /\ (tb = None -> fb = None ->
        to_base u = _to_base factor offset
        /\ from_base u = _from_base factor offset)
    /\ (tb <> None \/ fb <> None ->
        to_base u = callable tb /\ from_base u = callable fb).
Proof. apply get_add_key. Qed.

Lemma add_then_get_witness :
  exists u,
    get (add ureg "energy" "kcal" (Some 4184.0%float) 0.0%float None None
             ["Cal"]) "energy" "cal" = Some u
    /\ name u = "kcal"
    /\ (@None transform = None -> @None transform = None ->
        to_base u = _to_base (Some 4184.0%float) 0.0%float
        /\ from_base u = _from_base (Some 4184.0%float) 0.0%float)
    /\ (@None transform <> None \/ @None transform <> None ->
        to_base u = callable None /\ from_base u = callable None).
Proof.
  apply (add_then_get ureg "energy" "kcal" (Some 4184.0%float) 0.0%float
                      None None ["Cal"] "cal").
  simpl. auto.
Defined.

Lemma get_add_rest (reg : UnitRegistry) (category nm : string)
    (factor : option float) (offset : float) (tb fb : option transform)
    (als : list string) (category' key : string) :
  category' <> category \/ ~ In (lower key) (map lower (nm :: als)) ->
  get (add reg category nm factor offset tb fb als) category' key
  = get reg category' key.
Proof.
  intros H. unfold get, add.
  destruct (string_dec category category') as [<-|Hne].
  - destruct H as [H|H]; [congruence|].
    rewrite dict_get_set_same.
    rewrite <- in_map_lower_alias_set in H.
    now rewrite fold_set_other.
  - now rewrite dict_get_set_other.
Qed.

(** X2.  [add(category, name, ...)] changes no other lookup: in another
    category, and under a key that is no case variant of the name or of an
    alias, [get] finds what it found before. *)
Theorem add_keeps_the_rest (reg : UnitRegistry) (category nm : string)
    (factor : option float) (offset : float) (tb fb : option transform)
    (als : list string) (category' key : string) :
  category' <> category \/ ~ In (lower key) (map lower (nm :: als)) ->
  get (add reg category nm factor offset tb fb als) category' key
  = get reg category' key.
Proof. apply get_add_rest. Qed.

Lemma add_keeps_the_rest_witness :
  get (add ureg "energy" "kcal" (Some 4184.0%float) 0.0%float None None
           ["Cal"]) "energy" "calorie"
  = get ureg "energy" "calorie".
Proof.
  apply (add_keeps_the_rest ureg "energy" "kcal" (Some 4184.0%float)
           0.0%float None None ["Cal"] "energy" "calorie").
  right. vm_compute. intuition discriminate.
Defined.

(** ** Registries built by [add] *)

Lemma add_NoDup reg category nm factor offset tb fb als :
  NoDup (dict_keys reg) ->
  NoDup (dict_keys (add reg category nm factor offset tb fb als)).
Proof. intros H. unfold add. now apply dict_set_NoDup. Qed.

Lemma registered_NoDup reg : registered reg -> NoDup (dict_keys reg).
Proof.
  induction 1; [constructor|]. now apply add_NoDup.
Qed.

Lemma dict_get_first {V : Type} (before after : dict V) k v :
  ~ In k (dict_keys before) ->
  dict_get (before ++ (k, v) :: after)%list k = Some v.
Proof.
  induction before as [|[k' v'] before IH]; simpl; intros Hn.
  - now rewrite String.eqb_refl.
  - destruct (String.eqb k' k) eqn:E.
    + apply String.eqb_eq in E. subst. exfalso. apply Hn. now left.
    + apply IH. intros H. apply Hn. now right.
Qed.

Lemma detected_units reg a b cat :
  NoDup (dict_keys reg) -> detect_category reg a b = Some cat ->
  exists ua ub, get reg cat a = Some ua /\ get reg cat b = Some ub.
Proof.
  intros Hnd Hd. unfold detect_category in Hd.
  generalize (detect_items_spec reg (lower a) (lower b)). rewrite Hd.
  intros (before & units & after & -> & Hboth & _).
  unfold get. rewrite dict_get_first.
  - unfold both_in, dict_mem in Hboth. simpl in Hboth.
    destruct (dict_get units (lower a)) as [ua|]; [|discriminate].
    destruct (dict_get units (lower b)) as [ub|]; [|discriminate].
    now exists ua, ub.
  - unfold dict_keys in Hnd. rewrite map_app in Hnd. simpl in Hnd.
    apply NoDup_remove_2 in Hnd. intros H. apply Hnd. apply in_or_app. now left.
Qed.

(** ** Units that never raise *)

Lemma get_add_cases reg category nm factor offset tb fb als category' key u :
  get (add reg category nm factor offset tb fb als) category' key = Some u ->
  get reg category' key = Some u
  \/ (name u = nm
      /\ ((tb = None /\ fb = None
           /\ to_base u = _to_base factor offset
           /\ from_base u = _from_base factor offset)
          \/ ((tb <> None \/ fb <> None)
              /\ to_base u = callable tb /\ from_base u = callable fb))).
Proof.
  intros H.
  destruct (string_dec category' category) as [->|Hne].
  - destruct (in_dec string_dec (lower key) (map lower (nm :: als))) as [Hin|Hn].
    + right.
      destruct (get_add_key reg category nm factor offset tb fb als key Hin)
        as (u' & Hu & Hname & Hlin & Hcus).
      rewrite H in Hu. inversion Hu; subst u'. split; [exact Hname|].
      destruct tb as [t|].
      * right. split; [left; discriminate|]. apply Hcus. left. discriminate.
      * destruct fb as [f|].
        -- right. split; [right; discriminate|]. apply Hcus. right. discriminate.
        -- left. repeat split; apply Hlin; reflexivity.
    + left. rewrite <- H. symmetry. apply get_add_rest. now right.
  - left. rewrite <- H. symmetry. apply get_add_rest. now left.
Qed.

Lemma units_total_add_factor reg category nm f als :
  PrimFloat.eqb f 0 = false ->
  units_total reg -> units_total (add_factor reg category nm f als).
Proof.
  intros Hf Hreg c k u H. unfold add_factor in H.
  apply get_add_cases in H. destruct H as [H|[_ [H|H]]].
  - exact (Hreg c k u H).
  - destruct H as (_ & _ & Hto & Hfrom). intros x. rewrite Hto, Hfrom.
    unfold _to_base, _from_base, py_div. rewrite Hf. simpl.
    split; eexists; reflexivity.
  - destruct H as [[H|H] _]; congruence.
Qed.

Lemma units_total_add_custom reg category nm tb fb als :
  units_total reg -> units_total (add_custom reg category nm tb fb als).
Proof.
  intros Hreg c k u H. unfold add_custom in H.
  apply get_add_cases in H. destruct H as [H|[_ [H|H]]].
  - exact (Hreg c k u H).
  - destruct H as (H & _). discriminate.
  - destruct H as (_ & Hto & Hfrom). intros x. rewrite Hto, Hfrom.
    split; eexists; reflexivity.
Qed.

Lemma units_total_add_linear reg category base pairs :
  Forall (fun p => PrimFloat.eqb (snd (fst p)) 0 = false) pairs ->
  units_total reg -> units_total (add_linear reg category base pairs).
Proof.
  intros Hp Hreg. unfold add_linear.
  assert (H0 : units_total (add_factor reg category base 1.0%float [base])).
  { apply units_total_add_factor; [reflexivity|exact Hreg]. }
  revert H0. generalize (add_factor reg category base 1.0%float [base]).
  induction Hp as [|[[n f] a] pairs Hf Hp IH]; intros r Hr; simpl; [exact Hr|].
  apply IH. now apply units_total_add_factor.
Qed.

Lemma registered_add_linear reg category base pairs :
  registered reg -> registered (add_linear reg category base pairs).
Proof.
  intros Hreg. unfold add_linear.
  assert (H0 : registered (add_factor reg category base 1.0%float [base])).
  { now constructor. }
  revert H0. generalize (add_factor reg category base 1.0%float [base]).
  induction pairs as [|[[n f] a] pairs IH]; intros r Hr; simpl; [exact Hr|].
  apply IH. now constructor.
Qed.

Lemma registered_ureg : registered ureg.
Proof.
  unfold ureg. cbv zeta.
  repeat first [ apply registered_add_linear
               | apply registered_add
               | apply registered_empty ].
Qed.

Lemma units_total_ureg : units_total ureg.
Proof.
  unfold ureg. cbv zeta.
  repeat first
    [ apply units_total_add_linear;
        [repeat constructor|]
    | apply units_total_add_factor; [vm_compute; reflexivity|]
    | apply units_total_add_custom ].
  intros c k u H. discriminate.
Qed.

(** X3.  In a registry built by [add], when [detect_category(a, b)]
    returns a category, [get] finds a unit for [a] and a unit for [b] in
    that category. *)
Theorem detected_units_are_found (reg : UnitRegistry) (a b cat : string) :
  registered reg -> detect_category reg a b = Some cat ->
  exists ua ub, get reg cat a = Some ua /\ get reg cat b = Some ub.
Proof.
  intros Hr. apply detected_units. now apply registered_NoDup.
Qed.

(** X3 at the seed registry and the unit texts [FT] and [cm]. *)
Lemma detected_units_are_found_witness :
  exists ua ub,
    get ureg "length" "FT" = Some ua /\ get ureg "length" "cm" = Some ub.
Proof.
  apply (detected_units_are_found ureg "FT" "cm" "length").
  - exact registered_ureg.
  - vm_compute. reflexivity.
Defined.

(** ** The errors of [parse_and_convert] *)

Lemma evaluate_value_error rt val deg e :
  evaluate_value rt val deg = Raise e -> e = CouldNotConvert val.
Proof.
  unfold evaluate_value, try_except.
  destruct (bind _ _); [discriminate|]. apply float_of_string_error.
Qed.

(** The part of [parse_and_convert] that follows the value, in a registry
    with one map for each category and units that never raise. *)
Lemma units_raise (reg : UnitRegistry) (value : float) (u_from u_to : string)
    (e : exn) :
  NoDup (dict_keys reg) -> units_total reg ->
  match detect_category reg u_from u_to with
  | None => Raise (NoCommonCategory u_from u_to)
  | Some cat =>
      if String.eqb cat "" then Raise (NoCommonCategory u_from u_to)
      else
        match get reg cat u_from, get reg cat u_to with
        | Some uf, Some ut =>
            let* x_base := to_base uf value in
            let* y := from_base ut x_base in
            Ok (value, name uf, cat, y, name ut)
        | _, _ => Raise UnknownUnits
        end
  end = Raise e ->
  e = NoCommonCategory u_from u_to.
Proof.
  intros Hnd Htot.
  destruct (detect_category reg u_from u_to) as [c|] eqn:Hc;
    [|intros H; now inversion H].
  destruct (String.eqb c ""); [intros H; now inversion H|].
  destruct (detected_units reg _ _ c Hnd Hc) as (ua & ub & Ha & Hb).
  rewrite Ha, Hb.
  destruct (Htot _ _ _ Ha value) as [[y Hy] _]. rewrite Hy.
  unfold bind at 1.
  destruct (Htot _ _ _ Hb y) as [_ [z Hz]]. rewrite Hz.
  discriminate.
Qed.

(** X4.  [parse_and_convert] raises one of three errors only, each a
    [ValueError]: the parse error when the pattern does not match, the
    error of [float] on the value text when the value does not evaluate,
    and the error of the category when the two unit texts share none.  It
    never raises the error of unknown units, and no unit of the seed table
    raises: a division by zero in the value (["1/0 m to cm"]) ends as the
    error of [float]. *)
Theorem parse_and_convert_raises (rt : Runtime) (s : string) (deg : bool)
    (e : exn) :
  parse_and_convert rt s deg = Raise e ->
  (re_match EXPR_PAT s = None /\ e = CouldNotParse)
  \/ exists m,
       re_match EXPR_PAT s = Some m
       /\ (e = CouldNotConvert (strip (group m "value"))
           \/ e = NoCommonCategory (strip (group m "from"))
                                   (strip (group m "to"))).
Proof.
  unfold parse_and_convert.
  destruct (re_match EXPR_PAT s) as [m|]; [|intros H; inversion H; auto].
  cbv zeta.
  destruct (evaluate_value rt (strip (group m "value")) deg) as [x|e'] eqn:Hx.
  - unfold bind at 1. intros H. right. exists m. split; [reflexivity|]. right.
    exact (units_raise ureg x _ _ e (registered_NoDup _ registered_ureg)
                       units_total_ureg H).
  - unfold bind at 1. intros H. right. exists m. split; [reflexivity|]. left.
    inversion H; subst. now apply evaluate_value_error in Hx.
Qed.

Lemma parse_and_convert_raises_witness :
  (re_match EXPR_PAT "1/0 m to cm" = None
   /\ CouldNotConvert "1/0" = CouldNotParse)
  \/ exists m,
       re_match EXPR_PAT "1/0 m to cm" = Some m
       /\ (CouldNotConvert "1/0" = CouldNotConvert (strip (group m "value"))
           \/ CouldNotConvert "1/0"
              = NoCommonCategory (strip (group m "from"))
                                 (strip (group m "to"))).
Proof.
  apply (parse_and_convert_raises bare_runtime "1/0 m to cm" false).
  vm_compute. reflexivity.
Defined.

(** ** [list_units] and [list_categories] *)

Lemma lower_char_idem c : lower_char (lower_char c) = lower_char c.
Proof. each_char c. Qed.

Lemma lower_idem s : lower (lower s) = lower s.
Proof. induction s as [|c s IH]; simpl; [reflexivity|]. now rewrite lower_char_idem, IH. Qed.

Lemma dict_keys_set_In {V : Type} (d : dict V) k v n :
  In n (dict_keys (dict_set d k v)) <-> In n (dict_keys d) \/ n = k.
Proof.
  rewrite dict_keys_set. destruct (dict_mem d k) eqn:E.
  - apply dict_mem_In in E. split; [auto|]. intros [H| ->]; auto.
  - rewrite in_app_iff. simpl. intuition.
Qed.

Lemma lower_keyed_set {V : Type} (d : dict V) a v :
  lower_keyed d -> lower_keyed (dict_set d (lower a) v).
Proof.
  intros [Hn Hl]. split; [now apply dict_set_NoDup|].
  rewrite Forall_forall in *. intros k Hk. apply dict_keys_set_In in Hk.
  destruct Hk as [Hk| ->]; [now apply Hl|apply lower_idem].
Qed.

Lemma lower_keyed_fold {V : Type} (keys : list string) (d : dict V) v :
  lower_keyed d ->
  lower_keyed (fold_left (fun c a => dict_set c (lower a) v) keys d).
Proof.
  revert d. induction keys as [|a keys IH]; intros d H; simpl; [exact H|].
  apply IH. now apply lower_keyed_set.
Qed.

Lemma registered_lower_keyed reg :
  registered reg ->
  forall c units, dict_get reg c = Some units -> lower_keyed units.
Proof.
  induction 1 as [|reg category nm factor offset tb fb als Hreg IH];
    intros c units H; [discriminate|].
  unfold add in H.
  destruct (string_dec category c) as [->|Hne].
  - rewrite dict_get_set_same in H. inversion H; subst units. clear H.
    apply lower_keyed_fold.
    destruct (dict_get reg c) as [cat|] eqn:E; [now apply (IH c)|].
    split; constructor.
  - rewrite dict_get_set_other in H by exact Hne. now apply (IH c).
Qed.

Lemma NoDup_dict_get {V : Type} (d : dict V) k v :
  NoDup (dict_keys d) -> In (k, v) d -> dict_get d k = Some v.
Proof.
  induction d as [|[k' v'] d IH]; intros Hn Hin; [destruct Hin|].
  simpl in *. inversion Hn; subst.
  destruct Hin as [E|Hin].
  - inversion E; subst. now rewrite String.eqb_refl.
  - destruct (String.eqb k' k) eqn:Ek.
    + apply String.eqb_eq in Ek. subst k'. exfalso.
      match goal with H : ~ In k _ |- _ => apply H end.
      unfold dict_keys. apply in_map_iff. now exists (k, v).
    + now apply IH.
Qed.

(** The values of a category of a registry are the units that [get]
    finds there. *)
Lemma values_are_found reg category units u :
  registered reg -> dict_get reg category = Some units ->
  In u (dict_values units) <-> exists key, get reg category key = Some u.
Proof.
  intros Hreg Hc. destruct (registered_lower_keyed reg Hreg _ _ Hc) as [Hn Hl].
  unfold get. rewrite Hc. split.
  - intros Hin. unfold dict_values in Hin. apply in_map_iff in Hin.
    destruct Hin as ([k v] & Ev & Hin). simpl in Ev. subst v.
    exists k. rewrite Forall_forall in Hl. rewrite Hl.
    + now apply NoDup_dict_get.
    + unfold dict_keys. apply in_map_iff. now exists (k, u).
  - intros [key H]. now apply dict_get_in_values in H.
Qed.

Lemma seen_keys (l : list Unit) : forall (acc : dict bool) n,
  In n (dict_keys (fold_left (fun seen u => dict_set seen (name u) true) l acc))
  <-> In n (dict_keys acc) \/ exists u, In u l /\ name u = n.
Proof.
  induction l as [|u l IH]; intros acc n; simpl.
  - split; [auto|]. intros [H|(u & [] & _)]. exact H.
  - rewrite IH, dict_keys_set_In. split.
    + intros [[H| ->]|(u' & Hin & E)]; eauto.
    + intros [H|(u' & [->|Hin] & E)]; eauto.
Qed.

Lemma seen_NoDup (l : list Unit) : forall (acc : dict bool),
  NoDup (dict_keys acc) ->
  NoDup (dict_keys (fold_left (fun seen u => dict_set seen (name u) true) l acc)).
Proof.
  induction l as [|u l IH]; intros acc H; simpl; [exact H|].
  apply IH. now apply dict_set_NoDup.
Qed.

(** X5.  [list_units(category)] is in increasing order and has no name
    twice; in a registry built by [add] it lists exactly the names of the
    units that [get] finds in the category under some key; for a category
    that is not registered it is empty.  In the seed registry the category
    [temperature] lists [C], [F], [K], [R], and [data] lists the five bit
    units only. *)
Theorem list_units_lists_the_names :
  (forall reg category,
     increasing (list_units reg category) /\ NoDup (list_units reg category))
  /\ (forall reg category n,
        registered reg ->
        (In n (list_units reg category)
         <-> exists key u, get reg category key = Some u /\ name u = n))
  /\ (forall reg category,
        dict_get reg category = None -> list_units reg category = [])
  /\ list_units ureg "temperature" = ["C"; "F"; "K"; "R"]
  /\ list_units ureg "data" = ["Gb"; "Kb"; "Mb"; "Tb"; "bit"].
Proof.
  split.
  { intros reg category. unfold list_units. split.
    - apply sorted_increasing.
    - apply sorted_NoDup, seen_NoDup. constructor. }
  split.
  { intros reg category n Hreg. unfold list_units. rewrite sorted_In, seen_keys.
    simpl. destruct (dict_get reg category) as [units|] eqn:Hc.
    - split.
      + intros [[]|(u & Hin & E)].
        apply (values_are_found reg category units u Hreg Hc) in Hin.
        destruct Hin as [key Hk]. now exists key, u.
      + intros (key & u & Hk & E). right. exists u. split; [|exact E].
        apply (values_are_found reg category units u Hreg Hc). now exists key.
    - split.
      + intros [[]|(u & [] & _)].
      + intros (key & u & Hk & _). unfold get in Hk. rewrite Hc in Hk.
        discriminate. }
  split.
  { intros reg category Hc. unfold list_units. now rewrite Hc. }
  split; vm_compute; reflexivity.
Qed.

Lemma list_units_lists_the_names_witness :
  In "ft" (list_units ureg "length")
  <-> exists key u, get ureg "length" key = Some u /\ name u = "ft".
Proof.
  apply (proj1 (proj2 list_units_lists_the_names) ureg "length" "ft").
  exact registered_ureg.
Defined.

(** X6.  [list_categories()] is the keys of the registry in increasing
    order, each once in a registry built by [add]; for the seed registry
    it is the list [FALLBACK_CATEGORIES] of the GUI module. *)
Theorem list_categories_lists_the_keys :
  (forall reg,
     increasing (list_categories reg)
     /\ Permutation (list_categories reg) (dict_keys reg))
  /\ (forall reg, registered reg -> NoDup (list_categories reg))
  /\ list_categories ureg = FALLBACK_CATEGORIES.
Proof.
  split.
  { intros reg. unfold list_categories. split;
      [apply sorted_increasing|apply sorted_perm]. }
  split.
  { intros reg Hreg. unfold list_categories.
    now apply sorted_NoDup, registered_NoDup. }
  vm_compute. reflexivity.
Qed.

Lemma list_categories_lists_the_keys_witness :
  NoDup (list_categories ureg).
Proof.
  apply (proj1 (proj2 list_categories_lists_the_keys) ureg).
  exact registered_ureg.
Defined.

(** ** The first match of the lazy repetition *)

Lemma rep_lazy_minimal p : forall s min i g k res,
  rep_lazy p min i s g k = Some res ->
  exists t rest,
    s = t ++ rest /\ all_chars p t = true /\ min <= String.length t
    /\ k (i + String.length t) rest g = Some res
    /\ forall t1 t2, t = t1 ++ t2 -> t2 <> "" -> min <= String.length t1 ->
                     k (i + String.length t1) (t2 ++ rest) g = None.
Proof.
  induction s as [|c s IH]; intros min i g k res H.
  - destruct min; simpl in H; [|discriminate].
    destruct (k i "" g) eqn:Hk; [|discriminate]. inversion H; subst.
    exists "", "". simpl. rewrite Nat.add_0_r. repeat split; auto.
    intros [|a t1] t2 E Hne _; simpl in E; [congruence|discriminate].
  - assert (Hmore : forall m, (m = Nat.pred min) ->
              (min = 0 -> k i (String c s) g = None) ->
              (if p c then rep_lazy p m (S i) s g k else None) = Some res ->
              exists t rest,
                String c s = t ++ rest /\ all_chars p t = true
                /\ min <= String.length t
                /\ k (i + String.length t) rest g = Some res
                /\ forall t1 t2, t = t1 ++ t2 -> t2 <> "" ->
                                 min <= String.length t1 ->
                                 k (i + String.length t1) (t2 ++ rest) g = None).
    { intros m Em H0 Hr. destruct (p c) eqn:Hp; [|discriminate].
      destruct (IH _ _ _ _ _ Hr) as (t & rest & -> & Hall & Hmin & Hk & Hno).
      exists (String c t), rest. simpl. rewrite Hp, Hall.
      replace (i + S (String.length t)) with (S i + String.length t) by lia.
      repeat split; auto; [lia|].
      intros [|a t1] t2 E Hne Hlen; simpl in E.
      - subst t2. simpl in *. rewrite Nat.add_0_r. apply H0. lia.
      - injection E as Ea E. subst a. simpl.
        replace (i + S (String.length t1)) with (S i + String.length t1) by lia.
        apply Hno; auto. simpl in Hlen. lia. }
    destruct min; simpl in H.
    + destruct (k i (String c s) g) eqn:Hk.
      * inversion H; subst. exists "", (String c s). simpl. rewrite Nat.add_0_r.
        repeat split; auto.
        intros [|a t1] t2 E Hne _; simpl in E; [congruence|discriminate].
      * apply (Hmore 0); auto.
    + apply (Hmore min); auto. discriminate.
Qed.

Lemma rep_lazy_complete p : forall t min i rest g k,
  all_chars p t = true -> min <= String.length t ->
  succeeds (k (i + String.length t) rest g) = true ->
  succeeds (rep_lazy p min i (t ++ rest) g k) = true.
Proof.
  induction t as [|c t IH]; intros min i rest g k Ht Hmin Hk.
  - simpl in *. rewrite Nat.add_0_r in Hk. assert (min = 0) by lia. subst min.
    destruct rest; simpl; destruct (k i _ g); try discriminate; reflexivity.
  - simpl in Ht. apply andb_true_iff in Ht. destruct Ht as [Hc Ht].
    assert (Hnext : forall m, m <= String.length t ->
              succeeds (rep_lazy p m (S i) (t ++ rest) g k) = true).
    { intros m Hm. apply IH; auto.
      now replace (S i + String.length t) with (i + String.length (String c t))
        by (simpl; lia). }
    destruct min; simpl.
    + destruct (k i (String c (t ++ rest)) g); [reflexivity|].
      rewrite Hc. apply Hnext. lia.
    + rewrite Hc. apply Hnext. simpl in Hmin. lia.
Qed.

(** ** Whether the matcher finds a match depends on the text alone *)

Section Success.
Variables (k k' : cont).
Hypothesis Hk : forall i i' s g g', succeeds (k i s g) = succeeds (k' i' s g').

Lemma rep_greedy_success p : forall s min i i' g g',
  succeeds (rep_greedy p min i s g k) = succeeds (rep_greedy p min i' s g' k').
Proof.
  induction s as [|c s IH]; intros min i i' g g'; simpl.
  - destruct (Nat.eqb min 0); [apply Hk|reflexivity].
  - destruct (p c).
    + specialize (IH (Nat.pred min) (S i) (S i') g g').
      destruct (rep_greedy p (Nat.pred min) (S i) s g k),
               (rep_greedy p (Nat.pred min) (S i') s g' k');
        try discriminate IH; [reflexivity|].
      destruct (Nat.eqb min 0); [apply Hk|reflexivity].
    + destruct (Nat.eqb min 0); [apply Hk|reflexivity].
Qed.

Lemma rep_lazy_success p : forall s min i i' g g',
  succeeds (rep_lazy p min i s g k) = succeeds (rep_lazy p min i' s g' k').
Proof.
  induction s as [|c s IH]; intros min i i' g g'.
  - destruct min; simpl; [|reflexivity].
    specialize (Hk i i' "" g g').
    destruct (k i "" g), (k' i' "" g'); try discriminate Hk; reflexivity.
  - destruct min; simpl.
    + specialize (Hk i i' (String c s) g g').
      destruct (k i (String c s) g), (k' i' (String c s) g');
        try discriminate Hk; [reflexivity|].
      destruct (p c); [apply IH|reflexivity].
    + destruct (p c); [apply IH|reflexivity].
Qed.
End Success.

Lemma rmatch_success r : no_bol r ->
  forall (k k' : cont),
  (forall i i' s g g', succeeds (k i s g) = succeeds (k' i' s g')) ->
  forall i i' s g g',
  succeeds (rmatch r i s g k) = succeeds (rmatch r i' s g' k').
Proof.
  induction r; intros Hr k k' Hk i i' s g g'; simpl in *.
  - destruct Hr.
  - destruct (at_end s); [apply Hk|reflexivity].
  - destruct s as [|c s]; [reflexivity|]. destruct (p c); [apply Hk|reflexivity].
  - destruct (lit_match l s); [apply Hk|reflexivity].
  - destruct Hr as [H1 H2]. apply IHr1; [exact H1|].
    intros j j' s0 g0 g0'. now apply IHr2.
  - destruct Hr as [H1 H2].
    specialize (IHr1 H1 k k' Hk i i' s g g').
    specialize (IHr2 H2 k k' Hk i i' s g g').
    destruct (rmatch r1 i s g k), (rmatch r1 i' s g' k');
      try discriminate IHr1; [reflexivity|exact IHr2].
  - specialize (IHr Hr k k' Hk i i' s g g').
    destruct (rmatch r i s g k), (rmatch r i' s g' k');
      try discriminate IHr; [reflexivity|apply Hk].
  - destruct lazy; [now apply rep_lazy_success|now apply rep_greedy_success].
  - apply IHr; [exact Hr|]. intros j j' s0 g0 g0'. apply Hk.
Qed.

Lemma final_success : forall i i' s g g',
  succeeds (final i s g) = succeeds (final i' s g').
Proof. reflexivity. Qed.

(** ** The value text of a match *)

Lemma pat_from_split i s g k res :
  rmatch pat_from i s g k = Some res ->
  exists y0 c f rest j h,
    s = y0 ++ String c f ++ rest
    /\ blank y0 = true /\ not_digit_space c = true
    /\ all_chars not_0_9 f = true
    /\ rmatch pat_keyword j rest h k = Some res.
Proof.
  intros H.
  change (rmatch ((Rep false 0 is_space ;;
                   Grp "from" (Cls not_digit_space ;; Rep true 0 not_0_9)) ;;
                  pat_keyword) i s g k = Some res) in H.
  rewrite rmatch_seq in H. apply rmatch_sound in H.
  destruct H as (t & rest & g' & -> & M & H). cbv beta in H.
  inv_matches.
  match goal with
  | H0 : all_chars is_space ?y0 = true, Hc : not_digit_space ?c = true,
    Hf : all_chars not_0_9 ?f = true |- _ =>
      exists y0, c, f, rest; do 2 eexists;
      split; [now rewrite !append_assoc|];
      repeat split; [exact H0|exact Hc|exact Hf|exact H]
  end.
Qed.

Lemma pat_from_groups i s g res :
  rmatch pat_from i s g final = Some res ->
  exists f t, res = ("to", t) :: ("from", f) :: g.
Proof.
  intros H. apply rmatch_sound in H.
  destruct H as (t & rest & g' & -> & M & Hk). inversion Hk; subst; clear Hk.
  unfold pat_from, pat_keyword, pat_to, pat_end in M. inv_matches.
  all: eauto.
Qed.

Lemma space_not_digit c : is_space c = true -> not_0_9 c = true.
Proof. each_char c. Qed.

Lemma blank_no_digit (w : string) : blank w = true -> all_chars not_0_9 w = true.
Proof. apply all_chars_weaken, space_not_digit. Qed.

Lemma no_bol_pat_keyword : no_bol pat_keyword.
Proof. simpl. tauto. Qed.

Lemma no_bol_pat_from : no_bol pat_from.
Proof. simpl. tauto. Qed.

(** When the rest of the pattern matches what follows a character that is
    no digit, it matches from that character on as well: the character
    joins the white space, or begins the source unit. *)
Lemma pat_from_extends j j' c rest g g' :
  is_digit c = false ->
  succeeds (rmatch pat_from j' rest g' final) = true ->
  succeeds (rmatch pat_from j (String c rest) g final) = true.
Proof.
  intros Hd Hs.
  change (rmatch pat_from j (String c rest) g final)
    with (rep_greedy is_space 0 j (String c rest) g
            (fun i' s' g0 =>
               rmatch (Grp "from" (Cls not_digit_space ;; Rep true 0 not_0_9)
                       ;; pat_keyword) i' s' g0 final)).
  cbn [rep_greedy]. destruct (is_space c) eqn:Hsp.
  - change (rep_greedy is_space (Nat.pred 0) (S j) rest g
              (fun i' s' g0 =>
                 rmatch (Grp "from" (Cls not_digit_space ;; Rep true 0 not_0_9)
                         ;; pat_keyword) i' s' g0 final))
      with (rmatch pat_from (S j) rest g final).
    assert (Hs' : succeeds (rmatch pat_from (S j) rest g final) = true).
    { now rewrite (rmatch_success pat_from no_bol_pat_from final final
                     final_success (S j) j' rest g g'). }
    destruct (rmatch pat_from (S j) rest g final);
      [reflexivity|discriminate Hs'].
  - cbn [Nat.eqb].
    destruct (rmatch pat_from j' rest g' final) as [res|] eqn:H;
      [|discriminate Hs].
    apply pat_from_split in H.
    destruct H as (y0 & c' & f & rest3 & j3 & h & -> & Hy & Hc' & Hf & Hkw).
    change (rmatch (Grp "from" (Cls not_digit_space ;; Rep true 0 not_0_9)
                    ;; pat_keyword) j (String c (y0 ++ String c' f ++ rest3))
                   g final)
      with (if not_digit_space c
            then rep_lazy not_0_9 0 (S j) (y0 ++ String c' f ++ rest3) g
                   (fun i' s' g0 =>
                      rmatch pat_keyword i' s'
                        (("from",
                          substring 0 (i' - j)
                            (String c (y0 ++ String c' f ++ rest3))) :: g0)
                        final)
            else None).
    assert (Hc : not_digit_space c = true).
    { unfold not_digit_space. now rewrite Hd, Hsp. }
    rewrite Hc.
    replace (y0 ++ String c' f ++ rest3) with ((y0 ++ String c' f) ++ rest3)
      by now rewrite append_assoc.
    apply rep_lazy_complete; [|lia|].
    + rewrite all_chars_app. rewrite (blank_no_digit y0 Hy). simpl.
      now rewrite (not_digit_space_not_digit c' Hc'), Hf.
    + rewrite (rmatch_success pat_keyword no_bol_pat_keyword final final
                 final_success _ j3 rest3 _ h).
      now rewrite Hkw.
Qed.

Lemma string_last (t : string) :
  t <> "" -> exists x c, t = x ++ String c "".
Proof.
  induction t as [|a t IH]; [congruence|]. intros _.
  destruct t as [|b t].
  - now exists "", a.
  - destruct IH as (x & c & E); [discriminate|].
    exists (String a x), c. simpl. now rewrite E.
Qed.

Lemma last_char_snoc p (x : string) c : last_char p (x ++ String c "") = p c.
Proof. now rewrite last_char_app by discriminate. Qed.

(** The value group of a match of [pat_value]: one character, or a text
    that ends with a digit. *)
Lemma pat_value_group i s res :
  rmatch pat_value i s [] final = Some res ->
  String.length (group res "value") = 1
  \/ last_char is_digit (group res "value") = true.
Proof.
  intros H.
  change (rmatch pat_value i s [] final)
    with (rep_lazy value_class 1 i s []
            (fun i' s' g' =>
               rmatch pat_from i' s'
                      (("value", substring 0 (i' - i) s) :: g') final)) in H.
  apply rep_lazy_minimal in H.
  destruct H as (t & rest & -> & Hall & Hmin & Hk & Hno).
  replace (i + String.length t - i) with (String.length t) in Hk by lia.
  rewrite substring_prefix in Hk.
  destruct (pat_from_groups _ _ _ _ Hk) as (f & tt & ->).
  unfold group. simpl.
  destruct (string_last t) as (x & c & ->); [intros ->; simpl in Hmin; lia|].
  rewrite last_char_snoc.
  destruct x as [|a x]; [now left|]. right.
  destruct (is_digit c) eqn:Hd; [reflexivity|]. exfalso.
  specialize (Hno (String a x) (String c "") eq_refl).
  assert (Hnone : rmatch pat_from (i + String.length (String a x))
                    (String c "" ++ rest)
                    [("value",
                      substring 0 (i + String.length (String a x) - i)
                        ((String a x ++ String c "") ++ rest))] final = None).
  { apply Hno; [discriminate|simpl; lia]. }
  assert (Hext := pat_from_extends (i + String.length (String a x))
                    (i + String.length (String a x ++ String c "")) c rest
                    [("value",
                      substring 0 (i + String.length (String a x) - i)
                        ((String a x ++ String c "") ++ rest))]
                    [("value", String a x ++ String c "")] Hd).
  rewrite Hk in Hext. specialize (Hext eq_refl).
  change (String c "" ++ rest) with (String c rest) in Hnone.
  rewrite Hnone in Hext. discriminate Hext.
Qed.

Lemma re_match_value_part s m :
  re_match EXPR_PAT s = Some m ->
  exists i s', rmatch pat_value i s' [] final = Some m.
Proof.
  unfold re_match. rewrite EXPR_PAT_parts.
  change (fun (_ : nat) (_ : string) (g : captures) => Some g) with final.
  intros H.
  change (rmatch ((Bol ;; Rep false 0 is_space ;; Opt pat_convert) ;; pat_value)
                 0 s [] final = Some m) in H.
  rewrite rmatch_seq in H. apply rmatch_sound in H.
  destruct H as (t & rest & g' & -> & M & H). cbv beta in H.
  assert (g' = []).
  { unfold pat_convert in M. inv_matches; reflexivity. }
  subst g'. eauto.
Qed.

Local Open Scope float_scope.

(** An input whose source unit text is no unit is not converted. *)
Lemma not_converted rt deg s m :
  re_match EXPR_PAT s = Some m ->
  detect_category ureg (strip (group m "from")) (strip (group m "to")) = None ->
  forall r, parse_and_convert rt s deg <> Ok r.
Proof.
  intros Hm Hn [[[[v uf] cat] y] ut] H.
  apply parse_and_convert_ok in H.
  destruct H as (m' & fu & tu & xb & Hm' & _ & Hc & _).
  rewrite Hm in Hm'. injection Hm' as <-.
  rewrite Hn in Hc. discriminate Hc.
Qed.

(** X7.  On an input of ASCII characters, the value text that the pattern
    hands to the evaluator is a single character or ends with a digit:
    the value group is lazy, and a last character that is no digit would
    have begun the source unit, or gone to the white space before it.  So
    a value that ends with a closing parenthesis or with a name is cut
    short: [sqrt(16) m to cm] is matched with the value [sqrt(16] and the
    source unit [) m] and is never converted, [pi m to cm] has the value
    [p], [2*pi m to cm] the source unit [*pi m]; [sqrt(16)*1 m to cm] and
    the one-letter [e m to cm] are converted. *)
Theorem value_text_ends_with_a_digit :
  (forall s m,
     all_chars is_ascii s = true ->
     re_match EXPR_PAT s = Some m ->
     String.length (group m "value") = 1%nat
     \/ last_char is_digit (group m "value") = true)
  /\ (forall rt deg s r,
        all_chars is_ascii s = true ->
        parse_and_convert rt s deg = Ok r ->
        exists m,
          re_match EXPR_PAT s = Some m
          /\ (String.length (group m "value") = 1%nat
              \/ last_char is_digit (group m "value") = true))
  /\ re_match EXPR_PAT "sqrt(16) m to cm"
     = Some [("to", "cm"); ("from", ") m"); ("value", "sqrt(16")]
  /\ (forall rt deg r, parse_and_convert rt "sqrt(16) m to cm" deg <> Ok r)
  /\ (forall rt deg, parse_and_convert rt "sqrt(16)*1 m to cm" deg
                     = Ok (4.0, "m", "length", 400.0, "cm"))
  /\ (forall rt deg, parse_and_convert rt "pi m to cm" deg
                     = Raise (CouldNotConvert "p"))
  /\ (forall rt deg, parse_and_convert rt "2*pi m to cm" deg
                     = Raise (NoCommonCategory "*pi m" "cm"))
  /\ (forall rt deg, parse_and_convert rt "e m to cm" deg
                     = Ok (2.718281828459045, "m", "length",
                           271.8281828459045, "cm")).
Proof.
  split.
  { intros s m _ Hm. destruct (re_match_value_part s m Hm) as (i & s' & H).
    exact (pat_value_group i s' m H). }
  split.
  { intros rt deg s r _. unfold parse_and_convert.
    destruct (re_match EXPR_PAT s) as [m|] eqn:Hm; [|discriminate].
    intros _. exists m. split; [reflexivity|].
    destruct (re_match_value_part s m Hm) as (i & s' & H).
    exact (pat_value_group i s' m H). }
  split; [vm_compute; reflexivity|].
  split.
  { intros rt deg.
    apply (not_converted rt deg "sqrt(16) m to cm"
             [("to", "cm"); ("from", ") m"); ("value", "sqrt(16")]);
      vm_compute; reflexivity. }
  split; [intros rt deg; vm_compute; reflexivity|].
  split; [intros rt deg; vm_compute; reflexivity|].
  split; [intros rt deg; vm_compute; reflexivity|].
  intros rt deg; vm_compute; reflexivity.
Qed.

(** X7 at the input ["sqrt(16) m to cm"]. *)
Lemma value_text_ends_with_a_digit_witness :
  String.length "sqrt(16" = 1%nat \/ last_char is_digit "sqrt(16" = true.
Proof.
  apply (proj1 value_text_ends_with_a_digit "sqrt(16) m to cm"
           [("to", "cm"); ("from", ") m"); ("value", "sqrt(16")]).
  - reflexivity.
  - vm_compute. reflexivity.
Defined.

Local Close Scope float_scope.

(** ** The angle mode *)

Lemma eval_binop rt deg l op r :
  eval rt deg (BinOp l op r)
  = (let* a := eval rt deg l in let* b := eval rt deg r in binop rt op a b).
Proof. reflexivity. Qed.

Lemma eval_unaryop rt deg op e1 :
  eval rt deg (UnaryOp op e1) = (let* a := eval rt deg e1 in unop rt op a).
Proof. reflexivity. Qed.

Lemma eval_call rt deg f args :
  eval rt deg (Call f args [])
  = (let* fv := eval rt deg f in
     let* vs := eval_all rt deg args in
     match fv with
     | VFun b => call_builtin rt deg b vs
     | _ => Raise TypeError
     end).
Proof. reflexivity. Qed.

Lemma eval_tuple rt deg es :
  eval rt deg (Tuple es) = (let* vs := eval_all rt deg es in Ok (VTuple vs)).
Proof. reflexivity. Qed.

Lemma eval_list rt deg es :
  eval rt deg (List es) = (let* vs := eval_all rt deg es in Ok (VList vs)).
Proof. reflexivity. Qed.

Lemma eval_all_cons rt deg e1 es :
  eval_all rt deg (e1 :: es)
  = (let* v := eval rt deg e1 in
     let* vs := eval_all rt deg es in
     Ok (v :: vs)).
Proof. reflexivity. Qed.

Lemma eval_all_mode rt deg deg' (es : list expr) :
  (forall c, In c es -> eval rt deg c = eval rt deg' c) ->
  eval_all rt deg es = eval_all rt deg' es.
Proof.
  induction es as [|a es IH]; intros H; [reflexivity|].
  rewrite !eval_all_cons, (H a (or_introl eq_refl)), IH; [reflexivity|].
  intros c Hc. apply H. now right.
Qed.

Lemma child_size (n c : node) :
  In c (iter_child_nodes n) -> node_size c < node_size n.
Proof.
  intros H. rewrite (node_size_children n).
  pose proof (total_size_In c _ H). lia.
Qed.

Lemma plain_tree_child (e c : expr) :
  plain_tree e -> In (NExpr c) (iter_child_nodes (NExpr e)) -> plain_tree c.
Proof. intros H Hin m Hm. apply H. exact (desc_child _ _ _ Hin Hm). Qed.

(** The entries of [allowed_names] other than [sin], [cos] and [tan] are
    the same in both modes. *)
Lemma call_builtin_mode rt deg deg' id b vs :
  lookup_name id = Ok (VFun b) ->
  is_trig_name (NExpr (Name id)) = false ->
  call_builtin rt deg b vs = call_builtin rt deg' b vs.
Proof.
  unfold lookup_name, is_trig_name. simpl.
  destruct (String.eqb id "pi"); [discriminate|].
  destruct (String.eqb id "e"); [discriminate|].
  destruct (String.eqb id "sqrt"); [intros [= <-] _; reflexivity|].
  destruct (String.eqb id "sin"); [discriminate|].
  destruct (String.eqb id "cos"); [discriminate|].
  destruct (String.eqb id "tan"); [discriminate|].
  destruct (String.eqb id "abs"); [intros [= <-] _; reflexivity|].
  destruct (String.eqb id "round"); [intros [= <-] _; reflexivity|].
  destruct (String.eqb id "__builtins__"); discriminate.
Qed.

(** A tree without these names has the same value in both modes. *)
Lemma eval_mode rt deg deg' : forall n e,
  expr_size e <= n -> plain_tree e -> eval rt deg e = eval rt deg' e.
Proof.
  induction n as [|n IH]; intros e Hn Hc.
  - pose proof (node_size_pos (NExpr e)) as Hp. simpl in Hp. lia.
  - assert (Hch : forall c, In (NExpr c) (iter_child_nodes (NExpr e)) ->
                            eval rt deg c = eval rt deg' c).
    { intros c Hin. apply IH; [|exact (plain_tree_child e c Hc Hin)].
      pose proof (child_size _ _ Hin) as Hs. simpl in Hs. lia. }
    assert (Hself : refused (NExpr e) = false) by (apply Hc, desc_self).
    destruct e as [k0|id|l op r|op e1|f args kws|es|es|e1 a|e1 i|e1|cls es];
      try reflexivity.
    + rewrite !eval_binop, (Hch l), (Hch r); [reflexivity| |]; simpl; auto.
    + rewrite !eval_unaryop, (Hch e1); [reflexivity|]. simpl; auto.
    + destruct kws as [|kw kws]; [|reflexivity].
      rewrite !eval_call.
      rewrite (eval_all_mode rt deg deg' args).
      2:{ intros c Hin. apply Hch. right. apply in_or_app. left.
          now apply in_map. }
      destruct f as [k0|id|l op r|op e1|f2 args2 kws2|es|es|e1 a|e1 i|e1|cls es];
        try discriminate Hself.
      change (eval rt deg (Name id)) with (lookup_name id).
      change (eval rt deg' (Name id)) with (lookup_name id).
      destruct (lookup_name id) as [fv|err] eqn:Hl; [|reflexivity].
      unfold bind at 1 3.
      destruct (eval_all rt deg' args) as [vs|err]; [|reflexivity].
      unfold bind.
      destruct fv; try reflexivity.
      apply (call_builtin_mode rt deg deg' id); [exact Hl|].
      apply (Hc (NExpr (Name id))).
      apply (desc_child _ (NExpr (Name id))); [now left|apply desc_self].
    + rewrite !eval_tuple, (eval_all_mode rt deg deg' es); [reflexivity|].
      intros c Hin. apply Hch. apply in_or_app. left. now apply in_map.
    + rewrite !eval_list, (eval_all_mode rt deg deg' es); [reflexivity|].
      intros c Hin. apply Hch. apply in_or_app. left. now apply in_map.
Qed.

Lemma safe_eval_mode rt text deg deg' :
  (forall body,
     ast_parse rt (replace_char "^" "**" text) = Ok body ->
     names_trig body = false) ->
  safe_eval rt text deg = safe_eval rt text deg'.
Proof.
  intros H. unfold safe_eval. cbv zeta.
  destruct (ast_parse rt (replace_char "^" "**" text)) as [body|err] eqn:Hp;
    [|reflexivity].
  specialize (H body eq_refl). unfold bind at 1 3.
  destruct (check_nodes (walk (NExpression body))) as [[]|err] eqn:Hck;
    [|reflexivity].
  unfold bind. apply (eval_mode rt deg deg' (expr_size body)); [lia|].
  intros m Hm.
  assert (Hin : In m (walk (NExpression body))).
  { apply walk_complete. apply (desc_child _ (NExpr body)); [now left|exact Hm]. }
  split.
  - apply check_nodes_ok in Hck. rewrite forallb_forall in Hck.
    specialize (Hck m Hin). now destruct (refused m).
  - destruct (is_trig_name m) eqn:E; [|reflexivity].
    unfold names_trig in H.
    assert (existsb is_trig_name (walk (NExpression body)) = true)
      by (apply existsb_exists; exists m; auto).
    congruence.
Qed.

Local Open Scope float_scope.

(** X8.  [mode_deg] reaches the result through the names [sin], [cos]
    and [tan] only: a value text whose tree holds none of these names
    has the same value, or fails with the same error, in both modes, and
    so has the whole conversion, whatever the interpreter.  With [sin],
    the mode decides: [sin(90)] is the sine of libm at 90 in the radian
    mode and at [90 * (pi/180)] in the degree mode. *)
Theorem mode_deg_reaches_trig_only :
  (forall rt text deg deg',
     (forall body,
        ast_parse rt (replace_char "^" "**" text) = Ok body ->
        names_trig body = false) ->
     safe_eval rt text deg = safe_eval rt text deg')
  /\ (forall rt s deg deg',
        (forall m body,
           re_match EXPR_PAT s = Some m ->
           ast_parse rt (replace_char "^" "**" (strip (group m "value")))
           = Ok body ->
           names_trig body = false) ->
        parse_and_convert rt s deg = parse_and_convert rt s deg')
  /\ (forall rt, safe_eval rt "sin(90)" false
                 = math_1 (libm_sin rt) (VInt 90))
  /\ (forall rt, safe_eval rt "sin(90)" true
                 = math_1 (libm_sin rt) (VFloat 1.5707963267948966))
  /\ (forall rt deg, safe_eval rt "sqrt(16)+abs(-2)*round(2.5)" deg
                     = Ok (VFloat 8.0)).
Proof.
  split; [exact safe_eval_mode|].
  split.
  { intros rt s deg deg' H. unfold parse_and_convert.
    destruct (re_match EXPR_PAT s) as [m|]; [|reflexivity]. cbv zeta.
    assert (E : evaluate_value rt (strip (group m "value")) deg
                = evaluate_value rt (strip (group m "value")) deg').
    { unfold evaluate_value.
      now rewrite (safe_eval_mode rt (strip (group m "value")) deg deg'
                     (fun body => H m body eq_refl)). }
    now rewrite E. }
  split; [intros rt; vm_compute; reflexivity|].
  split; [intros rt; vm_compute; reflexivity|].
  intros rt deg; vm_compute; reflexivity.
Qed.

(** X8 at the text [2^3]. *)
Lemma mode_deg_reaches_trig_only_witness :
  safe_eval bare_runtime "2^3" true = safe_eval bare_runtime "2^3" false.
Proof.
  apply (proj1 mode_deg_reaches_trig_only bare_runtime "2^3" true false).
  intros body H. vm_compute in H. injection H as <-. reflexivity.
Defined.

Local Close Scope float_scope.
